(** * A stdio task worker: [docker-examples/workers/python/simple_worker.py]

    The worker reads one JSON task from standard input, builds a greeting
    and prints one JSON result to standard output; a [try]/[except] around
    [main()] turns every [Exception] into a failure result.

    The script is embedded as a function from the contents of standard
    input to the writes on standard output and the exit status.  The
    CPython built-ins it calls ([json.load], [dict.get], f-string
    formatting, [json.dumps], [print]) are modelled next to it. *)

From Stdlib Require Import ZArith NArith PArith Lia List Bool Ascii String.
From Stdlib Require Import Decimal DecimalN DecimalPos DecimalFacts.
From Stdlib Require Import SpecFloat.
Import ListNotations.

Set Warnings "-register-all".
Local Open Scope N_scope.

(** ** Python strings

    A Python [str] is a sequence of Unicode code points. *)

Definition pystr := list N.

(** The code points of a literal of the source. *)
Definition lit (s : string) : pystr :=
  List.map N_of_ascii (list_ascii_of_string s).

Fixpoint pystr_eqb (a b : pystr) : bool :=
  match a, b with
  | [], [] => true
  | x :: a', y :: b' => N.eqb x y && pystr_eqb a' b'
  | _, _ => false
  end.

(** [str.join] *)
Fixpoint join (sep : pystr) (parts : list pystr) : pystr :=
  match parts with
  | [] => []
  | [p] => p
  | p :: rest => p ++ sep ++ join sep rest
  end.

(** *** Decimal and hexadecimal digits *)

Fixpoint uint_chars (d : Decimal.uint) : pystr :=
  match d with
  | Nil => []
  | D0 d => 48 :: uint_chars d
  | D1 d => 49 :: uint_chars d
  | D2 d => 50 :: uint_chars d
  | D3 d => 51 :: uint_chars d
  | D4 d => 52 :: uint_chars d
  | D5 d => 53 :: uint_chars d
  | D6 d => 54 :: uint_chars d
  | D7 d => 55 :: uint_chars d
  | D8 d => 56 :: uint_chars d
  | D9 d => 57 :: uint_chars d
  end.

(** [str(n)] for a natural number: decimal, no leading zero. *)
Definition dec_N (n : N) : pystr := uint_chars (N.to_uint n).

(** [int.__repr__] *)
Definition int_repr (z : Z) : pystr :=
  match z with
  | Zneg p => 45 :: dec_N (Npos p)
  | _ => dec_N (Z.to_N z)
  end.

(** [Py_hexdigits], lower case. *)
Definition hexdigit (n : N) : N :=
  if n <? 10 then 48 + n else 87 + n.

(** [n] as [w] hexadecimal digits, most significant first (the value is
    reduced modulo [16^w]). *)
Fixpoint hex_fixed (w : nat) (n : N) : pystr :=
  match w with
  | O => []
  | S w' => hex_fixed w' (n / 16) ++ [hexdigit (n mod 16)]
  end.

(** ** Python floats

    A [float] is an IEEE 754 binary64 number, here a [spec_float] of the
    standard library with [prec = 53] and [emax = 1024]. *)

Module PyFloat.

Definition prec : Z := 53.
Definition emax : Z := 1024.

Definition pow10 (k : Z) : Z := Z.pow 10 k.

(** [float(s)] for the literal whose digits are the natural number [d]
    and whose decimal exponent is [e]: the binary64 number nearest to
    [d * 10^e], ties to even; what is too large becomes an infinity. *)
Definition of_decimal (neg : bool) (d : N) (e : Z) : spec_float :=
  match d with
  | N0 => S754_zero neg
  | Npos p =>
      if (0 <=? e)%Z
      then binary_round prec emax neg (Z.to_pos (Zpos p * pow10 e)) 0
      else SFdiv prec emax (S754_finite neg p 0)
                 (S754_finite false (Z.to_pos (pow10 (- e))) 0)
  end.

(** The exact value of a positive finite float as a fraction. *)
Definition num (m : positive) (e : Z) : Z :=
  (Zpos m * Z.pow 2 (Z.max e 0))%Z.
Definition den (e : Z) : Z := Z.pow 2 (Z.max (- e) 0).

(** [floor (x / 10^k)] for [x = n / d]. *)
Definition scaled_floor (n d k : Z) : Z :=
  if (0 <=? k)%Z then (n / (d * pow10 k))%Z else ((n * pow10 (- k)) / d)%Z.

(** The decimal exponent of [x = n / d]: the least [j] from [lo] on with
    [x < 10^j]. *)
Fixpoint decpt_from (fuel : nat) (n d lo : Z) : Z :=
  match fuel with
  | O => lo
  | S f =>
      if (scaled_floor n d lo =? 0)%Z then lo else decpt_from f n d (lo + 1)%Z
  end.

(** A float with [b] bits before the binary point is at least
    [2^(b-1)], so that its decimal exponent is found a few steps after
    [(b - 1) log10 2], here rounded down. *)
Definition decpt_of (m : positive) (e : Z) : Z :=
  let b := (Zpos (digits2_pos m) + e)%Z in
  decpt_from 8 (num m e) (den e) ((b - 1) * 30103 / 100000 - 1)%Z.

Definition same_float (x : spec_float) (m : positive) (e : Z) : bool :=
  match x with
  | S754_finite false m' e' => Pos.eqb m m' && Z.eqb e e'
  | _ => false
  end.

(** Of the two neighbours [lo] and [hi = lo + 1] of [x / 10^k], for
    [x = n / d], the nearer one, and the even one when [x] lies half way
    between them. *)
Definition nearer (n d k lo : Z) : Z :=
  let hi := (lo + 1)%Z in
  let side :=
    if (0 <=? k)%Z then Z.compare (2 * n) ((lo + hi) * pow10 k * d)
    else Z.compare (2 * n * pow10 (- k)) ((lo + hi) * d) in
  match side with
  | Lt => lo
  | Gt => hi
  | Eq => if Z.even lo then lo else hi
  end.

(** The shortest decimal that reads back as the float (the
    digits [repr] prints): for each number of digits [p = 17 - fuel + 1],
    ..., 17 the two [p]-digit neighbours of [x] are tried, and when both
    read back as [x] the one [nearer] gives.  The result is the digits as
    a number and the exponent [k]: [x] prints as [digits * 10^k]. *)
Fixpoint shortest_from (fuel : nat) (p : Z) (m : positive) (e : Z)
    (pt : Z) : Z * Z :=
  let n := num m e in
  let d := den e in
  let k := (pt - p)%Z in
  let lo := scaled_floor n d k in
  let hi := (lo + 1)%Z in
  let lo_ok := same_float (of_decimal false (Z.to_N lo) k) m e in
  let hi_ok := same_float (of_decimal false (Z.to_N hi) k) m e in
  match fuel with
  | O => (nearer n d k lo, k)
  | S f =>
      if lo_ok && hi_ok then (nearer n d k lo, k)
      else if lo_ok then (lo, k)
      else if hi_ok then (hi, k)
      else shortest_from f (p + 1)%Z m e pt
  end.

(** Trailing zeros of the digits move into the exponent. *)
Fixpoint strip_zeros (fuel : nat) (dk : Z * Z) : Z * Z :=
  match fuel with
  | O => dk
  | S f =>
      let '(d, k) := dk in
      if (d =? 0)%Z then dk
      else if (d mod 10 =? 0)%Z then strip_zeros f ((d / 10)%Z, (k + 1)%Z)
      else dk
  end.

Definition shortest (m : positive) (e : Z) : Z * Z :=
  strip_zeros 17 (shortest_from 16 1 m e (decpt_of m e)).

(** The number as [repr] lays it out: an integer part, an optional
    fraction and an optional exponent. *)
Record layout := {
  l_neg : bool;
  l_int : pystr;
  l_frac : option pystr;
  l_exp : option (bool * N)
}.

Definition zeros (n : Z) : pystr := List.repeat 48 (Z.to_nat n).

(** [format_float_short] with format code ['r']: exponent notation when
    [decpt > 16] or [decpt < -3], and [".0"] added to a number without
    fraction in positional notation. *)
Definition layout_of (neg : bool) (digits : Z) (k : Z) : layout :=
  let ds := dec_N (Z.to_N digits) in
  let nd := Z.of_nat (List.length ds) in
  let decpt := (nd + k)%Z in
  if ((decpt <=? -4) || (16 <? decpt))%Z then
    {| l_neg := neg;
       l_int := dec_N (Z.to_N (digits / pow10 (nd - 1)));
       l_frac := match List.tl ds with [] => None | t => Some t end;
       l_exp := Some ((decpt - 1 <? 0)%Z, Z.to_N (Z.abs (decpt - 1))) |}
  else if (decpt <=? 0)%Z then
    {| l_neg := neg; l_int := [48];
       l_frac := Some (zeros (- decpt) ++ ds); l_exp := None |}
  else if (nd <=? decpt)%Z then
    {| l_neg := neg; l_int := dec_N (Z.to_N (digits * pow10 k));
       l_frac := Some [48]; l_exp := None |}
  else
    {| l_neg := neg; l_int := dec_N (Z.to_N (digits / pow10 (- k)));
       l_frac := Some (List.skipn (Z.to_nat decpt) ds); l_exp := None |}.

(** The exponent is printed with a sign and at least two digits. *)
Definition exp_chars (ex : bool * N) : pystr :=
  let '(neg, n) := ex in
  [101; if neg then 45 else 43] ++ (if n <? 10 then [48] else []) ++ dec_N n.

Definition render (l : layout) : pystr :=
  (if l_neg l then [45] else []) ++ l_int l
  ++ match l_frac l with Some f => 46 :: f | None => [] end
  ++ match l_exp l with Some ex => exp_chars ex | None => [] end.

Definition finite_layout (x : spec_float) : option layout :=
  match x with
  | S754_zero s => Some (layout_of s 0 0)
  | S754_finite s m e => let '(d, k) := shortest m e in Some (layout_of s d k)
  | _ => None
  end.

(** [float.__repr__] *)
Definition repr (x : spec_float) : pystr :=
  match finite_layout x with
  | Some l => render l
  | None =>
      match x with
      | S754_infinity false => lit "inf"
      | S754_infinity true => lit "-inf"
      | _ => lit "nan"
      end
  end.

Definition is_finite (x : spec_float) : bool :=
  match x with
  | S754_zero _ | S754_finite _ _ _ => true
  | _ => false
  end.

End PyFloat.

(** ** Python values

    The values [json.load] builds: [None], [bool], [int], [float], [str],
    [list] and [dict] with [str] keys.  A [dict] keeps its items in
    insertion order. *)

Inductive pyval : Type :=
  | PNone
  | PBool (b : bool)
  | PInt (z : Z)
  | PFloat (x : spec_float)
  | PStr (s : pystr)
  | PList (items : list pyval)
  | PDict (items : list (pystr * pyval)).

Definition pydict := list (pystr * pyval).

(** [d[k]], if any. *)
Fixpoint dict_lookup (d : pydict) (k : pystr) : option pyval :=
  match d with
  | [] => None
  | (k', v) :: d' => if pystr_eqb k' k then Some v else dict_lookup d' k
  end.

(** [d[k] = v]: an existing key keeps its place. *)
Fixpoint dict_store (d : pydict) (k : pystr) (v : pyval) : pydict :=
  match d with
  | [] => [(k, v)]
  | (k', v') :: d' =>
      if pystr_eqb k' k then (k', v) :: d' else (k', v') :: dict_store d' k v
  end.

(** [dict(pairs)] *)
Definition dict_of_pairs (pairs : list (pystr * pyval)) : pydict :=
  List.fold_left (fun d kv => dict_store d (fst kv) (snd kv)) pairs [].

(** [dict.get(k, default)] *)
Definition dict_get (d : pydict) (k : pystr) (default : pyval) : pyval :=
  match dict_lookup d k with
  | Some v => v
  | None => default
  end.

(** [type(v).__name__] *)
Definition type_name (v : pyval) : pystr :=
  match v with
  | PNone => lit "NoneType"
  | PBool _ => lit "bool"
  | PInt _ => lit "int"
  | PFloat _ => lit "float"
  | PStr _ => lit "str"
  | PList _ => lit "list"
  | PDict _ => lit "dict"
  end.

(** ** Exceptions *)

Inductive pyexc : Type :=
  | JSONDecodeError (msg : pystr) (doc : pystr) (pos : nat)
  | AttributeError (msg : pystr)
  | UnicodeDecodeError (msg : pystr)
  | UnicodeEncodeError (msg : pystr)
  | ValueError (msg : pystr)
  | RecursionError (msg : pystr).

(** All six classes derive from [Exception] ([JSONDecodeError] and the
    two Unicode errors through [ValueError], [RecursionError] through
    [RuntimeError]). *)
Definition isinstance_Exception (e : pyexc) : bool :=
  match e with
  | JSONDecodeError _ _ _ => true
  | AttributeError _ => true
  | UnicodeDecodeError _ => true
  | UnicodeEncodeError _ => true
  | ValueError _ => true
  | RecursionError _ => true
  end.

(** Number of newlines in the first [pos] characters, and the characters
    after the last of them. *)
Fixpoint line_col (doc : pystr) (pos : nat) (line col : N) : N * N :=
  match pos, doc with
  | S pos', c :: doc' =>
      if c =? 10 then line_col doc' pos' (line + 1) 1
      else line_col doc' pos' line (col + 1)
  | _, _ => (line, col)
  end.

(** [str(e)]; a [JSONDecodeError] adds the place to its message. *)
Definition exc_str (e : pyexc) : pystr :=
  match e with
  | JSONDecodeError msg doc pos =>
      let '(line, col) := line_col doc pos 1 1 in
      msg ++ lit ": line " ++ dec_N line ++ lit " column " ++ dec_N col
      ++ lit " (char " ++ dec_N (N.of_nat pos) ++ lit ")"
  | AttributeError msg => msg
  | UnicodeDecodeError msg => msg
  | UnicodeEncodeError msg => msg
  | ValueError msg => msg
  | RecursionError msg => msg
  end.

(** The result of an operation that may raise. *)
Inductive outcome (A : Type) : Type :=
  | Returns (a : A)
  | Raises (e : pyexc).
Arguments Returns {A} a.
Arguments Raises {A} e.

(** [v.get(k, default)]: only a [dict] has the method. *)
Definition py_get (v : pyval) (k : pystr) (default : pyval) : outcome pyval :=
  match v with
  | PDict d => Returns (dict_get d k default)
  | _ => Raises (AttributeError
                   (lit "'" ++ type_name v
                    ++ lit "' object has no attribute 'get'"))
  end.

(** ** [repr], [str] and f-string fields *)

Section Format.

(** [isprintable c] is [Py_UNICODE_ISPRINTABLE] for a code point above
    ASCII, a table of the Unicode database of the interpreter. *)
Variable isprintable : N -> bool.

Definition repr_char (quote : N) (c : N) : pystr :=
  if (c =? quote) || (c =? 92) then [92; c]
  else if c =? 9 then lit "\t"
  else if c =? 10 then lit "\n"
  else if c =? 13 then lit "\r"
  else if (c <? 32) || (c =? 127) then lit "\x" ++ hex_fixed 2 c
  else if c <? 127 then [c]
  else if isprintable c then [c]
  else if c <=? 255 then lit "\x" ++ hex_fixed 2 c
  else if c <=? 65535 then lit "\u" ++ hex_fixed 4 c
  else lit "\U" ++ hex_fixed 8 c.

Definition mem_char (c : N) (s : pystr) : bool :=
  List.existsb (N.eqb c) s.

(** [repr] of a [str]: single quotes, unless the text has a single quote
    and no double quote. *)
Definition str_repr (s : pystr) : pystr :=
  let quote := if mem_char 39 s && negb (mem_char 34 s) then 34 else 39 in
  quote :: List.flat_map (repr_char quote) s ++ [quote].

Fixpoint py_repr (v : pyval) : pystr :=
  match v with
  | PNone => lit "None"
  | PBool true => lit "True"
  | PBool false => lit "False"
  | PInt z => int_repr z
  | PFloat x => PyFloat.repr x
  | PStr s => str_repr s
  | PList items => lit "[" ++ join (lit ", ") (List.map py_repr items) ++ lit "]"
  | PDict items =>
      lit "{"
      ++ join (lit ", ")
           (List.map (fun kv => str_repr (fst kv) ++ lit ": " ++ py_repr (snd kv))
              items)
      ++ lit "}"
  end.

(** [format(v, '')], the text of an f-string field [{v}]: [str(v)]. *)
Definition py_str (v : pyval) : pystr :=
  match v with
  | PStr s => s
  | _ => py_repr v
  end.

End Format.

(** ** [json.dumps]

    With the default settings: [ensure_ascii=True], [allow_nan=True],
    separators [", "] and [": "], items in the order of the [dict]. *)

Module Json.

(** [ascii_escape_unichar] of [_json.c]. *)
Definition escape_char (c : N) : pystr :=
  if (32 <=? c) && (c <=? 126) && negb (c =? 92) && negb (c =? 34) then [c]
  else if c =? 92 then [92; 92]
  else if c =? 34 then [92; 34]
  else if c =? 8 then [92; 98]
  else if c =? 12 then [92; 102]
  else if c =? 10 then [92; 110]
  else if c =? 13 then [92; 114]
  else if c =? 9 then [92; 116]
  else if 65536 <=? c then
    let hi := 55296 - 64 + N.shiftr c 10 in
    let lo := 56320 + N.land c 1023 in
    [92; 117] ++ hex_fixed 4 hi ++ [92; 117] ++ hex_fixed 4 lo
  else [92; 117] ++ hex_fixed 4 c.

(** [encode_basestring_ascii] *)
Definition encode_string (s : pystr) : pystr :=
  34 :: List.flat_map escape_char s ++ [34].

(** [floatstr]: the non-finite floats are written as JavaScript names. *)
Definition floatstr (x : spec_float) : pystr :=
  match x with
  | S754_nan => lit "NaN"
  | S754_infinity false => lit "Infinity"
  | S754_infinity true => lit "-Infinity"
  | _ => PyFloat.repr x
  end.

Fixpoint dumps (v : pyval) : pystr :=
  match v with
  | PNone => lit "null"
  | PBool true => lit "true"
  | PBool false => lit "false"
  | PInt z => int_repr z
  | PFloat x => floatstr x
  | PStr s => encode_string s
  | PList items => lit "[" ++ join (lit ", ") (List.map dumps items) ++ lit "]"
  | PDict items =>
      lit "{"
      ++ join (lit ", ")
           (List.map (fun kv => encode_string (fst kv) ++ lit ": " ++ dumps (snd kv))
              items)
      ++ lit "}"
  end.

(** *** [json.loads]

    The decoder of [_json.c] with the default settings ([strict=True],
    [parse_float=float], [parse_int=int]).  [allow_constants] is the
    [parse_constant] hook: by default the names [NaN], [Infinity] and
    [-Infinity] are read as floats; a hook that refuses them leaves the
    grammar of RFC 8259.

    A place in the document is kept as the number of characters that
    remain from it on.  A scan ends with a value and the rest of the
    text ([Ok]), with the message and the place of a [JSONDecodeError]
    ([Err]), with another exception that the interpreter raised on the
    way ([Fail]), or for lack of fuel ([NoFuel]). *)

Inductive scan (A : Type) : Type :=
  | Ok (a : A) (rest : pystr)
  | Err (msg : pystr) (remaining : nat)
  | NoFuel
  | Fail (e : pyexc).
Arguments Ok {A} a rest.
Arguments Err {A} msg remaining.
Arguments NoFuel {A}.
Arguments Fail {A} e.

Definition is_ws (c : N) : bool :=
  (c =? 32) || (c =? 9) || (c =? 10) || (c =? 13).

Fixpoint skip_ws (s : pystr) : pystr :=
  match s with
  | c :: r => if is_ws c then skip_ws r else s
  | [] => []
  end.

Definition is_digit (c : N) : bool := (48 <=? c) && (c <=? 57).

Fixpoint span_digits (s : pystr) : pystr * pystr :=
  match s with
  | c :: r =>
      if is_digit c then let '(ds, rest) := span_digits r in (c :: ds, rest)
      else ([], s)
  | [] => ([], [])
  end.

(** The number written by decimal digits. *)
Definition digits_value (ds : pystr) : N :=
  List.fold_left (fun acc c => 10 * acc + (c - 48)) ds 0.

Definition hex_value (c : N) : option N :=
  if is_digit c then Some (c - 48)
  else if (97 <=? c) && (c <=? 102) then Some (c - 87)
  else if (65 <=? c) && (c <=? 70) then Some (c - 55)
  else None.

Definition hex4 (a b c d : N) : option N :=
  match hex_value a, hex_value b, hex_value c, hex_value d with
  | Some x, Some y, Some z, Some w => Some (((x * 16 + y) * 16 + z) * 16 + w)
  | _, _, _, _ => None
  end.

Definition is_high_surrogate (c : N) : bool := (55296 <=? c) && (c <=? 56319).
Definition is_low_surrogate (c : N) : bool := (56320 <=? c) && (c <=? 57343).
Definition join_surrogates (hi lo : N) : N :=
  65536 + N.shiftl (N.land hi 1023) 10 + N.land lo 1023.

Definition unescape (c : N) : option N :=
  if (c =? 34) || (c =? 92) || (c =? 47) then Some c
  else if c =? 98 then Some 8
  else if c =? 102 then Some 12
  else if c =? 110 then Some 10
  else if c =? 114 then Some 13
  else if c =? 116 then Some 9
  else None.

Definition cons_char (c : N) (r : scan pystr) : scan pystr :=
  match r with
  | Ok s rest => Ok (c :: s) rest
  | Err msg n => Err msg n
  | NoFuel => NoFuel
  | Fail e => Fail e
  end.

(** [scanstring_unicode]: [s] is the text after the opening quote and
    [start] the place of that quote. *)
Fixpoint scanstring (start : nat) (s : pystr) : scan pystr :=
  match s with
  | [] => Err (lit "Unterminated string starting at") start
  | c :: r =>
      if c =? 34 then Ok [] r
      else if c =? 92 then
        match r with
        | [] => Err (lit "Unterminated string starting at") start
        | e :: r1 =>
            if e =? 117 then
              match r1 with
              | h1 :: h2 :: h3 :: h4 :: ((_ :: _) as r2) =>
                  match hex4 h1 h2 h3 h4 with
                  | None => Err (lit "Invalid \uXXXX escape") (S (List.length r1))
                  | Some u =>
                      match r2 with
                      | b :: u' :: g1 :: g2 :: g3 :: g4 :: ((_ :: _) as r3) =>
                          if is_high_surrogate u && (b =? 92) && (u' =? 117) then
                            match hex4 g1 g2 g3 g4 with
                            | None =>
                                Err (lit "Invalid \uXXXX escape")
                                    (S (S (S (S (S (List.length r3))))))
                            | Some u2 =>
                                if is_low_surrogate u2
                                then cons_char (join_surrogates u u2) (scanstring start r3)
                                else cons_char u (scanstring start r2)
                            end
                          else cons_char u (scanstring start r2)
                      | _ => cons_char u (scanstring start r2)
                      end
                  end
              | _ => Err (lit "Invalid \uXXXX escape") (S (List.length r1))
              end
            else
              match unescape e with
              | Some c' => cons_char c' (scanstring start r1)
              | None => Err (lit "Invalid \escape") (S (S (List.length r1)))
              end
        end
      else if c <=? 31 then Err (lit "Invalid control character at") (List.length s)
      else cons_char c (scanstring start r)
  end.

(** [_match_number_unicode]: an optional minus sign; an integer part, a
    single zero or a non-zero digit and further digits; optionally a dot
    and digits; optionally [e] or [E], a sign and digits.  The value is an
    [int] when there is neither fraction nor exponent and a [float]
    otherwise. *)
Definition match_int_part (s : pystr) : option (pystr * pystr) :=
  match s with
  | c :: r =>
      if (49 <=? c) && (c <=? 57) then
        let '(ds, rest) := span_digits r in Some (c :: ds, rest)
      else if c =? 48 then Some ([48], r)
      else None
  | [] => None
  end.

Definition match_frac (s : pystr) : option (pystr * pystr) :=
  match s with
  | c :: ((d :: _) as r) =>
      if (c =? 46) && is_digit d then Some (span_digits r) else None
  | _ => None
  end.

Definition match_exp (s : pystr) : option (Z * pystr) :=
  match s with
  | c :: r =>
      if (c =? 101) || (c =? 69) then
        let '(neg, r1) :=
          match r with
          | sg :: r' =>
              if sg =? 45 then (true, r')
              else if sg =? 43 then (false, r') else (false, r)
          | [] => (false, r)
          end in
        match span_digits r1 with
        | ([], _) => None
        | (ds, rest) =>
            let e := Z.of_N (digits_value ds) in
            Some (if neg then (- e)%Z else e, rest)
        end
      else None
  | [] => None
  end.

Definition match_number (s : pystr) : option (pyval * pystr) :=
  let '(neg, s1) :=
    match s with
    | c :: r => if c =? 45 then (true, r) else (false, s)
    | [] => (false, s)
    end in
  match match_int_part s1 with
  | None => None
  | Some (ip, s2) =>
      let '(fp, s3) :=
        match match_frac s2 with
        | Some (fp, r) => (Some fp, r)
        | None => (None, s2)
        end in
      let '(ex, s4) :=
        match match_exp s3 with
        | Some (e, r) => (Some e, r)
        | None => (None, s3)
        end in
      match fp, ex with
      | None, None =>
          let n := Z.of_N (digits_value ip) in
          Some (PInt (if neg then (- n)%Z else n), s4)
      | _, _ =>
          let fd := match fp with Some f => f | None => [] end in
          let e := match ex with Some e => e | None => 0%Z end in
          Some (PFloat (PyFloat.of_decimal neg (digits_value (ip ++ fd))
                          (e - Z.of_nat (List.length fd))), s4)
      end
  end.

(** Does [s] start with the characters of [word]? *)
Fixpoint strip_prefix (word s : pystr) : option pystr :=
  match word, s with
  | [], _ => Some s
  | w :: word', c :: s' => if w =? c then strip_prefix word' s' else None
  | _ :: _, [] => None
  end.

(** The named constants of [scan_once_unicode]. *)
Definition match_constant (allow_constants : bool) (s : pystr)
    : option (pyval * pystr) :=
  match strip_prefix (lit "null") s with
  | Some r => Some (PNone, r)
  | None =>
  match strip_prefix (lit "true") s with
  | Some r => Some (PBool true, r)
  | None =>
  match strip_prefix (lit "false") s with
  | Some r => Some (PBool false, r)
  | None =>
  if allow_constants then
    match strip_prefix (lit "NaN") s with
    | Some r => Some (PFloat S754_nan, r)
    | None =>
    match strip_prefix (lit "Infinity") s with
    | Some r => Some (PFloat (S754_infinity false), r)
    | None =>
    match strip_prefix (lit "-Infinity") s with
    | Some r => Some (PFloat (S754_infinity true), r)
    | None => None
    end end end
  else None
  end end end.

(** *** The limits of the interpreter

    Two limits of CPython bear on the decoder.  [int(s)] refuses a
    decimal literal of more than [sys.int_info.default_max_str_digits]
    digits with a [ValueError], and the scanner enters every object and
    every array through [Py_EnterRecursiveCall], which raises a
    [RecursionError] when the recursion limit is reached.  A [limit] is
    either absent or a number: of digits, or of containers that may still
    be entered. *)

Inductive limit : Type :=
  | Unlimited
  | AtMost (n : nat).

(** One more container is entered: what is left of the limit inside
    it, or [None] when nothing is left. *)
Definition enter (depth : limit) : option limit :=
  match depth with
  | Unlimited => Some Unlimited
  | AtMost O => None
  | AtMost (S n) => Some (AtMost n)
  end.

Definition max_str_digits : nat := 4300.

(** The digits of the literal of an integer, which has no leading
    zero: those of its absolute value. *)
Definition int_digits (z : Z) : nat := List.length (dec_N (Z.abs_N z)).

(** [PyLong_FromString] on the literal of [v], when [v] is an [int]. *)
Definition int_conversion_error (digit_limit : limit) (v : pyval)
    : option pyexc :=
  match digit_limit, v with
  | AtMost m, PInt z =>
      if (m <? int_digits z)%nat then
        Some (ValueError
                (lit "Exceeds the limit (" ++ dec_N (N.of_nat m)
                 ++ lit " digits) for integer string conversion: value has "
                 ++ dec_N (N.of_nat (int_digits z))
                 ++ lit " digits; use sys.set_int_max_str_digits() to increase the limit"))
      else None
  | _, _ => None
  end.

Definition too_deep (what : string) : pyexc :=
  RecursionError
    (lit "maximum recursion depth exceeded while decoding a JSON "
     ++ lit what ++ lit " from a unicode string").

Section Decoder.

Variable allow_constants : bool.
Variable digit_limit : limit.

(** [scan_once_unicode], [_parse_object_unicode] (from the first key on)
    and [_parse_array_unicode] (from the first item on).  One unit of
    [fuel] is spent per value; [depth] is the number of containers that
    may still be entered. *)
Fixpoint scan_once (fuel : nat) (depth : limit) (s : pystr) {struct fuel}
    : scan pyval :=
  match fuel with
  | O => NoFuel
  | S fuel' =>
      match s with
      | [] => Err (lit "Expecting value") 0
      | c :: r =>
          if c =? 34 then
            match scanstring (List.length s) r with
            | Ok str rest => Ok (PStr str) rest
            | Err msg n => Err msg n
            | NoFuel => NoFuel
            | Fail e => Fail e
            end
          else if c =? 123 then
            match enter depth with
            | None => Fail (too_deep "object")
            | Some inner =>
                match skip_ws r with
                | c' :: r' =>
                    if c' =? 125 then Ok (PDict []) r'
                    else
                      match parse_pairs fuel' inner (c' :: r') [] with
                      | Ok d rest => Ok (PDict d) rest
                      | Err msg n => Err msg n
                      | NoFuel => NoFuel
                      | Fail e => Fail e
                      end
                | [] =>
                    Err (lit "Expecting property name enclosed in double quotes") 0
                end
            end
          else if c =? 91 then
            match enter depth with
            | None => Fail (too_deep "array")
            | Some inner =>
                match skip_ws r with
                | c' :: r' =>
                    if c' =? 93 then Ok (PList []) r'
                    else
                      match parse_items fuel' inner (c' :: r') [] with
                      | Ok l rest => Ok (PList l) rest
                      | Err msg n => Err msg n
                      | NoFuel => NoFuel
                      | Fail e => Fail e
                      end
                | [] => Err (lit "Expecting value") 0
                end
            end
          else
            match match_constant allow_constants s with
            | Some (v, rest) => Ok v rest
            | None =>
                match match_number s with
                | Some (v, rest) =>
                    match int_conversion_error digit_limit v with
                    | Some e => Fail e
                    | None => Ok v rest
                    end
                | None => Err (lit "Expecting value") (List.length s)
                end
            end
      end
  end

with parse_pairs (fuel : nat) (depth : limit) (s : pystr) (acc : pydict)
    {struct fuel} : scan pydict :=
  match fuel with
  | O => NoFuel
  | S fuel' =>
      match s with
      | c :: r =>
          if c =? 34 then
            match scanstring (List.length s) r with
            | Ok key s1 =>
                match skip_ws s1 with
                | c1 :: r1 =>
                    if c1 =? 58 then
                      match scan_once fuel' depth (skip_ws r1) with
                      | Ok v s2 =>
                          let acc' := dict_store acc key v in
                          match skip_ws s2 with
                          | c2 :: r2 =>
                              if c2 =? 125 then Ok acc' r2
                              else if c2 =? 44 then
                                parse_pairs fuel' depth (skip_ws r2) acc'
                              else Err (lit "Expecting ',' delimiter")
                                       (List.length (c2 :: r2))
                          | [] => Err (lit "Expecting ',' delimiter") 0
                          end
                      | Err msg n => Err msg n
                      | NoFuel => NoFuel
                      | Fail e => Fail e
                      end
                    else Err (lit "Expecting ':' delimiter")
                             (List.length (c1 :: r1))
                | [] => Err (lit "Expecting ':' delimiter") 0
                end
            | Err msg n => Err msg n
            | NoFuel => NoFuel
            | Fail e => Fail e
            end
          else Err (lit "Expecting property name enclosed in double quotes")
                   (List.length s)
      | [] => Err (lit "Expecting property name enclosed in double quotes") 0
      end
  end

with parse_items (fuel : nat) (depth : limit) (s : pystr)
    (acc : list pyval) {struct fuel} : scan (list pyval) :=
  match fuel with
  | O => NoFuel
  | S fuel' =>
      match scan_once fuel' depth s with
      | Ok v s1 =>
          let acc' := acc ++ [v] in
          match skip_ws s1 with
          | c1 :: r1 =>
              if c1 =? 93 then Ok acc' r1
              else if c1 =? 44 then parse_items fuel' depth (skip_ws r1) acc'
              else Err (lit "Expecting ',' delimiter") (List.length (c1 :: r1))
          | [] => Err (lit "Expecting ',' delimiter") 0
          end
      | Err msg n => Err msg n
      | NoFuel => NoFuel
      | Fail e => Fail e
      end
  end.

(** A document of [n] characters holds fewer than [n + 1] values, and
    the fuel is twice that. *)
Definition loads_fuel (doc : pystr) : nat := 2 * S (List.length doc).

(** [JSONDecoder.decode]: one value, with white space around it. *)
Definition decode_with (fuel : nat) (depth : limit) (doc : pystr)
    : option (outcome pyval) :=
  let err msg remaining :=
    Some (Raises (JSONDecodeError msg doc (List.length doc - remaining))) in
  match scan_once fuel depth (skip_ws doc) with
  | Ok v rest =>
      match skip_ws rest with
      | [] => Some (Returns v)
      | extra => err (lit "Extra data") (List.length extra)
      end
  | Err msg n => err msg n
  | NoFuel => None
  | Fail e => Some (Raises e)
  end.

(** [doc.startswith('\ufeff')] *)
Definition starts_with_bom (doc : pystr) : bool :=
  match doc with
  | c :: _ => c =? 65279
  | [] => false
  end.

(** [json.loads(doc)] with [depth] containers to enter: the check for a
    byte order mark, then [JSONDecoder.decode]. *)
Definition loads_with (fuel : nat) (depth : limit) (doc : pystr)
    : option (outcome pyval) :=
  if starts_with_bom doc
  then Some (Raises (JSONDecodeError
                       (lit "Unexpected UTF-8 BOM (decode using utf-8-sig)")
                       doc 0))
  else decode_with fuel depth doc.

End Decoder.

(** The grammar alone, with the three names or without them: a decoder
    that knows no limit.  This is the reading of a text as JSON that the
    statements about valid JSON use. *)
Definition loads (allow_constants : bool) (doc : pystr)
    : option (outcome pyval) :=
  loads_with allow_constants Unlimited (loads_fuel doc) Unlimited doc.

(** [json.loads(doc)] in the interpreter: the three names are read, an
    integer has at most [max_str_digits] digits and [depth] containers
    may be entered. *)
Definition load (depth : nat) (doc : pystr) : option (outcome pyval) :=
  loads_with true (AtMost max_str_digits) (loads_fuel doc) (AtMost depth) doc.

End Json.

(** ** The process

    What the script sees of standard input is the text [sys.stdin.read()]
    returns, or the [UnicodeDecodeError] it raises on bytes that are not
    text in the encoding of the stream. *)

Inductive stdin_contents : Type :=
  | Decoded (text : pystr)
  | Undecodable (msg : pystr).

(** Standard output is the list of the lines written, one per [print],
    and a process ends with an exit status. *)
Record process : Type := {
  stdout : list pystr;
  exit_status : Z
}.

(** Statements run on the lines written so far and either return or
    raise.  [None] is left for a decoder that is given too little fuel. *)
Definition io (A : Type) : Type :=
  list pystr -> option (outcome A * list pystr).

Definition ret {A : Type} (a : A) : io A :=
  fun out => Some (Returns a, out).

Definition bind {A B : Type} (m : io A) (k : A -> io B) : io B :=
  fun out =>
    match m out with
    | Some (Returns a, out') => k a out'
    | Some (Raises e, out') => Some (Raises e, out')
    | None => None
    end.

Definition lift {A : Type} (o : outcome A) : io A :=
  fun out => Some (o, out).

Notation "x <- m ;; k" := (bind m (fun x => k))
  (at level 61, m at next level, right associativity).

Section Worker.

(** The interpreter and its environment: the table behind
    [str.isprintable]; the encoder of [sys.stdout], which gives the
    message of the [UnicodeEncodeError] for a text it cannot encode; and
    the number of containers, one inside the other, that the recursion
    limit lets the scanner enter where [main] calls [json.load] (993 for
    CPython 3.11 with the default limit of 1000, the script being run as
    the main module).  What the scanner could enter, [str()] and
    [json.dumps], which [main] calls with fewer frames on the stack,
    can follow. *)
Variable isprintable : N -> bool.
Variable encode_error : pystr -> option pystr.
Variable decode_depth : nat.

(** [json.load(sys.stdin)] *)
Definition json_load (stdin : stdin_contents) : io pyval :=
  fun out =>
    match stdin with
    | Undecodable msg => Some (Raises (UnicodeDecodeError msg), out)
    | Decoded text =>
        match Json.load decode_depth text with
        | Some o => Some (o, out)
        | None => None
        end
    end.

(** [print(s)]: the text and a newline. *)
Definition print (s : pystr) : io unit :=
  fun out =>
    let line := s ++ [10] in
    match encode_error line with
    | Some msg => Some (Raises (UnicodeEncodeError msg), out)
    | None => Some (Returns tt, out ++ [line])
    end.

(** The result [main] builds at lines 27 to 39. *)
Definition completed (message : pystr) (task_id workflow_id : pyval)
    (logs : list pystr) : pyval :=
  PDict
    [ (lit "status", PStr (lit "COMPLETED"));
      (lit "output",
         PDict [ (lit "message", PStr message);
                 (lit "taskId", task_id);
                 (lit "workflowId", workflow_id) ]);
      (lit "logs", PList (List.map PStr logs)) ].

(** The result the handler builds at lines 48 to 52. *)
Definition failed (reason : pystr) (logs : list pystr) : pyval :=
  PDict
    [ (lit "status", PStr (lit "FAILED"));
      (lit "reason", PStr reason);
      (lit "logs", PList (List.map PStr logs)) ].

Definition fmt (v : pyval) : pystr := py_str isprintable v.

(** Lines 15 to 39: from the task to the result. *)
Definition process_task (task : pyval) : outcome pyval :=
  match py_get task (lit "inputData") (PDict []) with
  | Raises e => Raises e
  | Returns input_data =>
  match py_get input_data (lit "name") (PStr (lit "World")) with
  | Raises e => Raises e
  | Returns name =>
  match py_get task (lit "taskId") (PStr (lit "unknown")) with
  | Raises e => Raises e
  | Returns task_id =>
  match py_get task (lit "workflowInstanceId") (PStr (lit "unknown")) with
  | Raises e => Raises e
  | Returns workflow_id =>
  match py_get task (lit "taskType") (PStr (lit "unknown")) with
  | Raises e => Raises e
  | Returns task_type =>
      let message := lit "Hello, " ++ fmt name ++ lit "!" in
      Returns
        (completed message task_id workflow_id
           [ lit "Processing task " ++ fmt task_id ++ lit " of type "
               ++ fmt task_type;
             lit "Workflow: " ++ fmt workflow_id;
             lit "Generated greeting for " ++ fmt name ])
  end end end end end.

(** [main()] *)
Definition main (stdin : stdin_contents) : io unit :=
  task <- json_load stdin ;;
  result <- lift (process_task task) ;;
  print (Json.dumps result).

(** The result of the [except] clause for the exception [e]. *)
Definition failure_result (e : pyexc) : pyval :=
  failed (exc_str e) [lit "Error processing task: " ++ exc_str e].

(** The [if __name__ == '__main__'] block.  An exception that leaves it
    ends the process with a traceback and exit status 1. *)
Definition run (stdin : stdin_contents) : option process :=
  match main stdin [] with
  | None => None
  | Some (Returns _, out) => Some {| stdout := out; exit_status := 0 |}
  | Some (Raises e, out) =>
      if isinstance_Exception e then
        match print (Json.dumps (failure_result e)) out with
        | None => None
        | Some (Returns _, out') => Some {| stdout := out'; exit_status := 0 |}
        | Some (Raises _, out') => Some {| stdout := out'; exit_status := 1 |}
        end
      else Some {| stdout := out; exit_status := 1 |}
  end.

End Worker.

(** ** Vocabulary of the statements *)

(** A process that wrote the result [r] as its single line and ended
    normally. *)
Definition emitted (r : pyval) : process :=
  {| stdout := [Json.dumps r ++ [10]]; exit_status := 0 |}.

(** [r[k]] for a result [r]. *)
Definition field (k : string) (r : pyval) : option pyval :=
  match r with
  | PDict d => dict_lookup d (lit k)
  | _ => None
  end.

(** What [json.load(sys.stdin)] does: [None] if and only if the decoder
    is given too little fuel. *)
Definition load_outcome (decode_depth : nat) (stdin : stdin_contents)
    : option (outcome pyval) :=
  match stdin with
  | Undecodable msg => Some (Raises (UnicodeDecodeError msg))
  | Decoded text => Json.load decode_depth text
  end.

(** The containers the scanner may enter in CPython 3.11 with the
    default recursion limit of 1000, when the script runs as the main
    module. *)
Definition default_depth : nat := 993.

(** The defaults of lines 15 to 21. *)
Definition unknown : pyval := PStr (lit "unknown").
Definition World : pyval := PStr (lit "World").


(** Lines 15 to 39 on a task that is a [dict] whose [inputData] is
    absent or a [dict]. *)
Definition greeting_result (isprintable : N -> bool)
    (task input_data : pydict) : pyval :=
  let name := dict_get input_data (lit "name") World in
  let task_id := dict_get task (lit "taskId") unknown in
  let workflow_id := dict_get task (lit "workflowInstanceId") unknown in
  let task_type := dict_get task (lit "taskType") unknown in
  completed (lit "Hello, " ++ fmt isprintable name ++ lit "!")
    task_id workflow_id
    [ lit "Processing task " ++ fmt isprintable task_id ++ lit " of type "
        ++ fmt isprintable task_type;
      lit "Workflow: " ++ fmt isprintable workflow_id;
      lit "Generated greeting for " ++ fmt isprintable name ].

(** The [AttributeError] of [v.get] for a [v] without the method. *)
Definition no_get (v : pyval) : pyexc :=
  AttributeError
    (lit "'" ++ type_name v ++ lit "' object has no attribute 'get'").

(** Text of printable ASCII: every character lies between the space and
    the tilde. *)
Definition printable (s : pystr) : Prop :=
  Forall (fun c => 32 <= c <= 126) s.

(** An encoder of standard output that can write ASCII text. *)
Definition writes_ascii (encode_error : pystr -> option pystr) : Prop :=
  forall s, Forall (fun c => c < 128) s -> encode_error s = None.

(** Two instances of the environment: the encoder of a UTF-8 stream,
    which refuses the surrogates and what lies beyond U+10FFFF, and the
    printable characters of the Latin-1 supplement. *)
Definition utf8_encode_error (s : pystr) : option pystr :=
  if List.forallb
       (fun c => negb ((55296 <=? c) && (c <=? 57343)) && (c <=? 1114111)) s
  then None
  else Some (lit "'utf-8' codec can't encode character: surrogates not allowed").

Definition latin1_isprintable (c : N) : bool :=
  (161 <=? c) && (c <=? 255) && negb (c =? 173).

Definition ascii_encode_error (s : pystr) : option pystr :=
  if List.forallb (fun c => c <? 128) s
  then None
  else Some (lit "'ascii' codec can't encode character: ordinal not in range(128)").

(** *** Inputs of the examples

    The text of an example is written with ['] for the double quote. *)
Definition dq (s : string) : pystr :=
  List.map (fun c => if c =? 39 then 34 else c) (lit s).

Definition alice_text : pystr := dq "{'inputData': {'name': 'Alice'}}".
Definition alice_input : pydict := [(lit "name", PStr (lit "Alice"))].
Definition alice_task : pydict := [(lit "inputData", PDict alice_input)].

Definition bob_text : pystr :=
  dq "{'taskId':'t1','workflowInstanceId':'w1','taskType':'greet','inputData':{'name':'Bob'}}".
Definition bob_input : pydict := [(lit "name", PStr (lit "Bob"))].
Definition bob_task : pydict :=
  [ (lit "taskId", PStr (lit "t1"));
    (lit "workflowInstanceId", PStr (lit "w1"));
    (lit "taskType", PStr (lit "greet"));
    (lit "inputData", PDict bob_input) ].



Definition mixed_text : pystr :=
  dq "{'taskId': 7, 'taskType': null, 'inputData': {'name': [1, true]}}".
Definition mixed_input : pydict :=
  [(lit "name", PList [PInt 1; PBool true])].
Definition mixed_task : pydict :=
  [ (lit "taskId", PInt 7); (lit "taskType", PNone);
    (lit "inputData", PDict mixed_input) ].


Definition overflow_text : pystr := dq "{'taskId': 1e999}".
Definition overflow_task : pydict :=
  [(lit "taskId", PFloat (S754_infinity false))].

(** Further inputs: a name beyond ASCII, a [null] name, an input with
    fields the worker does not read, and one with a task type. *)
Definition accent_text : pystr :=
  dq "{'inputData': {'name': 'Zo" ++ [235] ++ dq "'}}".




(** An input that repeats a key, at the top and inside [taskId]. *)
Definition repeated_text : pystr :=
  dq "{'taskId': {'a': 1, 'a': 2}, 'taskId': {'b': 1, 'b': 2}}".

(** *** Valid JSON

    A text is a syntactically valid JSON object when the decoder reads it
    as an object without the three names that are no JSON. *)
Definition valid_json_object (text : pystr) : Prop :=
  exists d, Json.loads false text = Some (Returns (PDict d)).

(** A value holds only finite floats. *)
Fixpoint finite_value (v : pyval) : bool :=
  match v with
  | PFloat x => PyFloat.is_finite x
  | PList items => List.forallb finite_value items
  | PDict items => List.forallb (fun kv => finite_value (snd kv)) items
  | _ => true
  end.

(** The process wrote [line] and a newline, once, and ended normally. *)
Definition wrote_line (p : option process) (line : pystr) : Prop :=
  p = Some {| stdout := [line ++ [10]]; exit_status := 0 |}.

(** The body of a string as [encode_basestring_ascii] writes it: plain
    characters, two-character escapes and [\uXXXX] escapes. *)
Inductive escaped : pystr -> Prop :=
  | escaped_nil : escaped []
  | escaped_plain c t :
      32 <= c -> c <> 34 -> c <> 92 -> escaped t -> escaped (c :: t)
  | escaped_short e c t :
      Json.unescape e = Some c -> escaped t -> escaped (92 :: e :: t)
  | escaped_unicode h1 h2 h3 h4 u t :
      Json.hex4 h1 h2 h3 h4 = Some u -> escaped t ->
      escaped (92 :: 117 :: h1 :: h2 :: h3 :: h4 :: t).

(** What may follow a value in a document: nothing, or a character that
    is no part of a number. *)
Definition delimited (rest : pystr) : Prop :=
  match rest with
  | [] => True
  | c :: _ => c = 44 \/ c = 93 \/ c = 125
  end.

(** Decimal digits; an integer part without leading zero; a text that
    does not go on with a digit. *)
Definition all_digits (s : pystr) : Prop :=
  Forall (fun c => Json.is_digit c = true) s.

Definition canonical_int (ip : pystr) : Prop :=
  ip = [48]
  \/ exists c t, ip = c :: t /\ 49 <= c <= 57 /\ all_digits t.

Definition stops (t : pystr) : Prop :=
  match t with
  | [] => True
  | c :: _ => Json.is_digit c = false
  end.

(** The layout of a number of JSON. *)
Definition wf_layout (l : PyFloat.layout) : Prop :=
  canonical_int (PyFloat.l_int l)
  /\ (forall f, PyFloat.l_frac l = Some f -> f <> [] /\ all_digits f).

(** The strict decoder reads what [json.dumps] wrote for [v], whatever
    delimiter follows. *)
Definition accepted (v : pyval) : Prop :=
  forall rest, delimited rest ->
  exists f v',
    Json.scan_once false Json.Unlimited f Json.Unlimited (Json.dumps v ++ rest)
    = Json.Ok v' rest.

(** The strict decoder refuses what [json.dumps] wrote for [v], whatever
    follows. *)
Definition rejected (v : pyval) : Prop :=
  forall rest,
  exists f msg n,
    Json.scan_once false Json.Unlimited f Json.Unlimited (Json.dumps v ++ rest)
    = Json.Err msg n.

(** *** Values that [json.dumps] and [json.loads] carry unchanged

    A Unicode scalar value is a code point that is no surrogate. *)
Definition scalar (c : N) : bool :=
  ((c <? 55296) || (57343 <? c)) && (c <? 1114112).

Definition scalar_text (s : pystr) : bool := List.forallb scalar s.

(** No key is equal to a later one. *)
Fixpoint distinct (keys : list pystr) : bool :=
  match keys with
  | [] => true
  | k :: keys' => negb (List.existsb (pystr_eqb k) keys') && distinct keys'
  end.

(** A value without floats, whose strings and keys are texts of scalar
    values, and whose objects have distinct keys. *)
Fixpoint exact_value (v : pyval) : bool :=
  match v with
  | PFloat _ => false
  | PStr s => scalar_text s
  | PList items => List.forallb exact_value items
  | PDict items =>
      distinct (List.map fst items)
      && List.forallb (fun kv => scalar_text (fst kv) && exact_value (snd kv))
           items
  | _ => true
  end.

(** The strict decoder reads [v] itself in what [json.dumps] wrote for
    it, whatever delimiter follows. *)
Definition reads_back (v : pyval) : Prop :=
  forall rest, delimited rest ->
  exists f,
    Json.scan_once false Json.Unlimited f Json.Unlimited (Json.dumps v ++ rest)
    = Json.Ok v rest.

(** No object of the value, at any depth, has two equal keys. *)
Fixpoint keys_distinct (v : pyval) : bool :=
  match v with
  | PList items => List.forallb keys_distinct items
  | PDict items =>
      distinct (List.map fst items)
      && List.forallb (fun kv => keys_distinct (snd kv)) items
  | _ => true
  end.

(** * Properties *)

(** ** Induction on values *)

Section PyvalInd.

Variable P : pyval -> Prop.
Hypothesis H_none : P PNone.
Hypothesis H_bool : forall b, P (PBool b).
Hypothesis H_int : forall z, P (PInt z).
Hypothesis H_float : forall x, P (PFloat x).
Hypothesis H_str : forall s, P (PStr s).
Hypothesis H_list : forall items, Forall P items -> P (PList items).
Hypothesis H_dict :
  forall items, Forall (fun kv => P (snd kv)) items -> P (PDict items).

Fixpoint pyval_nested_ind (v : pyval) : P v :=
  match v with
  | PNone => H_none
  | PBool b => H_bool b
  | PInt z => H_int z
  | PFloat x => H_float x
  | PStr s => H_str s
  | PList items =>
      H_list items
        ((fix all (l : list pyval) : Forall P l :=
            match l with
            | [] => Forall_nil _
            | x :: l' => Forall_cons _ (pyval_nested_ind x) (all l')
            end) items)
  | PDict items =>
      H_dict items
        ((fix all (l : list (pystr * pyval))
            : Forall (fun kv => P (snd kv)) l :=
            match l with
            | [] => Forall_nil _
            | kv :: l' =>
                Forall_cons (P := fun kv => P (snd kv)) kv
                  (pyval_nested_ind (snd kv)) (all l')
            end) items)
  end.

End PyvalInd.

(** ** The text [json.dumps] writes is printable ASCII

    Every character of the output lies between the space and the tilde:
    the output holds no newline, and every encoder of [sys.stdout] that
    knows ASCII can write it. *)

Lemma printable_app a b : printable a -> printable b -> printable (a ++ b).
Proof. intros Ha Hb. apply Forall_app; split; assumption. Qed.

Lemma printable_cons c s :
  32 <= c <= 126 -> printable s -> printable (c :: s).
Proof. intros Hc Hs. constructor; assumption. Qed.

Lemma printable_lit_dec (s : pystr) :
  forallb (fun c => (32 <=? c) && (c <=? 126)) s = true -> printable s.
Proof.
  intros H. apply Forall_forall. intros c Hc.
  rewrite forallb_forall in H. specialize (H c Hc).
  apply andb_true_iff in H. destruct H as [H1 H2].
  apply N.leb_le in H1. apply N.leb_le in H2. lia.
Qed.

Ltac printable_const := apply printable_lit_dec; reflexivity.

Lemma printable_join sep parts :
  printable sep -> Forall printable parts -> printable (join sep parts).
Proof.
  intros Hsep Hparts. induction Hparts as [| p rest Hp Hrest IH].
  - constructor.
  - destruct rest as [| q rest'].
    + exact Hp.
    + change (printable (p ++ sep ++ join sep (q :: rest'))).
      auto using printable_app.
Qed.

Lemma printable_uint_chars d : printable (uint_chars d).
Proof.
  induction d; simpl; try constructor; try assumption; lia.
Qed.

Lemma printable_dec_N n : printable (dec_N n).
Proof. apply printable_uint_chars. Qed.

Lemma printable_int_repr z : printable (int_repr z).
Proof.
  destruct z; simpl; try apply printable_dec_N.
  apply printable_cons; [lia | apply printable_dec_N].
Qed.

Lemma hexdigit_range n : n < 16 -> 48 <= hexdigit n <= 102.
Proof.
  intros H. unfold hexdigit. destruct (N.ltb_spec n 10); lia.
Qed.

Lemma printable_hex_fixed w n : printable (hex_fixed w n).
Proof.
  revert n. induction w as [| w IH]; intros n; simpl.
  - constructor.
  - apply printable_app; [apply IH |].
    apply printable_cons; [| constructor].
    assert (n mod 16 < 16) by (apply N.mod_lt; lia).
    pose proof (hexdigit_range (n mod 16) H). lia.
Qed.

Lemma printable_skipn n s : printable s -> printable (List.skipn n s).
Proof.
  revert s. induction n as [| n IH]; intros s Hs; simpl; [exact Hs |].
  destruct s; [constructor |]. inversion Hs; subst. apply IH. assumption.
Qed.

Lemma printable_tl s : printable s -> printable (List.tl s).
Proof. intros Hs. destruct s; [constructor | inversion Hs; assumption]. Qed.

Lemma printable_zeros n : printable (PyFloat.zeros n).
Proof.
  unfold PyFloat.zeros. induction (Z.to_nat n); simpl;
    [constructor | apply printable_cons; [lia | assumption]].
Qed.

Lemma printable_exp_chars ex : printable (PyFloat.exp_chars ex).
Proof.
  destruct ex as [neg n]. unfold PyFloat.exp_chars.
  apply printable_app.
  - destruct neg; printable_const.
  - apply printable_app; [destruct (n <? 10); printable_const |].
    apply printable_dec_N.
Qed.

Lemma printable_render l :
  printable (PyFloat.l_int l) ->
  (forall f, PyFloat.l_frac l = Some f -> printable f) ->
  printable (PyFloat.render l).
Proof.
  intros Hi Hf. unfold PyFloat.render.
  apply printable_app; [destruct (PyFloat.l_neg l); printable_const |].
  apply printable_app; [exact Hi |].
  apply printable_app.
  - destruct (PyFloat.l_frac l) as [f |]; [| constructor].
    apply printable_cons; [lia | apply Hf; reflexivity].
  - destruct (PyFloat.l_exp l); [apply printable_exp_chars | constructor].
Qed.

Lemma printable_layout_of neg d k :
  printable (PyFloat.render (PyFloat.layout_of neg d k)).
Proof.
  apply printable_render; unfold PyFloat.layout_of;
    repeat match goal with
           | |- context [if ?b then _ else _] => destruct b
           end; simpl;
    try apply printable_dec_N; try printable_const.
  - intros f. pose proof (printable_tl _ (printable_dec_N (Z.to_N d))) as Ht.
    destruct (List.tl (dec_N (Z.to_N d))); [discriminate |].
    intros E; injection E as <-. exact Ht.
  - intros f E; injection E as <-.
    apply printable_app; [apply printable_zeros | apply printable_dec_N].
  - intros f E; injection E as <-. printable_const.
  - intros f E; injection E as <-. apply printable_skipn, printable_dec_N.
Qed.

Lemma printable_float_repr x : printable (PyFloat.repr x).
Proof.
  unfold PyFloat.repr, PyFloat.finite_layout.
  destruct x as [s | s | | s m e].
  - apply printable_layout_of.
  - destruct s; printable_const.
  - printable_const.
  - destruct (PyFloat.shortest m e). apply printable_layout_of.
Qed.

Lemma printable_floatstr x : printable (Json.floatstr x).
Proof.
  destruct x as [s | s | | s m e]; unfold Json.floatstr;
    try apply printable_float_repr; try destruct s; printable_const.
Qed.

Lemma printable_escape_char c : printable (Json.escape_char c).
Proof.
  unfold Json.escape_char.
  destruct ((32 <=? c) && (c <=? 126) && negb (c =? 92) && negb (c =? 34))
    eqn:E.
  - apply andb_true_iff in E as [E _]. apply andb_true_iff in E as [E _].
    apply andb_true_iff in E as [E1 E2].
    apply N.leb_le in E1. apply N.leb_le in E2.
    apply printable_cons; [lia | constructor].
  - repeat match goal with
           | |- printable (if ?b then _ else _) => destruct b
           end;
      match goal with
      | |- printable (_ ++ hex_fixed _ _ ++ _) =>
          apply printable_app; [printable_const |];
          apply printable_app; [apply printable_hex_fixed |];
          apply printable_app; [printable_const | apply printable_hex_fixed]
      | |- printable (_ ++ hex_fixed _ _) =>
          apply printable_app; [printable_const | apply printable_hex_fixed]
      | |- _ => printable_const
      end.
Qed.

Lemma printable_encode_string s : printable (Json.encode_string s).
Proof.
  unfold Json.encode_string. apply printable_cons; [lia |].
  apply printable_app; [| printable_const].
  induction s as [| c s IH]; simpl; [constructor |].
  apply printable_app; [apply printable_escape_char | exact IH].
Qed.

Lemma printable_dumps v : printable (Json.dumps v).
Proof.
  induction v as [| b | z | x | s | items IH | items IH]
    using pyval_nested_ind; cbn [Json.dumps].
  - printable_const.
  - destruct b; printable_const.
  - apply printable_int_repr.
  - apply printable_floatstr.
  - apply printable_encode_string.
  - apply printable_app; [printable_const |].
    apply printable_app; [| printable_const].
    apply printable_join; [printable_const |].
    induction IH; cbn [List.map]; constructor; assumption.
  - apply printable_app; [printable_const |].
    apply printable_app; [| printable_const].
    apply printable_join; [printable_const |].
    induction IH as [| kv rest Hkv Hrest IH']; cbn [List.map]; constructor;
      [| exact IH'].
    apply printable_app; [apply printable_encode_string |].
    apply printable_app; [printable_const | exact Hkv].
Qed.

(** ** The script, path by path *)

Section Paths.

Variable isprintable : N -> bool.
Variable encode_error : pystr -> option pystr.
Variable decode_depth : nat.

(** The encoder of standard output can write ASCII text. *)
Hypothesis ascii_encodable : writes_ascii encode_error.

Lemma print_dumps v out :
  print encode_error (Json.dumps v) out
  = Some (Returns tt, out ++ [Json.dumps v ++ [10]]).
Proof.
  unfold print. rewrite ascii_encodable; [reflexivity |].
  apply Forall_app; split.
  - eapply Forall_impl; [| apply printable_dumps].
    cbv beta. intros c Hc. lia.
  - constructor; [lia | constructor].
Qed.

Lemma isinstance_Exception_all e : isinstance_Exception e = true.
Proof. destruct e; reflexivity. Qed.

(** [run] in terms of what [json.load] and lines 15 to 39 do. *)
Lemma run_paths stdin :
  run isprintable encode_error decode_depth stdin
  = match load_outcome decode_depth stdin with
    | None => None
    | Some (Raises e) => Some (emitted (failure_result e))
    | Some (Returns task) =>
        match process_task isprintable task with
        | Returns r => Some (emitted r)
        | Raises e => Some (emitted (failure_result e))
        end
    end.
Proof.
  unfold run, main, bind, json_load, lift, load_outcome.
  destruct stdin as [text | msg].
  - destruct (Json.load decode_depth text) as [[task | e] |];
      [| | reflexivity].
    + destruct (process_task isprintable task) as [r | e].
      * rewrite print_dumps. reflexivity.
      * rewrite isinstance_Exception_all, print_dumps. reflexivity.
    + rewrite isinstance_Exception_all, print_dumps. reflexivity.
  - cbn [isinstance_Exception]. rewrite print_dumps. reflexivity.
Qed.

Lemma process_task_dict task input_data :
  dict_get task (lit "inputData") (PDict []) = PDict input_data ->
  process_task isprintable (PDict task)
  = Returns (greeting_result isprintable task input_data).
Proof.
  intros H. unfold process_task. cbn [py_get]. rewrite H. reflexivity.
Qed.

Lemma process_task_not_dict task :
  (forall d, task <> PDict d) ->
  process_task isprintable task
  = Raises (no_get task).
Proof.
  intros H. destruct task; try reflexivity. exfalso. eapply H. reflexivity.
Qed.

Lemma process_task_bad_input task v :
  dict_lookup task (lit "inputData") = Some v ->
  (forall d, v <> PDict d) ->
  process_task isprintable (PDict task)
  = Raises (no_get v).
Proof.
  intros Hv Hnd. unfold process_task. cbn [py_get]. unfold dict_get.
  rewrite Hv. destruct v; try reflexivity. exfalso. eapply Hnd. reflexivity.
Qed.

End Paths.

(** ** The decoder consumes its input and never lacks fuel *)

Module JsonFacts.
Import Json.

Lemma skip_ws_length s : (List.length (skip_ws s) <= List.length s)%nat.
Proof.
  induction s as [| c r IH]; cbn [skip_ws]; [lia |].
  destruct (is_ws c); cbn [List.length] in *; lia.
Qed.

Lemma span_digits_length s ds rest :
  span_digits s = (ds, rest) ->
  List.length s = (List.length ds + List.length rest)%nat.
Proof.
  revert ds rest. induction s as [| c r IH]; intros ds rest H;
    cbn [span_digits] in H.
  - injection H as <- <-. reflexivity.
  - destruct (is_digit c).
    + destruct (span_digits r) as [ds' rest'] eqn:E.
      injection H as <- <-. cbn [List.length].
      rewrite (IH _ _ eq_refl). lia.
    + injection H as <- <-. reflexivity.
Qed.

Lemma strip_prefix_length word s r :
  strip_prefix word s = Some r ->
  List.length s = (List.length word + List.length r)%nat.
Proof.
  revert s. induction word as [| w word IH]; intros s H; cbn [strip_prefix] in H.
  - injection H as <-. reflexivity.
  - destruct s as [| c s']; [discriminate |].
    destruct (w =? c); [| discriminate].
    cbn [List.length]. rewrite (IH _ H). lia.
Qed.

Lemma cons_char_ok c r s rest :
  cons_char c r = Ok s rest -> exists s', r = Ok s' rest.
Proof.
  destruct r; cbn [cons_char]; intros H; try discriminate.
  injection H as <- <-. eauto.
Qed.

Lemma scanstring_shorter_aux n :
  forall start s str rest,
    (List.length s <= n)%nat ->
    scanstring start s = Ok str rest ->
    (List.length rest < List.length s)%nat.
Proof.
  induction n as [| n IH]; intros start s str rest Hn H.
  - destruct s; [discriminate | cbn [List.length] in Hn; lia].
  - destruct s as [| c r]; [discriminate |].
    cbn [scanstring] in H. cbn [List.length] in *.
    repeat match type of H with
           | cons_char _ (scanstring _ ?s') = Ok _ _ =>
               apply cons_char_ok in H; destruct H as [? H];
               apply IH in H; cbn [List.length] in *; lia
           | Ok _ _ = Ok _ _ => injection H as <- <-; lia
           | Err _ _ = Ok _ _ => discriminate H
           | context [match ?x with _ => _ end] =>
               destruct x; cbn [List.length] in *
           end.
Qed.

Lemma scanstring_shorter start s str rest :
  scanstring start s = Ok str rest ->
  (List.length rest < List.length s)%nat.
Proof. apply (scanstring_shorter_aux (List.length s)). lia. Qed.

Lemma match_int_part_shorter s ip rest :
  match_int_part s = Some (ip, rest) ->
  (List.length rest < List.length s)%nat.
Proof.
  unfold match_int_part. destruct s as [| c r]; [discriminate |].
  destruct ((49 <=? c) && (c <=? 57)).
  - destruct (span_digits r) as [ds rest'] eqn:E. intros H.
    injection H as <- <-. apply span_digits_length in E.
    cbn [List.length]. lia.
  - destruct (c =? 48); [| discriminate]. intros H.
    injection H as <- <-. cbn [List.length]. lia.
Qed.

Lemma match_frac_shorter s fp rest :
  match_frac s = Some (fp, rest) ->
  (List.length rest <= List.length s)%nat.
Proof.
  unfold match_frac. destruct s as [| c [| d r]]; try discriminate.
  destruct ((c =? 46) && is_digit d); [| discriminate].
  intros H.
  assert (E : span_digits (d :: r) = (fp, rest)) by congruence.
  apply span_digits_length in E. cbn [List.length] in *. lia.
Qed.

Lemma match_exp_shorter s e rest :
  match_exp s = Some (e, rest) ->
  (List.length rest <= List.length s)%nat.
Proof.
  unfold match_exp. destruct s as [| c r]; [discriminate |].
  destruct ((c =? 101) || (c =? 69)); [| discriminate].
  destruct r as [| sg r'].
  - cbn [span_digits]. discriminate.
  - destruct (sg =? 45); [| destruct (sg =? 43)];
      match goal with
      | |- context [span_digits ?x] =>
          destruct (span_digits x) as [[| d ds] rest'] eqn:E
      end; try discriminate;
      intros H; injection H as _ <-; apply span_digits_length in E;
      cbn [List.length] in *; lia.
Qed.

Lemma match_number_shorter s v rest :
  match_number s = Some (v, rest) ->
  (List.length rest < List.length s)%nat.
Proof.
  unfold match_number.
  set (sg := match s with
             | c :: r => if c =? 45 then (true, r) else (false, s)
             | [] => (false, s)
             end).
  assert (Hsg : (List.length (snd sg) <= List.length s)%nat).
  { subst sg. destruct s as [| c r]; [cbn; lia |].
    destruct (c =? 45); cbn [snd List.length]; lia. }
  destruct sg as [neg s1]. cbn [snd] in Hsg.
  destruct (match_int_part s1) as [[ip s2] |] eqn:Ei; [| discriminate].
  apply match_int_part_shorter in Ei.
  destruct (match_frac s2) as [[fp r] |] eqn:Ef.
  - apply match_frac_shorter in Ef.
    destruct (match_exp r) as [[e r'] |] eqn:Ee.
    + apply match_exp_shorter in Ee. intros H. injection H as _ <-. lia.
    + intros H. injection H as _ <-. lia.
  - destruct (match_exp s2) as [[e r'] |] eqn:Ee.
    + apply match_exp_shorter in Ee. intros H. injection H as _ <-. lia.
    + intros H. injection H as _ <-. lia.
Qed.

Lemma match_constant_shorter allow s v rest :
  match_constant allow s = Some (v, rest) ->
  (List.length rest < List.length s)%nat.
Proof.
  unfold match_constant. intros H.
  repeat match type of H with
         | context [match strip_prefix ?w s with _ => _ end] =>
             let E := fresh "E" in
             destruct (strip_prefix w s) eqn:E;
             [apply strip_prefix_length in E; injection H as _ <-;
              rewrite E; cbn; lia |]
         | context [if allow then _ else _] => destruct allow
         | None = Some _ => discriminate H
         end.
Qed.

(** The equations of the decoder for a unit of fuel. *)
Lemma scan_once_S allow digits fuel depth s :
  scan_once allow digits (S fuel) depth s
  = match s with
  | [] => Err (lit "Expecting value") 0
  | c :: r =>
      if c =? 34 then
        match scanstring (List.length s) r with
        | Ok str rest => Ok (PStr str) rest
        | Err msg n => Err msg n
        | NoFuel => NoFuel
        | Fail e => Fail e
        end
      else if c =? 123 then
        match enter depth with
        | None => Fail (too_deep "object")
        | Some inner =>
            match skip_ws r with
            | c' :: r' =>
                if c' =? 125 then Ok (PDict []) r'
                else
                  match parse_pairs allow digits fuel inner (c' :: r') [] with
                  | Ok d rest => Ok (PDict d) rest
                  | Err msg n => Err msg n
                  | NoFuel => NoFuel
                  | Fail e => Fail e
                  end
            | [] =>
                Err (lit "Expecting property name enclosed in double quotes") 0
            end
        end
      else if c =? 91 then
        match enter depth with
        | None => Fail (too_deep "array")
        | Some inner =>
            match skip_ws r with
            | c' :: r' =>
                if c' =? 93 then Ok (PList []) r'
                else
                  match parse_items allow digits fuel inner (c' :: r') [] with
                  | Ok l rest => Ok (PList l) rest
                  | Err msg n => Err msg n
                  | NoFuel => NoFuel
                  | Fail e => Fail e
                  end
            | [] => Err (lit "Expecting value") 0
            end
        end
      else
        match match_constant allow s with
        | Some (v, rest) => Ok v rest
        | None =>
            match match_number s with
            | Some (v, rest) =>
                match int_conversion_error digits v with
                | Some e => Fail e
                | None => Ok v rest
                end
            | None => Err (lit "Expecting value") (List.length s)
            end
        end
  end.
Proof. reflexivity. Qed.

Lemma parse_pairs_S allow digits fuel depth s acc :
  parse_pairs allow digits (S fuel) depth s acc
  = match s with
  | c :: r =>
      if c =? 34 then
        match scanstring (List.length s) r with
        | Ok key s1 =>
            match skip_ws s1 with
            | c1 :: r1 =>
                if c1 =? 58 then
                  match scan_once allow digits fuel depth (skip_ws r1) with
                  | Ok v s2 =>
                      let acc' := dict_store acc key v in
                      match skip_ws s2 with
                      | c2 :: r2 =>
                          if c2 =? 125 then Ok acc' r2
                          else if c2 =? 44 then
                            parse_pairs allow digits fuel depth
                              (skip_ws r2) acc'
                          else Err (lit "Expecting ',' delimiter")
                                   (List.length (c2 :: r2))
                      | [] => Err (lit "Expecting ',' delimiter") 0
                      end
                  | Err msg n => Err msg n
                  | NoFuel => NoFuel
                  | Fail e => Fail e
                  end
                else Err (lit "Expecting ':' delimiter")
                         (List.length (c1 :: r1))
            | [] => Err (lit "Expecting ':' delimiter") 0
            end
        | Err msg n => Err msg n
        | NoFuel => NoFuel
        | Fail e => Fail e
        end
      else Err (lit "Expecting property name enclosed in double quotes")
               (List.length s)
  | [] => Err (lit "Expecting property name enclosed in double quotes") 0
  end.
Proof. reflexivity. Qed.

Lemma parse_items_S allow digits fuel depth s acc :
  parse_items allow digits (S fuel) depth s acc
  = match scan_once allow digits fuel depth s with
  | Ok v s1 =>
      let acc' := acc ++ [v] in
      match skip_ws s1 with
      | c1 :: r1 =>
          if c1 =? 93 then Ok acc' r1
          else if c1 =? 44 then
            parse_items allow digits fuel depth (skip_ws r1) acc'
          else Err (lit "Expecting ',' delimiter") (List.length (c1 :: r1))
      | [] => Err (lit "Expecting ',' delimiter") 0
      end
  | Err msg n => Err msg n
  | NoFuel => NoFuel
  | Fail e => Fail e
  end.
Proof. reflexivity. Qed.

Ltac scan_cases IHv IHp IHi H :=
  repeat match type of H with
         | Ok _ _ = Ok _ _ => injection H as <- <-
         | Err _ _ = Ok _ _ => discriminate H
         | NoFuel = Ok _ _ => discriminate H
         | Fail _ = Ok _ _ => discriminate H
         | context [match scanstring ?a ?b with _ => _ end] =>
             let E := fresh "E" in
             destruct (scanstring a b) eqn:E;
             [apply scanstring_shorter in E | | |]
         | context [match skip_ws ?x with _ => _ end] =>
             pose proof (skip_ws_length x);
             let E := fresh "E" in destruct (skip_ws x) eqn:E
         | context [match enter ?d with _ => _ end] => destruct (enter d)
         | context [match int_conversion_error ?dl ?v with _ => _ end] =>
             destruct (int_conversion_error dl v)
         | context [match scan_once ?al ?dl ?f ?d ?x with _ => _ end] =>
             let E := fresh "E" in
             destruct (scan_once al dl f d x) eqn:E; [apply IHv in E | | |]
         | context [match parse_pairs ?al ?dl ?f ?d ?x ?a with _ => _ end] =>
             let E := fresh "E" in
             destruct (parse_pairs al dl f d x a) eqn:E;
             [apply IHp in E | | |]
         | context [match parse_items ?al ?dl ?f ?d ?x ?a with _ => _ end] =>
             let E := fresh "E" in
             destruct (parse_items al dl f d x a) eqn:E;
             [apply IHi in E | | |]
         | context [match match_constant ?al ?x with _ => _ end] =>
             let E := fresh "E" in
             destruct (match_constant al x) as [[? ?] |] eqn:E;
             [apply match_constant_shorter in E |]
         | context [match match_number ?x with _ => _ end] =>
             let E := fresh "E" in
             destruct (match_number x) as [[? ?] |] eqn:E;
             [apply match_number_shorter in E |]
         | context [if ?b then _ else _] => destruct b
         | parse_pairs _ _ _ _ _ _ = Ok _ _ => apply IHp in H
         | parse_items _ _ _ _ _ _ = Ok _ _ => apply IHi in H
         end.

Ltac ws_facts :=
  repeat match goal with
         | H : context [List.length (skip_ws ?x)] |- _ =>
             lazymatch goal with
             | _ : (List.length (skip_ws x) <= List.length x)%nat |- _ => fail
             | _ => pose proof (skip_ws_length x)
             end
         | |- context [List.length (skip_ws ?x)] =>
             lazymatch goal with
             | _ : (List.length (skip_ws x) <= List.length x)%nat |- _ => fail
             | _ => pose proof (skip_ws_length x)
             end
         end.

Section Limits.

(** The dialect: the three names, and the limit on the digits of an
    integer. *)
Variable allow : bool.
Variable digits : limit.

Lemma scan_shorter fuel :
  (forall depth s v rest,
      scan_once allow digits fuel depth s = Ok v rest ->
      (List.length rest < List.length s)%nat)
  /\ (forall depth s acc d rest,
      parse_pairs allow digits fuel depth s acc = Ok d rest ->
      (List.length rest < List.length s)%nat)
  /\ (forall depth s acc l rest,
      parse_items allow digits fuel depth s acc = Ok l rest ->
      (List.length rest < List.length s)%nat).
Proof.
  induction fuel as [| fuel IH].
  - repeat split; intros; discriminate.
  - destruct IH as (IHv & IHp & IHi).
    repeat split.
    + intros depth s v rest H. rewrite scan_once_S in H.
      destruct s as [| c r]; [discriminate |]. cbv beta iota zeta in H.
      scan_cases IHv IHp IHi H; ws_facts; cbn [List.length] in *; lia.
    + intros depth s acc d rest H. rewrite parse_pairs_S in H.
      destruct s as [| c r]; [discriminate |]. cbv beta iota zeta in H.
      scan_cases IHv IHp IHi H; ws_facts; cbn [List.length] in *; lia.
    + intros depth s acc l rest H. rewrite parse_items_S in H.
      cbv beta iota zeta in H.
      scan_cases IHv IHp IHi H; ws_facts; cbn [List.length] in *; lia.
Qed.

Lemma scan_once_shorter fuel depth s v rest :
  scan_once allow digits fuel depth s = Ok v rest ->
  (List.length rest < List.length s)%nat.
Proof. apply scan_shorter. Qed.

Lemma parse_pairs_shorter fuel depth s acc d rest :
  parse_pairs allow digits fuel depth s acc = Ok d rest ->
  (List.length rest < List.length s)%nat.
Proof. apply scan_shorter. Qed.

Lemma parse_items_shorter fuel depth s acc l rest :
  parse_items allow digits fuel depth s acc = Ok l rest ->
  (List.length rest < List.length s)%nat.
Proof. apply scan_shorter. Qed.

End Limits.

Lemma cons_char_fuel c r : cons_char c r = NoFuel -> r = NoFuel.
Proof. destruct r; cbn [cons_char]; intros H; congruence. Qed.

Lemma scanstring_fuel_aux n :
  forall start s, (List.length s <= n)%nat -> scanstring start s <> NoFuel.
Proof.
  induction n as [| n IH]; intros start s Hn H.
  - destruct s; [discriminate | cbn [List.length] in Hn; lia].
  - destruct s as [| c r]; [discriminate |].
    cbn [scanstring] in H. cbn [List.length] in *.
    repeat match type of H with
           | cons_char _ (scanstring _ ?s') = NoFuel =>
               apply cons_char_fuel in H; apply IH in H;
               [exact H | cbn [List.length] in *; lia]
           | Ok _ _ = NoFuel => discriminate H
           | Err _ _ = NoFuel => discriminate H
           | context [match ?x with _ => _ end] =>
               destruct x; cbn [List.length] in *
           end.
Qed.

Lemma scanstring_fuel start s : scanstring start s <> NoFuel.
Proof. apply (scanstring_fuel_aux (List.length s)). lia. Qed.

Ltac enough_fuel :=
  ws_facts; cbn [List.length] in *; lia.

Ltac fuel_cases IHv IHp IHi H :=
  repeat match type of H with
         | Ok _ _ = NoFuel => discriminate H
         | Err _ _ = NoFuel => discriminate H
         | Fail _ = NoFuel => discriminate H
         | context [match scanstring ?a ?b with _ => _ end] =>
             let E := fresh "E" in
             destruct (scanstring a b) eqn:E;
             [apply scanstring_shorter in E
             |
             | exfalso; exact (scanstring_fuel _ _ E)
             | ]
         | context [match skip_ws ?x with _ => _ end] =>
             pose proof (skip_ws_length x);
             let E := fresh "E" in destruct (skip_ws x) eqn:E
         | context [match enter ?d with _ => _ end] => destruct (enter d)
         | context [match int_conversion_error ?dl ?v with _ => _ end] =>
             destruct (int_conversion_error dl v)
         | context [match scan_once ?al ?dl ?f ?d ?x with _ => _ end] =>
             let E := fresh "E" in
             destruct (scan_once al dl f d x) eqn:E;
             [apply scan_once_shorter in E
             |
             | exfalso; apply (IHv d x); [enough_fuel | exact E]
             | ]
         | context [match parse_pairs ?al ?dl ?f ?d ?x ?a with _ => _ end] =>
             let E := fresh "E" in
             destruct (parse_pairs al dl f d x a) eqn:E;
             [apply parse_pairs_shorter in E
             |
             | exfalso; apply (IHp d x a); [enough_fuel | exact E]
             | ]
         | context [match parse_items ?al ?dl ?f ?d ?x ?a with _ => _ end] =>
             let E := fresh "E" in
             destruct (parse_items al dl f d x a) eqn:E;
             [apply parse_items_shorter in E
             |
             | exfalso; apply (IHi d x a); [enough_fuel | exact E]
             | ]
         | context [match match_constant ?al ?x with _ => _ end] =>
             destruct (match_constant al x) as [[? ?] |]
         | context [match match_number ?x with _ => _ end] =>
             destruct (match_number x) as [[? ?] |]
         | context [if ?b then _ else _] => destruct b
         | parse_pairs _ _ _ ?d ?x ?a = NoFuel =>
             exfalso; apply (IHp d x a); [enough_fuel | exact H]
         | parse_items _ _ _ ?d ?x ?a = NoFuel =>
             exfalso; apply (IHi d x a); [enough_fuel | exact H]
         end.

(** With two units of fuel per character and one more, the decoder
    reaches a result, whatever the limits. *)
Lemma scan_fuel allow digits fuel :
  (forall depth s, (2 * List.length s + 1 <= fuel)%nat ->
             scan_once allow digits fuel depth s <> NoFuel)
  /\ (forall depth s acc, (2 * List.length s + 2 <= fuel)%nat ->
                    parse_pairs allow digits fuel depth s acc <> NoFuel)
  /\ (forall depth s acc, (2 * List.length s + 2 <= fuel)%nat ->
                    parse_items allow digits fuel depth s acc <> NoFuel).
Proof.
  induction fuel as [| fuel IH].
  - repeat split; intros; lia.
  - destruct IH as (IHv & IHp & IHi).
    repeat split.
    + intros depth s Hf H. rewrite scan_once_S in H.
      destruct s as [| c r]; [discriminate |]. cbv beta iota zeta in H.
      fuel_cases IHv IHp IHi H.
    + intros depth s acc Hf H. rewrite parse_pairs_S in H.
      destruct s as [| c r]; [discriminate |]. cbv beta iota zeta in H.
      fuel_cases IHv IHp IHi H.
    + intros depth s acc Hf H. rewrite parse_items_S in H.
      cbv beta iota zeta in H.
      fuel_cases IHv IHp IHi H.
Qed.

Lemma loads_with_total allow digits depth doc :
  loads_with allow digits (loads_fuel doc) depth doc <> None.
Proof.
  unfold loads_with, decode_with. intros H.
  destruct (starts_with_bom doc); [discriminate |].
  destruct (scan_once allow digits (loads_fuel doc) depth (skip_ws doc)) eqn:E.
  - destruct (skip_ws rest); discriminate H.
  - discriminate H.
  - apply (proj1 (scan_fuel allow digits (loads_fuel doc))) in E; [exact E |].
    unfold loads_fuel. enough_fuel.
  - discriminate H.
Qed.

Lemma loads_total allow doc : loads allow doc <> None.
Proof. apply loads_with_total. Qed.

(** [json.load] returns or raises. *)
Lemma load_total depth doc : load depth doc <> None.
Proof. apply loads_with_total. Qed.

End JsonFacts.

(** ** The instances of the environment *)

Lemma utf8_writes_ascii : writes_ascii utf8_encode_error.
Proof.
  intros s Hs. unfold utf8_encode_error.
  replace (List.forallb _ s) with true; [reflexivity |].
  symmetry. apply forallb_forall. intros c Hc.
  rewrite Forall_forall in Hs. specialize (Hs c Hc).
  apply andb_true_iff. split.
  - apply negb_true_iff. apply andb_false_iff. left.
    apply N.leb_gt. lia.
  - apply N.leb_le. lia.
Qed.

Lemma ascii_writes_ascii : writes_ascii ascii_encode_error.
Proof.
  intros s Hs. unfold ascii_encode_error.
  replace (List.forallb _ s) with true; [reflexivity |].
  symmetry. apply forallb_forall. intros c Hc.
  rewrite Forall_forall in Hs. specialize (Hs c Hc).
  apply N.ltb_lt. exact Hs.
Qed.

(** ** The contract of the worker *)

Section Contract.

Variable isprintable : N -> bool.
Variable encode_error : pystr -> option pystr.
Variable decode_depth : nat.
Hypothesis ascii_encodable : writes_ascii encode_error.

Local Abbreviation run' := (run isprintable encode_error decode_depth).
Local Abbreviation load_outcome' := (load_outcome decode_depth).
Local Abbreviation greeting := (greeting_result isprintable).

Lemma run_greeting text task input_data :
  Json.load decode_depth text = Some (Returns (PDict task)) ->
  dict_get task (lit "inputData") (PDict []) = PDict input_data ->
  run' (Decoded text) = Some (emitted (greeting task input_data)).
Proof.
  intros Hload Hin. rewrite (run_paths _ _ _ ascii_encodable).
  cbn [load_outcome]. rewrite Hload.
  rewrite (process_task_dict _ _ _ Hin). reflexivity.
Qed.

Lemma run_failure stdin e :
  load_outcome' stdin = Some (Raises e)
  \/ (exists task, load_outcome' stdin = Some (Returns task)
                   /\ process_task isprintable task = Raises e) ->
  run' stdin = Some (emitted (failure_result e)).
Proof.
  intros [H | (task & H & Hp)]; rewrite (run_paths _ _ _ ascii_encodable), H.
  - reflexivity.
  - rewrite Hp. reflexivity.
Qed.





Lemma load_outcome_total stdin : load_outcome' stdin <> None.
Proof.
  destruct stdin as [text | msg]; cbn [load_outcome].
  - apply JsonFacts.load_total.
  - discriminate.
Qed.

Lemma dict_or_not (v : pyval) : (exists d, v = PDict d) \/ (forall d, v <> PDict d).
Proof. destruct v; try (right; intros d H; discriminate H). left. eauto. Qed.

(** Every run takes one of two paths: the greeting for a task that is an
    object whose [inputData] is absent or an object, and else the
    failure result of the exception that [json.load] or [.get] raised. *)
Lemma run_cases stdin :
  (exists task input_data,
      load_outcome' stdin = Some (Returns (PDict task))
      /\ dict_get task (lit "inputData") (PDict []) = PDict input_data
      /\ run' stdin = Some (emitted (greeting task input_data)))
  \/ (exists e,
        run' stdin = Some (emitted (failure_result e))
        /\ (load_outcome' stdin = Some (Raises e)
            \/ (exists v,
                   load_outcome' stdin = Some (Returns v)
                   /\ (forall d, v <> PDict d) /\ e = no_get v)
            \/ (exists task v,
                   load_outcome' stdin = Some (Returns (PDict task))
                   /\ dict_lookup task (lit "inputData") = Some v
                   /\ (forall d, v <> PDict d) /\ e = no_get v))).
Proof.
  pose proof (load_outcome_total stdin) as Htot.
  rewrite (run_paths _ _ _ ascii_encodable).
  destruct (load_outcome' stdin) as [[task | e] |] eqn:Hload;
    [| | congruence].
  - destruct (dict_or_not task) as [[d ->] | Hnd].
    + destruct (dict_lookup d (lit "inputData")) as [v |] eqn:Hv.
      * destruct (dict_or_not v) as [[inp ->] | Hvnd].
        -- left. exists d, inp.
           assert (Hin : dict_get d (lit "inputData") (PDict []) = PDict inp)
             by (unfold dict_get; rewrite Hv; reflexivity).
           rewrite (process_task_dict _ _ _ Hin). auto.
        -- right. exists (no_get v).
           rewrite (process_task_bad_input _ _ _ Hv Hvnd).
           split; [reflexivity |]. right. right. exists d, v. auto.
      * left. exists d, [].
        assert (Hin : dict_get d (lit "inputData") (PDict []) = PDict [])
          by (unfold dict_get; rewrite Hv; reflexivity).
        rewrite (process_task_dict _ _ _ Hin). auto.
    + right. exists (no_get task).
      rewrite (process_task_not_dict _ _ Hnd).
      split; [reflexivity |]. right. left. exists task. auto.
  - right. exists e. auto.
Qed.

Lemma status_differs :
  Some (PStr (lit "COMPLETED")) <> Some (PStr (lit "FAILED")).
Proof. intros H. vm_compute in H. discriminate H. Qed.


(** C8. For every standard input the worker terminates with one write, a
    single line that holds a result with status ["COMPLETED"] or
    ["FAILED"], and with exit status 0 on either path. *)
Theorem one_result_line_and_normal_exit stdin :
  exists r,
    run' stdin
    = Some {| stdout := [Json.dumps r ++ [10]]; exit_status := 0 |}
    /\ ~ In 10 (Json.dumps r)
    /\ (field "status" r = Some (PStr (lit "COMPLETED"))
        \/ field "status" r = Some (PStr (lit "FAILED"))).
Proof.
  assert (Hline : forall r, ~ In 10 (Json.dumps r)).
  { intros r Hin. pose proof (printable_dumps r) as Hp.
    unfold printable in Hp. rewrite Forall_forall in Hp.
    specialize (Hp 10 Hin). lia. }
  destruct (run_cases stdin) as [(task & inp & _ & _ & Hrun) | (e & Hrun & _)];
    eexists; (split; [exact Hrun |]); (split; [apply Hline |]).
  - left. reflexivity.
  - right. reflexivity.
Qed.



End Contract.

(** C7. The worker is deterministic: two runs on the same standard input
    write the same standard output, byte for byte, and end alike, with
    whatever encoders that know ASCII the two runs write. *)
Theorem same_input_same_output isprintable encode1 encode2 decode_depth
    stdin1 stdin2 :
  writes_ascii encode1 ->
  writes_ascii encode2 ->
  stdin1 = stdin2 ->
  run isprintable encode1 decode_depth stdin1
  = run isprintable encode2 decode_depth stdin2.
Proof.
  intros H1 H2 <-.
  rewrite (run_paths _ _ _ H1), (run_paths _ _ _ H2). reflexivity.
Qed.

(** ** The scenarios of the specification *)






Lemma same_input_same_output_witness :
  writes_ascii utf8_encode_error
  /\ writes_ascii ascii_encode_error
  /\ run latin1_isprintable utf8_encode_error default_depth (Decoded bob_text)
     = run latin1_isprintable ascii_encode_error default_depth
         (Decoded bob_text).
Proof.
  split; [exact utf8_writes_ascii |]. split; [exact ascii_writes_ascii |].
  exact (same_input_same_output latin1_isprintable utf8_encode_error
           ascii_encode_error default_depth (Decoded bob_text)
           (Decoded bob_text)
           utf8_writes_ascii ascii_writes_ascii eq_refl).
Defined.

Lemma one_result_line_and_normal_exit_witness :
  writes_ascii utf8_encode_error
  /\ exists r,
      run latin1_isprintable utf8_encode_error default_depth
        (Undecodable (lit "'utf-8' codec can't decode byte 0xff"))
      = Some {| stdout := [Json.dumps r ++ [10]]; exit_status := 0 |}
      /\ ~ In 10 (Json.dumps r).
Proof.
  split; [exact utf8_writes_ascii |].
  destruct (one_result_line_and_normal_exit latin1_isprintable
              utf8_encode_error default_depth utf8_writes_ascii
              (Undecodable (lit "'utf-8' codec can't decode byte 0xff")))
    as (r & Hrun & Hline & _).
  exists r. split; [exact Hrun | exact Hline].
Defined.



Lemma wrote_line_emitted r line :
  wrote_line (Some (emitted r)) line -> line = Json.dumps r.
Proof.
  unfold wrote_line, emitted. intros H.
  assert (H1 : Json.dumps r ++ [10] = line ++ [10]) by congruence.
  apply app_inj_tail in H1. symmetry. exact (proj1 H1).
Qed.

(** C6, as stated, does not hold.  The object [{"taskId": 1e999}] is
    valid JSON; [json.load] reads the number as the float [inf], the run
    completes, and [json.dumps] writes the float back as [Infinity],
    which is no JSON: the one line written is no valid JSON object. *)
Lemma infinity_is_written_back :
  valid_json_object overflow_text
  /\ Json.load default_depth overflow_text
     = Some (Returns (PDict overflow_task))
  /\ ~ (exists line,
          wrote_line
            (run latin1_isprintable utf8_encode_error default_depth
               (Decoded overflow_text))
            line
          /\ valid_json_object line).
Proof.
  split; [exists overflow_task; vm_compute; reflexivity |].
  split; [vm_compute; reflexivity |].
  intros (line & Hrun & d & Hvalid).
  unfold wrote_line in Hrun.
  rewrite (run_greeting latin1_isprintable utf8_encode_error default_depth
             utf8_writes_ascii overflow_text overflow_task []) in Hrun;
    [| vm_compute; reflexivity | reflexivity].
  apply wrote_line_emitted in Hrun.
  subst line. vm_compute in Hvalid. discriminate Hvalid.
Qed.

(** ** [json.dumps] against the decoder

    What [json.dumps] writes for finite values is valid JSON and what it
    writes for the others is not; values without floats are read back
    unchanged; white space around a document does not matter; the
    objects the decoder builds have distinct keys. *)

Module JsonValid.
Import Json JsonFacts.

(** The decoder without limits: the grammar alone. *)
Local Abbreviation read_value allow fuel s :=
  (scan_once allow Unlimited fuel Unlimited s).
Local Abbreviation read_pairs allow fuel s acc :=
  (parse_pairs allow Unlimited fuel Unlimited s acc).
Local Abbreviation read_items allow fuel s acc :=
  (parse_items allow Unlimited fuel Unlimited s acc).

(** Without limits no container is refused and no integer is too long. *)
Tactic Notation "limits" := cbn [enter int_conversion_error].
Tactic Notation "limits" "in" hyp(H) :=
  cbn [enter int_conversion_error] in H.
Tactic Notation "limits" "in" hyp(H) "|-" "*" :=
  cbn [enter int_conversion_error] in H |- *.

(** *** More fuel does not change the result of the decoder *)

Ltac refuel IHv IHp IHi H :=
  repeat match type of H with
         | context [match scanstring ?a ?b with _ => _ end] =>
             destruct (scanstring a b)
         | context [match skip_ws ?x with _ => _ end] =>
             destruct (skip_ws x)
         | context [match enter ?d with _ => _ end] => destruct (enter d)
         | context [match int_conversion_error ?dl ?v with _ => _ end] =>
             destruct (int_conversion_error dl v)
         | context [match match_constant ?al ?x with _ => _ end] =>
             destruct (match_constant al x) as [[? ?] |]
         | context [match match_number ?x with _ => _ end] =>
             destruct (match_number x) as [[? ?] |]
         | context [if ?b then _ else _] => destruct b
         | context [scan_once ?al ?dl ?f ?d ?x] =>
             let E := fresh "E" in
             destruct (scan_once al dl f d x) eqn:E;
             [ rewrite (IHv d x) by (rewrite E; discriminate); rewrite E
             | rewrite (IHv d x) by (rewrite E; discriminate); rewrite E
             | exfalso; apply H; reflexivity
             | rewrite (IHv d x) by (rewrite E; discriminate); rewrite E ]
         | context [parse_pairs ?al ?dl ?f ?d ?x ?a] =>
             let E := fresh "E" in
             destruct (parse_pairs al dl f d x a) eqn:E;
             [ rewrite (IHp d x a) by (rewrite E; discriminate); rewrite E
             | rewrite (IHp d x a) by (rewrite E; discriminate); rewrite E
             | exfalso; apply H; reflexivity
             | rewrite (IHp d x a) by (rewrite E; discriminate); rewrite E ]
         | context [parse_items ?al ?dl ?f ?d ?x ?a] =>
             let E := fresh "E" in
             destruct (parse_items al dl f d x a) eqn:E;
             [ rewrite (IHi d x a) by (rewrite E; discriminate); rewrite E
             | rewrite (IHi d x a) by (rewrite E; discriminate); rewrite E
             | exfalso; apply H; reflexivity
             | rewrite (IHi d x a) by (rewrite E; discriminate); rewrite E ]
         end.

Section Fuel.

Variable allow : bool.
Variable digits : limit.

Lemma one_more_fuel fuel :
  (forall depth s,
      scan_once allow digits fuel depth s <> NoFuel ->
      scan_once allow digits (S fuel) depth s
      = scan_once allow digits fuel depth s)
  /\ (forall depth s acc,
        parse_pairs allow digits fuel depth s acc <> NoFuel ->
        parse_pairs allow digits (S fuel) depth s acc
        = parse_pairs allow digits fuel depth s acc)
  /\ (forall depth s acc,
        parse_items allow digits fuel depth s acc <> NoFuel ->
        parse_items allow digits (S fuel) depth s acc
        = parse_items allow digits fuel depth s acc).
Proof.
  induction fuel as [| fuel IH].
  - repeat split; intros; exfalso; auto.
  - destruct IH as (IHv & IHp & IHi).
    split; [| split].
    + intros depth s H.
      rewrite (scan_once_S allow digits (S fuel)).
      rewrite scan_once_S in H |- *.
      destruct s as [| c r]; [reflexivity |].
      cbv beta iota zeta in H |- *.
      refuel IHv IHp IHi H; reflexivity.
    + intros depth s acc H.
      rewrite (parse_pairs_S allow digits (S fuel)).
      rewrite parse_pairs_S in H |- *.
      destruct s as [| c r]; [reflexivity |].
      cbv beta iota zeta in H |- *.
      refuel IHv IHp IHi H; reflexivity.
    + intros depth s acc H.
      rewrite (parse_items_S allow digits (S fuel)).
      rewrite parse_items_S in H |- *.
      cbv beta iota zeta in H |- *.
      refuel IHv IHp IHi H; reflexivity.
Qed.

Lemma fuel_le f f' :
  (f <= f')%nat ->
  (forall depth s,
      scan_once allow digits f depth s <> NoFuel ->
      scan_once allow digits f' depth s = scan_once allow digits f depth s)
  /\ (forall depth s acc,
        parse_pairs allow digits f depth s acc <> NoFuel ->
        parse_pairs allow digits f' depth s acc
        = parse_pairs allow digits f depth s acc)
  /\ (forall depth s acc,
        parse_items allow digits f depth s acc <> NoFuel ->
        parse_items allow digits f' depth s acc
        = parse_items allow digits f depth s acc).
Proof.
  induction 1 as [| m Hle (IHv & IHp & IHi)].
  - split; [| split]; intros; reflexivity.
  - destruct (one_more_fuel m) as (Hv & Hp & Hi).
    split; [| split]; intros.
    + rewrite Hv; [apply IHv; assumption |]. rewrite IHv; assumption.
    + rewrite Hp; [apply IHp; assumption |]. rewrite IHp; assumption.
    + rewrite Hi; [apply IHi; assumption |]. rewrite IHi; assumption.
Qed.

(** A result reached with some fuel is the result with the fuel of
    [loads]. *)
Lemma with_enough_fuel_any f0 f depth s :
  scan_once allow digits f0 depth s <> NoFuel ->
  (2 * List.length s + 1 <= f)%nat ->
  scan_once allow digits f depth s = scan_once allow digits f0 depth s.
Proof.
  intros H0 Hf.
  destruct (Nat.le_ge_cases f0 f) as [Hle | Hge].
  - apply (proj1 (fuel_le f0 f Hle)). exact H0.
  - symmetry. apply (proj1 (fuel_le f f0 Hge)).
    apply (proj1 (scan_fuel allow digits f)). exact Hf.
Qed.

Lemma with_enough_fuel f0 f depth s v rest :
  scan_once allow digits f0 depth s = Ok v rest ->
  (2 * List.length s + 1 <= f)%nat ->
  scan_once allow digits f depth s = Ok v rest.
Proof.
  intros H0 Hf. rewrite <- H0. apply with_enough_fuel_any; [| exact Hf].
  rewrite H0. discriminate.
Qed.

Lemma scan_once_le f f' depth s v rest :
  scan_once allow digits f depth s = Ok v rest -> (f <= f')%nat ->
  scan_once allow digits f' depth s = Ok v rest.
Proof.
  intros H Hle. rewrite <- H.
  apply (proj1 (fuel_le f f' Hle)). rewrite H. discriminate.
Qed.

Lemma parse_pairs_le f f' depth s acc d rest :
  parse_pairs allow digits f depth s acc = Ok d rest -> (f <= f')%nat ->
  parse_pairs allow digits f' depth s acc = Ok d rest.
Proof.
  intros H Hle. rewrite <- H.
  apply (proj1 (proj2 (fuel_le f f' Hle))). rewrite H. discriminate.
Qed.

Lemma parse_items_le f f' depth s acc l rest :
  parse_items allow digits f depth s acc = Ok l rest -> (f <= f')%nat ->
  parse_items allow digits f' depth s acc = Ok l rest.
Proof.
  intros H Hle. rewrite <- H.
  apply (proj2 (proj2 (fuel_le f f' Hle))). rewrite H. discriminate.
Qed.

Lemma parse_pairs_le_err f f' depth s acc msg n :
  parse_pairs allow digits f depth s acc = Err msg n -> (f <= f')%nat ->
  parse_pairs allow digits f' depth s acc = Err msg n.
Proof.
  intros H Hle. rewrite <- H.
  apply (proj1 (proj2 (fuel_le f f' Hle))). rewrite H. discriminate.
Qed.

Lemma parse_items_le_err f f' depth s acc msg n :
  parse_items allow digits f depth s acc = Err msg n -> (f <= f')%nat ->
  parse_items allow digits f' depth s acc = Err msg n.
Proof.
  intros H Hle. rewrite <- H.
  apply (proj2 (proj2 (fuel_le f f' Hle))). rewrite H. discriminate.
Qed.

End Fuel.

(** *** Strings *)

Lemma hexdigit_value n : n < 16 -> hex_value (hexdigit n) = Some n.
Proof.
  intros H. unfold hexdigit, hex_value, is_digit.
  destruct (N.ltb_spec n 10).
  - replace ((48 <=? 48 + n) && (48 + n <=? 57)) with true.
    + f_equal. lia.
    + symmetry. apply andb_true_iff. split; apply N.leb_le; lia.
  - replace ((48 <=? 87 + n) && (87 + n <=? 57)) with false.
    + replace ((97 <=? 87 + n) && (87 + n <=? 102)) with true.
      * f_equal. lia.
      * symmetry. apply andb_true_iff. split; apply N.leb_le; lia.
    + symmetry. apply andb_false_iff. right. apply N.leb_gt. lia.
Qed.

Lemma hex_fixed_4 n :
  exists a b c d u,
    hex_fixed 4 n = [a; b; c; d] /\ hex4 a b c d = Some u.
Proof.
  cbn [hex_fixed List.app].
  do 4 eexists. eexists. split; [reflexivity |].
  unfold hex4.
  rewrite !hexdigit_value by (apply N.mod_lt; lia). reflexivity.
Qed.

Lemma escaped_app a b : escaped a -> escaped b -> escaped (a ++ b).
Proof.
  intros Ha Hb. induction Ha; cbn [List.app]; try assumption;
    econstructor; eassumption.
Qed.

Lemma escaped_escape_char c : escaped (escape_char c).
Proof.
  unfold escape_char.
  destruct ((32 <=? c) && (c <=? 126) && negb (c =? 92) && negb (c =? 34))
    eqn:E.
  - apply andb_true_iff in E as [E E34]. apply andb_true_iff in E as [E E92].
    apply andb_true_iff in E as [E1 E2].
    apply N.leb_le in E1. apply negb_true_iff in E34, E92.
    apply N.eqb_neq in E34, E92.
    apply escaped_plain; [exact E1 | exact E34 | exact E92 | constructor].
  - repeat match goal with
           | |- escaped (if ?b then _ else _) => destruct b
           end;
      try (eapply escaped_short; [reflexivity | constructor]).
    + destruct (hex_fixed_4 (55296 - 64 + N.shiftr c 10))
        as (a1 & b1 & c1 & d1 & u1 & -> & H1).
      destruct (hex_fixed_4 (56320 + N.land c 1023))
        as (a2 & b2 & c2 & d2 & u2 & -> & H2).
      cbn [List.app].
      eapply escaped_unicode; [exact H1 |].
      eapply escaped_unicode; [exact H2 | constructor].
    + destruct (hex_fixed_4 c) as (a1 & b1 & c1 & d1 & u1 & -> & H1).
      cbn [List.app]. eapply escaped_unicode; [exact H1 | constructor].
Qed.

Lemma escaped_flat_map s : escaped (List.flat_map escape_char s).
Proof.
  induction s as [| c s IH]; cbn [List.flat_map]; [constructor |].
  apply escaped_app; [apply escaped_escape_char | exact IH].
Qed.

Lemma scanstring_quote start rest : scanstring start (34 :: rest) = Ok [] rest.
Proof. reflexivity. Qed.

Lemma scanstring_plain start c r :
  32 <= c -> c <> 34 -> c <> 92 ->
  scanstring start (c :: r) = cons_char c (scanstring start r).
Proof.
  intros H32 H34 H92. cbn [scanstring].
  apply N.eqb_neq in H34, H92. rewrite H34, H92.
  replace (c <=? 31) with false; [reflexivity |].
  symmetry. apply N.leb_gt. lia.
Qed.

Lemma unescape_not_u e c : unescape e = Some c -> (e =? 117) = false.
Proof.
  intros H. destruct (N.eqb_spec e 117) as [-> |]; [discriminate H | reflexivity].
Qed.

Lemma scanstring_short start e c r :
  unescape e = Some c ->
  scanstring start (92 :: e :: r) = cons_char c (scanstring start r).
Proof.
  intros H. cbn [scanstring].
  change (92 =? 34) with false. change (92 =? 92) with true. cbv iota.
  rewrite (unescape_not_u _ _ H), H. reflexivity.
Qed.

(** After [\uXXXX] the scanner goes on behind the escape, or behind the
    next one when the two are a surrogate pair. *)
Lemma scanstring_unicode start h1 h2 h3 h4 u r2 :
  hex4 h1 h2 h3 h4 = Some u ->
  r2 <> [] ->
  scanstring start (92 :: 117 :: h1 :: h2 :: h3 :: h4 :: r2)
  = cons_char u (scanstring start r2)
  \/ exists g1 g2 g3 g4 r3,
      r2 = 92 :: 117 :: g1 :: g2 :: g3 :: g4 :: r3
      /\ forall u2,
          hex4 g1 g2 g3 g4 = Some u2 ->
          scanstring start (92 :: 117 :: h1 :: h2 :: h3 :: h4 :: r2)
          = cons_char u (scanstring start r2)
          \/ scanstring start (92 :: 117 :: h1 :: h2 :: h3 :: h4 :: r2)
             = cons_char (join_surrogates u u2) (scanstring start r3).
Proof.
  intros Hu Hr2. cbn [scanstring].
  change (92 =? 34) with false. change (92 =? 92) with true.
  change (117 =? 117) with true. cbv iota.
  destruct r2 as [| b r2']; [congruence |].
  rewrite Hu.
  destruct r2' as [| u' [| g1 [| g2 [| g3 [| g4 [| x r3]]]]]];
    try (left; reflexivity).
  destruct (is_high_surrogate u && (b =? 92) && (u' =? 117)) eqn:E;
    [| left; reflexivity].
  apply andb_true_iff in E as [E E117]. apply andb_true_iff in E as [_ E92].
  apply N.eqb_eq in E117, E92. subst b u'.
  right. exists g1, g2, g3, g4, (x :: r3). split; [reflexivity |].
  intros u2 Hu2. rewrite Hu2.
  destruct (is_low_surrogate u2); [right | left]; reflexivity.
Qed.

Lemma cons_char_accepts c r s rest :
  r = Ok s rest -> cons_char c r = Ok (c :: s) rest.
Proof. intros ->. reflexivity. Qed.

Lemma scanstring_escaped n :
  forall start t rest,
    (List.length t <= n)%nat ->
    escaped t ->
    exists s, scanstring start (t ++ 34 :: rest) = Ok s rest.
Proof.
  induction n as [| n IH]; intros start t rest Hn Ht.
  - destruct t; [| cbn [List.length] in Hn; lia].
    eexists. apply scanstring_quote.
  - inversion Ht as [| c t' H32 H34 H92 Ht' | e c t' He Ht'
                     | h1 h2 h3 h4 u t' Hu Ht']; subst t;
      cbn [List.app List.length] in *.
    + eexists. apply scanstring_quote.
    + destruct (IH start t' rest) as [s Hs]; [lia | exact Ht' |].
      eexists. rewrite scanstring_plain by assumption.
      apply cons_char_accepts. exact Hs.
    + destruct (IH start t' rest) as [s Hs]; [lia | exact Ht' |].
      eexists. rewrite (scanstring_short _ _ _ _ He).
      apply cons_char_accepts. exact Hs.
    + destruct (IH start t' rest) as [s Hs]; [lia | exact Ht' |].
      assert (Hne : t' ++ 34 :: rest <> []) by (destruct t'; discriminate).
      destruct (scanstring_unicode start h1 h2 h3 h4 u _ Hu Hne)
        as [H | (g1 & g2 & g3 & g4 & r3 & Hr2 & H)].
      * eexists. rewrite H. apply cons_char_accepts. exact Hs.
      * inversion Ht' as [| c' t'' H32 H34 H92 Ht'' | e' c' t'' He' Ht''
                          | k1 k2 k3 k4 u2 t'' Hu2 Ht'']; subst t';
          cbn [List.app] in Hr2.
        -- discriminate Hr2.
        -- injection Hr2 as Hc _. congruence.
        -- injection Hr2 as He117 _. subst e'. discriminate He'.
        -- injection Hr2 as -> -> -> -> <-.
           destruct (H u2 Hu2) as [H' | H'].
           ++ eexists. rewrite H'. apply cons_char_accepts. exact Hs.
           ++ destruct (IH start t'' rest) as [s2 Hs2];
                [cbn [List.length] in Hn; lia | exact Ht'' |].
              eexists. rewrite H'. apply cons_char_accepts. exact Hs2.
Qed.

(** The decoder reads back a string that [json.dumps] wrote. *)
Lemma scanstring_encode_string start s rest :
  exists s',
    scanstring start (List.flat_map escape_char s ++ 34 :: rest) = Ok s' rest.
Proof.
  eapply scanstring_escaped; [apply Nat.le_refl | apply escaped_flat_map].
Qed.

(** *** Numbers *)

Lemma all_digits_uint_chars d : all_digits (uint_chars d).
Proof.
  induction d; cbn [uint_chars]; constructor; try assumption; reflexivity.
Qed.

Lemma all_digits_dec_N n : all_digits (dec_N n).
Proof. apply all_digits_uint_chars. Qed.

Lemma all_digits_app a b : all_digits a -> all_digits b -> all_digits (a ++ b).
Proof. intros Ha Hb. apply Forall_app. split; assumption. Qed.

Lemma nzhead_head d :
  match Decimal.nzhead d with
  | D0 _ => False
  | _ => True
  end.
Proof. induction d; cbn [Decimal.nzhead]; try exact I. exact IHd. Qed.

Lemma canonical_unorm d : canonical_int (uint_chars (Decimal.unorm d)).
Proof.
  unfold Decimal.unorm. pose proof (nzhead_head d) as H.
  destruct (Decimal.nzhead d) as [| u | u | u | u | u | u | u | u | u | u];
    cbn [uint_chars];
    try (left; reflexivity);
    try (exfalso; exact H);
    right; eexists; eexists;
    (split; [reflexivity | split; [lia | apply all_digits_uint_chars]]).
Qed.

Lemma canonical_dec_N n : canonical_int (dec_N n).
Proof.
  unfold dec_N.
  rewrite <- (DecimalN.Unsigned.of_to n) at 1.
  rewrite DecimalN.Unsigned.to_of. apply canonical_unorm.
Qed.

Lemma dec_N_nonempty n : dec_N n <> [].
Proof.
  destruct (canonical_dec_N n) as [H | (c & t & H & _)]; rewrite H;
    discriminate.
Qed.

Lemma span_digits_app ds t :
  all_digits ds -> stops t -> span_digits (ds ++ t) = (ds, t).
Proof.
  intros Hds Ht. induction Hds as [| c ds Hc Hds IH]; cbn [List.app].
  - destruct t as [| c t]; [reflexivity |].
    cbn [span_digits]. cbn [stops] in Ht. rewrite Ht. reflexivity.
  - cbn [span_digits]. rewrite Hc, IH. reflexivity.
Qed.

Lemma match_int_part_app ip t :
  canonical_int ip -> stops t -> match_int_part (ip ++ t) = Some (ip, t).
Proof.
  intros [-> | (c & ds & -> & Hc & Hds)] Ht; cbn [List.app match_int_part].
  - reflexivity.
  - replace ((49 <=? c) && (c <=? 57)) with true.
    + rewrite (span_digits_app _ _ Hds Ht). reflexivity.
    + symmetry. apply andb_true_iff. split; apply N.leb_le; lia.
Qed.

Lemma match_frac_some f t :
  f <> [] -> all_digits f -> stops t ->
  match_frac (46 :: f ++ t) = Some (f, t).
Proof.
  intros Hne Hf Ht. destruct f as [| d f']; [congruence |].
  cbn [List.app match_frac].
  inversion Hf as [| ? ? Hd Hf']; subst.
  change (46 =? 46) with true. rewrite Hd. cbn [andb].
  change (d :: f' ++ t) with ((d :: f') ++ t).
  rewrite (span_digits_app _ _ Hf Ht). reflexivity.
Qed.

Lemma match_frac_none t :
  match t with c :: _ => c <> 46 | [] => True end -> match_frac t = None.
Proof.
  destruct t as [| c [| d r]]; try reflexivity.
  intros H. cbn [match_frac]. apply N.eqb_neq in H. rewrite H. reflexivity.
Qed.

Lemma match_exp_none t :
  match t with c :: _ => c <> 101 /\ c <> 69 | [] => True end ->
  match_exp t = None.
Proof.
  destruct t as [| c r]; [reflexivity |].
  intros [H1 H2]. cbn [match_exp].
  apply N.eqb_neq in H1, H2. rewrite H1, H2. reflexivity.
Qed.

Lemma match_exp_some ex t :
  stops t -> exists e, match_exp (PyFloat.exp_chars ex ++ t) = Some (e, t).
Proof.
  intros Ht. destruct ex as [neg n]. unfold PyFloat.exp_chars.
  set (ds := (if n <? 10 then [48] else []) ++ dec_N n).
  assert (Hds : all_digits ds).
  { apply all_digits_app; [| apply all_digits_dec_N].
    destruct (n <? 10); repeat constructor. }
  assert (Hne : ds <> []).
  { subst ds. pose proof (dec_N_nonempty n).
    destruct (n <? 10); [discriminate |]. assumption. }
  clearbody ds.
  destruct ds as [| d ds']; [congruence |].
  pose proof (span_digits_app _ _ Hds Ht) as Hsp.
  destruct neg; cbn [List.app match_exp] in *;
    change ((101 =? 101) || (101 =? 69)) with true;
    [ change (45 =? 45) with true
    | change (43 =? 45) with false; change (43 =? 43) with true ];
    cbv beta iota zeta; rewrite Hsp; eexists; reflexivity.
Qed.

Lemma stops_delimited rest : delimited rest -> stops rest.
Proof.
  destruct rest as [| c r]; [exact (fun H => H) |].
  cbn [delimited stops]. intros [-> | [-> | ->]]; reflexivity.
Qed.

Lemma stops_exp_chars ex t : stops (PyFloat.exp_chars ex ++ t).
Proof. destruct ex as [neg n]. reflexivity. Qed.

Lemma canonical_head ip :
  canonical_int ip -> exists c t, ip = c :: t /\ 48 <= c <= 57.
Proof.
  intros [-> | (c & t & -> & Hc & _)]; eexists; eexists;
    (split; [reflexivity | lia]).
Qed.

(** The value the goal inspects first is the one [H] gives. *)
Ltac scrutinee H :=
  match type of H with
  | _ = ?R =>
      match goal with
      | |- match ?X with _ => _ end = _ =>
          let E := fresh "E" in
          assert (E : X = R) by exact H;
          rewrite E; clear E; cbv beta iota
      end
  end.

(** The text of a number: sign, integer part, fraction, exponent. *)
Lemma match_number_parts (neg : bool) (ip : pystr) (fp : option pystr)
    (ex : option (bool * N)) (rest : pystr) :
  canonical_int ip ->
  (forall f, fp = Some f -> f <> [] /\ all_digits f) ->
  delimited rest ->
  exists v,
    match_number
      ((if neg then [45] else []) ++ ip
       ++ match fp with Some f => 46 :: f | None => [] end
       ++ match ex with Some e => PyFloat.exp_chars e | None => [] end
       ++ rest)
    = Some (v, rest).
Proof.
  intros Hip Hfp Hrest.
  pose proof (stops_delimited _ Hrest) as Hstop.
  set (E := match ex with Some e => PyFloat.exp_chars e | None => [] end
            ++ rest).
  assert (HE : stops E).
  { subst E. destruct ex; [apply stops_exp_chars | exact Hstop]. }
  assert (Hexp : exists oe,
             match match_exp E with
             | Some (e, r) => (Some e, r)
             | None => (@None Z, E)
             end = (oe, rest)).
  { subst E. destruct ex as [e |].
    - destruct (match_exp_some e rest Hstop) as (z & ->). eexists. reflexivity.
    - cbn [List.app]. rewrite match_exp_none; [eexists; reflexivity |].
      destruct rest as [| c r]; [exact I |].
      cbn [delimited] in Hrest. lia. }
  assert (HE' : match E with c :: _ => c <> 46 | [] => True end).
  { subst E. destruct ex as [[sg n] |]; [discriminate |].
    destruct rest as [| c r]; [exact I |].
    cbn [delimited] in Hrest. cbn [List.app]. lia. }
  clearbody E. destruct Hexp as (oe & Hexp).
  set (T := match fp with Some f => 46 :: f | None => [] end ++ E).
  assert (HT : stops T).
  { subst T. destruct fp; [reflexivity | exact HE]. }
  assert (Hfrac : match match_frac T with
                  | Some (f, r) => (Some f, r)
                  | None => (None, T)
                  end = (fp, E)).
  { subst T. destruct fp as [f |].
    - destruct (Hfp f eq_refl) as [Hne Hf].
      cbn [List.app]. rewrite (match_frac_some f E Hne Hf HE). reflexivity.
    - cbn [List.app]. rewrite match_frac_none; [reflexivity | exact HE']. }
  clearbody T.
  assert (Hsign : match (if neg then [45] else []) ++ ip ++ T
                   return bool * pystr with
                  | c :: r =>
                      if c =? 45 return bool * pystr
                      then @pair bool pystr true r
                      else @pair bool pystr false
                             ((if neg then [45] else []) ++ ip ++ T)
                  | [] => @pair bool pystr false
                            ((if neg then [45] else []) ++ ip ++ T)
                  end = (neg, ip ++ T)).
  { destruct neg; [reflexivity |].
    destruct (canonical_head ip Hip) as (c & t & -> & Hc).
    cbn [List.app]. replace (c =? 45) with false; [reflexivity |].
    symmetry. apply N.eqb_neq. lia. }
  pose proof (match_int_part_app ip T Hip HT) as Hint.
  destruct fp, oe; eexists; unfold match_number;
    scrutinee Hsign; rewrite Hint; cbv beta iota;
    scrutinee Hfrac; scrutinee Hexp; reflexivity.
Qed.

Lemma match_number_int z rest :
  delimited rest -> exists v, match_number (int_repr z ++ rest) = Some (v, rest).
Proof.
  intros Hrest.
  destruct z as [| p | p].
  - apply (match_number_parts false (dec_N 0) None None rest);
      [apply canonical_dec_N | discriminate | exact Hrest].
  - apply (match_number_parts false (dec_N (Npos p)) None None rest);
      [apply canonical_dec_N | discriminate | exact Hrest].
  - apply (match_number_parts true (dec_N (Npos p)) None None rest);
      [apply canonical_dec_N | discriminate | exact Hrest].
Qed.

(** Every layout [repr] chooses is the layout of a number of JSON. *)
Lemma all_digits_tl s : all_digits s -> all_digits (List.tl s).
Proof. intros H. destruct H; [constructor | assumption]. Qed.

Lemma all_digits_skipn n s : all_digits s -> all_digits (List.skipn n s).
Proof.
  revert s. induction n as [| n IH]; intros s H; [exact H |].
  destruct H; [constructor |]. cbn [List.skipn]. apply IH. assumption.
Qed.

Lemma all_digits_zeros n : all_digits (PyFloat.zeros n).
Proof.
  unfold PyFloat.zeros. induction (Z.to_nat n); cbn [List.repeat];
    constructor; [reflexivity | assumption].
Qed.

Lemma wf_layout_of neg digits k : wf_layout (PyFloat.layout_of neg digits k).
Proof.
  unfold PyFloat.layout_of.
  set (ds := dec_N (Z.to_N digits)).
  assert (Hds : all_digits ds) by apply all_digits_dec_N.
  assert (Hne : ds <> []) by apply dec_N_nonempty.
  set (decpt := (Z.of_nat (List.length ds) + k)%Z).
  destruct ((decpt <=? -4) || (16 <? decpt))%Z.
  { split; cbn [PyFloat.l_int PyFloat.l_frac]; [apply canonical_dec_N |].
    intros f Hf. pose proof (all_digits_tl ds Hds) as Ht.
    destruct (List.tl ds) as [| d t]; [discriminate |].
    injection Hf as <-. split; [discriminate | exact Ht]. }
  destruct (decpt <=? 0)%Z eqn:E0.
  { split; cbn [PyFloat.l_int PyFloat.l_frac]; [left; reflexivity |].
    intros f Hf. injection Hf as <-. split.
    - intros H. apply app_eq_nil in H. apply Hne, H.
    - apply all_digits_app; [apply all_digits_zeros | exact Hds]. }
  destruct (Z.of_nat (List.length ds) <=? decpt)%Z eqn:E1.
  { split; cbn [PyFloat.l_int PyFloat.l_frac]; [apply canonical_dec_N |].
    intros f Hf. injection Hf as <-. split; [discriminate |].
    repeat constructor. }
  split; cbn [PyFloat.l_int PyFloat.l_frac]; [apply canonical_dec_N |].
  intros f Hf. injection Hf as <-. split.
  - intros H. apply (f_equal (@List.length N)) in H.
    rewrite List.length_skipn in H. cbn [List.length] in H.
    apply Z.leb_gt in E0, E1. lia.
  - apply all_digits_skipn, Hds.
Qed.

Lemma match_number_layout l rest :
  wf_layout l -> delimited rest ->
  exists v, match_number (PyFloat.render l ++ rest) = Some (v, rest).
Proof.
  intros [Hip Hfp] Hrest. unfold PyFloat.render.
  rewrite <- !List.app_assoc.
  apply match_number_parts; assumption.
Qed.

Lemma finite_layout_wf x l : PyFloat.finite_layout x = Some l -> wf_layout l.
Proof.
  destruct x as [s | s | | s m e]; cbn [PyFloat.finite_layout];
    try discriminate.
  - intros H. injection H as <-. apply wf_layout_of.
  - destruct (PyFloat.shortest m e) as [d k].
    intros H. injection H as <-. apply wf_layout_of.
Qed.

Lemma finite_layout_some x :
  PyFloat.is_finite x = true -> exists l, PyFloat.finite_layout x = Some l.
Proof.
  destruct x as [s | s | | s m e]; cbn [PyFloat.is_finite]; try discriminate;
    intros _; cbn [PyFloat.finite_layout].
  - eexists. reflexivity.
  - destruct (PyFloat.shortest m e) as [d k]. eexists. reflexivity.
Qed.

Lemma floatstr_finite x :
  PyFloat.is_finite x = true ->
  exists l, wf_layout l /\ floatstr x = PyFloat.render l.
Proof.
  intros Hx. destruct (finite_layout_some x Hx) as (l & Hl).
  exists l. split; [exact (finite_layout_wf x l Hl) |].
  destruct x as [s | s | | s m e]; try discriminate Hx;
    unfold floatstr, PyFloat.repr; rewrite Hl; reflexivity.
Qed.

(** *** Scalars *)

Lemma skip_ws_head c r : is_ws c = false -> skip_ws (c :: r) = c :: r.
Proof. intros H. cbn [skip_ws]. rewrite H. reflexivity. Qed.

Lemma scan_null f rest :
  read_value false (S f) (lit "null" ++ rest) = Ok PNone rest.
Proof. reflexivity. Qed.

Lemma scan_true f rest :
  read_value false (S f) (lit "true" ++ rest) = Ok (PBool true) rest.
Proof. reflexivity. Qed.

Lemma scan_false f rest :
  read_value false (S f) (lit "false" ++ rest) = Ok (PBool false) rest.
Proof. reflexivity. Qed.

Lemma scan_string f s rest :
  exists s',
    read_value false (S f) (encode_string s ++ rest) = Ok (PStr s') rest.
Proof.
  unfold encode_string. cbn [List.app]. rewrite <- List.app_assoc.
  rewrite !scan_once_S; cbn [List.app]; limits.
  change (34 =? 34) with true.
  cbv iota.
  destruct (scanstring_encode_string
              (List.length (34 :: List.flat_map escape_char s ++ 34 :: rest))
              s rest) as (s' & ->).
  exists s'. reflexivity.
Qed.

Lemma match_constant_number c r :
  c = 45 \/ 48 <= c <= 57 -> match_constant false (c :: r) = None.
Proof.
  intros Hc. unfold match_constant.
  change (lit "null") with [110; 117; 108; 108].
  change (lit "true") with [116; 114; 117; 101].
  change (lit "false") with [102; 97; 108; 115; 101].
  cbn [strip_prefix].
  replace (110 =? c) with false by (symmetry; apply N.eqb_neq; lia).
  replace (116 =? c) with false by (symmetry; apply N.eqb_neq; lia).
  replace (102 =? c) with false by (symmetry; apply N.eqb_neq; lia).
  reflexivity.
Qed.

Lemma scan_number f c r v rest :
  c = 45 \/ 48 <= c <= 57 ->
  match_number (c :: r) = Some (v, rest) ->
  read_value false (S f) (c :: r) = Ok v rest.
Proof.
  intros Hc Hm. rewrite !scan_once_S; limits.
  replace (c =? 34) with false by (symmetry; apply N.eqb_neq; lia).
  replace (c =? 123) with false by (symmetry; apply N.eqb_neq; lia).
  replace (c =? 91) with false by (symmetry; apply N.eqb_neq; lia).
  rewrite (match_constant_number c r Hc), Hm. reflexivity.
Qed.

Lemma number_head (neg : bool) (ip T : pystr) :
  canonical_int ip ->
  exists c r, (if neg then [45] else []) ++ ip ++ T = c :: r
              /\ (c = 45 \/ 48 <= c <= 57).
Proof.
  intros Hip. destruct neg.
  - eexists; eexists. split; [reflexivity | left; reflexivity].
  - destruct (canonical_head ip Hip) as (c & t & -> & Hc).
    eexists; eexists. split; [reflexivity | right; exact Hc].
Qed.

Lemma int_repr_head z rest :
  exists c r, int_repr z ++ rest = c :: r /\ (c = 45 \/ 48 <= c <= 57).
Proof.
  destruct z as [| p | p].
  - apply (number_head false (dec_N 0) rest), canonical_dec_N.
  - apply (number_head false (dec_N (Npos p)) rest), canonical_dec_N.
  - apply (number_head true (dec_N (Npos p)) rest), canonical_dec_N.
Qed.

Lemma render_head l rest :
  wf_layout l ->
  exists c r, PyFloat.render l ++ rest = c :: r /\ (c = 45 \/ 48 <= c <= 57).
Proof.
  intros [Hip _]. unfold PyFloat.render. rewrite <- !List.app_assoc.
  apply number_head, Hip.
Qed.

Lemma scan_int f z rest :
  delimited rest ->
  exists v, read_value false (S f) (int_repr z ++ rest) = Ok v rest.
Proof.
  intros Hrest.
  destruct (match_number_int z rest Hrest) as (v & Hm).
  destruct (int_repr_head z rest) as (c & r & E & Hc).
  exists v. rewrite E in *. apply scan_number; assumption.
Qed.

Lemma scan_float f x rest :
  PyFloat.is_finite x = true -> delimited rest ->
  exists v, read_value false (S f) (floatstr x ++ rest) = Ok v rest.
Proof.
  intros Hx Hrest.
  destruct (floatstr_finite x Hx) as (l & Hl & ->).
  destruct (match_number_layout l rest Hl Hrest) as (v & Hm).
  destruct (render_head l rest Hl) as (c & r & E & Hc).
  exists v. rewrite E in *. apply scan_number; assumption.
Qed.

(** *** Values *)

Lemma number_char c :
  c = 45 \/ 48 <= c <= 57 -> is_ws c = false /\ c <> 93.
Proof.
  intros Hc. split; [| lia]. unfold is_ws.
  replace (c =? 32) with false by (symmetry; apply N.eqb_neq; lia).
  replace (c =? 9) with false by (symmetry; apply N.eqb_neq; lia).
  replace (c =? 10) with false by (symmetry; apply N.eqb_neq; lia).
  replace (c =? 13) with false by (symmetry; apply N.eqb_neq; lia).
  reflexivity.
Qed.

(** The first character of a value is no white space and no bracket
    that closes. *)
Lemma dumps_head v :
  exists c r, dumps v = c :: r /\ is_ws c = false /\ c <> 93.
Proof.
  destruct v as [| [|] | z | x | s | items | items].
  - exists 110, (lit "ull"). split; [reflexivity | split; [reflexivity | lia]].
  - exists 116, (lit "rue"). split; [reflexivity | split; [reflexivity | lia]].
  - exists 102, (lit "alse").
    split; [reflexivity | split; [reflexivity | lia]].
  - destruct (int_repr_head z []) as (c & r & E & Hc).
    rewrite List.app_nil_r in E. exists c, r.
    split; [exact E | apply number_char, Hc].
  - destruct x as [sg | [|] | | sg m e].
    + destruct (floatstr_finite (S754_zero sg) eq_refl) as (l & Hl & E).
      destruct (render_head l [] Hl) as (c & r & E' & Hc).
      rewrite List.app_nil_r in E'. exists c, r.
      split; [cbn [dumps]; congruence | apply number_char, Hc].
    + exists 45, (lit "Infinity").
      split; [reflexivity | split; [reflexivity | lia]].
    + exists 73, (lit "nfinity").
      split; [reflexivity | split; [reflexivity | lia]].
    + exists 78, (lit "aN").
      split; [reflexivity | split; [reflexivity | lia]].
    + destruct (floatstr_finite (S754_finite sg m e) eq_refl) as (l & Hl & E).
      destruct (render_head l [] Hl) as (c & r & E' & Hc).
      rewrite List.app_nil_r in E'. exists c, r.
      split; [cbn [dumps]; congruence | apply number_char, Hc].
  - exists 34, (List.flat_map escape_char s ++ [34]).
    split; [reflexivity | split; [reflexivity | lia]].
  - exists 91, (join (lit ", ") (List.map dumps items) ++ lit "]").
    split; [reflexivity | split; [reflexivity | lia]].
  - exists 123,
      (join (lit ", ")
         (List.map
            (fun kv => encode_string (fst kv) ++ lit ": " ++ dumps (snd kv))
            items) ++ lit "}").
    split; [reflexivity | split; [reflexivity | lia]].
Qed.

Lemma skip_ws_space s : skip_ws (32 :: s) = skip_ws s.
Proof. reflexivity. Qed.

Lemma skip_ws_dumps v X : skip_ws (dumps v ++ X) = dumps v ++ X.
Proof.
  destruct (dumps_head v) as (c & r & -> & Hws & _).
  cbn [List.app]. apply skip_ws_head, Hws.
Qed.

Local Abbreviation items_text items :=
  (join (lit ", ") (List.map dumps items)).

Local Abbreviation pair_text :=
  (fun kv : pystr * pyval =>
     encode_string (fst kv) ++ lit ": " ++ dumps (snd kv)).

Local Abbreviation pairs_text items :=
  (join (lit ", ") (List.map pair_text items)).

Lemma dumps_list_text items rest :
  dumps (PList items) ++ rest = 91 :: items_text items ++ 93 :: rest.
Proof.
  change (dumps (PList items))
    with (lit "[" ++ items_text items ++ lit "]").
  rewrite <- !List.app_assoc. reflexivity.
Qed.

Lemma dumps_dict_text items rest :
  dumps (PDict items) ++ rest = 123 :: pairs_text items ++ 125 :: rest.
Proof.
  change (dumps (PDict items))
    with (lit "{" ++ pairs_text items ++ lit "}").
  rewrite <- !List.app_assoc. reflexivity.
Qed.

Lemma items_text_one x X : items_text [x] ++ X = dumps x ++ X.
Proof. reflexivity. Qed.

Lemma items_text_more x y items X :
  items_text (x :: y :: items) ++ X
  = dumps x ++ 44 :: 32 :: (items_text (y :: items) ++ X).
Proof.
  change (items_text (x :: y :: items))
    with (dumps x ++ lit ", " ++ items_text (y :: items)).
  rewrite <- !List.app_assoc. reflexivity.
Qed.

Lemma items_text_head x items X :
  exists c r,
    items_text (x :: items) ++ X = c :: r /\ is_ws c = false /\ c <> 93.
Proof.
  destruct (dumps_head x) as (c & r & E & H).
  destruct items as [| y items].
  - rewrite items_text_one, E. eexists; eexists.
    split; [reflexivity | exact H].
  - rewrite items_text_more, E. eexists; eexists.
    split; [reflexivity | exact H].
Qed.

Lemma pair_text_eq k v X :
  (encode_string k ++ lit ": " ++ dumps v) ++ X
  = 34 :: List.flat_map escape_char k ++ 34 :: 58 :: 32 :: dumps v ++ X.
Proof.
  unfold encode_string. cbn [List.app].
  rewrite <- !List.app_assoc. reflexivity.
Qed.

Lemma pairs_text_one k v X :
  pairs_text [(k, v)] ++ X
  = 34 :: List.flat_map escape_char k ++ 34 :: 58 :: 32 :: dumps v ++ X.
Proof.
  change (pairs_text [(k, v)])
    with (encode_string k ++ lit ": " ++ dumps v).
  apply pair_text_eq.
Qed.

Lemma pairs_text_more k v kv items X :
  pairs_text ((k, v) :: kv :: items) ++ X
  = 34 :: List.flat_map escape_char k ++ 34 :: 58 :: 32 :: dumps v
    ++ 44 :: 32 :: (pairs_text (kv :: items) ++ X).
Proof.
  change (pairs_text ((k, v) :: kv :: items))
    with ((encode_string k ++ lit ": " ++ dumps v)
          ++ lit ", " ++ pairs_text (kv :: items)).
  rewrite <- List.app_assoc. rewrite pair_text_eq.
  rewrite <- !List.app_assoc. reflexivity.
Qed.

Lemma pairs_text_head kv items X :
  exists r, pairs_text (kv :: items) ++ X = 34 :: r.
Proof.
  destruct kv as [k v]. destruct items as [| kv' items].
  - rewrite pairs_text_one. eexists. reflexivity.
  - rewrite pairs_text_more. eexists. reflexivity.
Qed.

(** The items of a list, from the first one to the closing bracket. *)
Lemma items_accepted items :
  Forall accepted items -> items <> [] ->
  forall rest acc,
  exists f l,
    read_items false f (items_text items ++ 93 :: rest) acc = Ok l rest.
Proof.
  induction items as [| x items IH]; [congruence |].
  intros HP _ rest acc.
  inversion HP as [| ? ? Hx Hitems]; subst.
  destruct items as [| y items].
  - destruct (Hx (93 :: rest)) as (f & v' & Hs);
      [right; left; reflexivity |].
    exists (S f), (acc ++ [v']).
    rewrite items_text_one. rewrite !parse_items_S; limits. rewrite Hs.
    cbv beta iota zeta. rewrite skip_ws_head by reflexivity.
    change (93 =? 93) with true. reflexivity.
  - destruct (Hx (44 :: 32 :: (items_text (y :: items) ++ 93 :: rest)))
      as (f1 & v' & Hs); [left; reflexivity |].
    destruct (IH Hitems ltac:(discriminate) rest (acc ++ [v']))
      as (f2 & l & Hi).
    exists (S (Nat.max f1 f2)), l.
    rewrite items_text_more. rewrite !parse_items_S; limits.
    rewrite (scan_once_le _ _ _ _ _ _ _ _ Hs (Nat.le_max_l f1 f2)).
    cbv beta iota zeta. rewrite skip_ws_head by reflexivity.
    change (44 =? 93) with false. change (44 =? 44) with true.
    cbv beta iota. rewrite skip_ws_space.
    destruct (items_text_head y items (93 :: rest)) as (c & r & E & Hws & _).
    rewrite E in *. rewrite (skip_ws_head c r Hws).
    exact (parse_items_le _ _ _ _ _ _ _ _ _ Hi (Nat.le_max_r f1 f2)).
Qed.

(** The pairs of an object, from the first key to the closing brace. *)
Lemma pairs_accepted items :
  Forall (fun kv => accepted (snd kv)) items -> items <> [] ->
  forall rest acc,
  exists f d,
    read_pairs false f (pairs_text items ++ 125 :: rest) acc = Ok d rest.
Proof.
  induction items as [| [k v] items IH]; [congruence |].
  intros HP _ rest acc.
  inversion HP as [| ? ? Hx Hitems]; subst. cbn [snd] in Hx.
  destruct items as [| kv items].
  - destruct (Hx (125 :: rest)) as (f & v' & Hs);
      [right; right; reflexivity |].
    rewrite pairs_text_one.
    destruct (scanstring_encode_string
                (List.length
                   (34 :: List.flat_map escape_char k
                       ++ 34 :: 58 :: 32 :: dumps v ++ 125 :: rest))
                k (58 :: 32 :: dumps v ++ 125 :: rest)) as (key & Hk).
    exists (S f), (dict_store acc key v').
    rewrite !parse_pairs_S; limits. change (34 =? 34) with true. cbv beta iota.
    rewrite Hk. cbv beta iota. rewrite skip_ws_head by reflexivity.
    change (58 =? 58) with true. cbv beta iota.
    rewrite skip_ws_space, skip_ws_dumps, Hs. cbv beta iota zeta.
    rewrite skip_ws_head by reflexivity.
    change (125 =? 125) with true. reflexivity.
  - set (X := pairs_text (kv :: items) ++ 125 :: rest).
    destruct (Hx (44 :: 32 :: X)) as (f1 & v' & Hs); [left; reflexivity |].
    rewrite pairs_text_more. fold X.
    destruct (scanstring_encode_string
                (List.length
                   (34 :: List.flat_map escape_char k
                       ++ 34 :: 58 :: 32 :: dumps v ++ 44 :: 32 :: X))
                k (58 :: 32 :: dumps v ++ 44 :: 32 :: X)) as (key & Hk).
    destruct (IH Hitems ltac:(discriminate) rest (dict_store acc key v'))
      as (f2 & d & Hp).
    fold X in Hp.
    exists (S (Nat.max f1 f2)), d.
    rewrite !parse_pairs_S; limits. change (34 =? 34) with true. cbv beta iota.
    rewrite Hk. cbv beta iota. rewrite skip_ws_head by reflexivity.
    change (58 =? 58) with true. cbv beta iota.
    rewrite skip_ws_space, skip_ws_dumps.
    rewrite (scan_once_le _ _ _ _ _ _ _ _ Hs (Nat.le_max_l f1 f2)).
    cbv beta iota zeta. rewrite skip_ws_head by reflexivity.
    change (44 =? 125) with false. change (44 =? 44) with true.
    cbv beta iota. rewrite skip_ws_space.
    destruct (pairs_text_head kv items (125 :: rest)) as (r & E).
    subst X. rewrite E in *. rewrite skip_ws_head by reflexivity.
    exact (parse_pairs_le _ _ _ _ _ _ _ _ _ Hp (Nat.le_max_r f1 f2)).
Qed.

Lemma accepted_all (P : pyval -> bool) items :
  Forall (fun v => P v = true -> accepted v) items ->
  List.forallb P items = true -> Forall accepted items.
Proof.
  induction 1 as [| x items Hx _ IH]; [constructor |].
  cbn [List.forallb]. intros H. apply andb_true_iff in H.
  constructor; [apply Hx, H | apply IH, H].
Qed.

Lemma accepted_all_snd (P : pyval -> bool) (items : pydict) :
  Forall (fun kv => P (snd kv) = true -> accepted (snd kv)) items ->
  List.forallb (fun kv => P (snd kv)) items = true ->
  Forall (fun kv => accepted (snd kv)) items.
Proof.
  induction 1 as [| x items Hx _ IH]; [constructor |].
  cbn [List.forallb]. intros H. apply andb_true_iff in H.
  constructor; [apply Hx, H | apply IH, H].
Qed.

(** The decoder without the three names reads every value that
    [json.dumps] writes for a value with finite floats only. *)
Lemma dumps_accepted v : finite_value v = true -> accepted v.
Proof.
  induction v as [| b | z | x | s | items IH | items IH]
    using pyval_nested_ind; intros Hfin rest Hrest.
  - exists 1%nat, PNone. apply scan_null.
  - destruct b; [exists 1%nat, (PBool true); apply scan_true
                | exists 1%nat, (PBool false); apply scan_false].
  - destruct (scan_int 0 z rest Hrest) as (v & H). exists 1%nat, v. exact H.
  - destruct (scan_float 0 x rest Hfin Hrest) as (v & H).
    exists 1%nat, v. exact H.
  - destruct (scan_string 0 s rest) as (s' & H).
    exists 1%nat, (PStr s'). exact H.
  - cbn [finite_value] in Hfin.
    pose proof (accepted_all finite_value items IH Hfin) as Hacc.
    rewrite dumps_list_text.
    destruct items as [| x items].
    + exists 1%nat, (PList []). reflexivity.
    + destruct (items_accepted (x :: items) Hacc ltac:(discriminate) rest [])
        as (f & l & Hi).
      destruct (items_text_head x items (93 :: rest))
        as (c & r & E & Hws & H93).
      rewrite E in *. exists (S f), (PList l).
      rewrite !scan_once_S; limits. change (91 =? 34) with false.
      change (91 =? 123) with false. change (91 =? 91) with true.
      cbv beta iota. rewrite (skip_ws_head c r Hws).
      replace (c =? 93) with false by (symmetry; apply N.eqb_neq; exact H93).
      rewrite Hi. reflexivity.
  - cbn [finite_value] in Hfin.
    pose proof (accepted_all_snd finite_value items IH Hfin) as Hacc.
    rewrite dumps_dict_text.
    destruct items as [| kv items].
    + exists 1%nat, (PDict []). reflexivity.
    + destruct (pairs_accepted (kv :: items) Hacc ltac:(discriminate) rest [])
        as (f & d & Hp).
      destruct (pairs_text_head kv items (125 :: rest)) as (r & E).
      rewrite E in *. exists (S f), (PDict d).
      rewrite !scan_once_S; limits. change (123 =? 34) with false.
      change (123 =? 123) with true.
      cbv beta iota. rewrite skip_ws_head by reflexivity.
      change (34 =? 125) with false. cbv beta iota.
      rewrite Hp. reflexivity.
Qed.

Lemma scan_object allow f r v rest :
  read_value allow f (123 :: r) = Ok v rest -> exists d, v = PDict d.
Proof.
  destruct f as [| f]; [discriminate |].
  rewrite !scan_once_S; limits. change (123 =? 34) with false.
  change (123 =? 123) with true. cbv beta iota.
  destruct (skip_ws r) as [| c' r']; [discriminate |].
  destruct (c' =? 125).
  - intros H. exists []. congruence.
  - destruct (read_pairs allow f (c' :: r') []) as [d rest' | | |];
      try discriminate.
    intros H. exists d. congruence.
Qed.

(** What [json.dumps] writes for an object with finite floats only is a
    valid JSON object. *)
Lemma dumps_valid d :
  finite_value (PDict d) = true -> valid_json_object (dumps (PDict d)).
Proof.
  intros Hfin.
  destruct (dumps_accepted (PDict d) Hfin [] I) as (f & v' & Hs).
  rewrite dumps_dict_text in Hs.
  assert (E : dumps (PDict d) = 123 :: pairs_text d ++ [125]).
  { rewrite <- (List.app_nil_r (dumps (PDict d))). apply dumps_dict_text. }
  destruct (scan_object _ _ _ _ _ Hs) as (d' & ->).
  exists d'. rewrite E.
  set (doc := 123 :: pairs_text d ++ [125]) in *.
  unfold loads, loads_with.
  change (starts_with_bom doc) with false. cbv beta iota.
  unfold decode_with. cbv beta zeta.
  change (skip_ws doc) with doc.
  rewrite (with_enough_fuel false Unlimited f (loads_fuel doc) Unlimited doc
             (PDict d') [] Hs)
    by (unfold loads_fuel; lia).
  reflexivity.
Qed.

(** *** The names [NaN], [Infinity] and [-Infinity] are an extension

    Whatever the decoder reads without the three names it reads to the
    same value with them. *)

Lemma match_constant_strict s p :
  match_constant false s = Some p -> match_constant true s = Some p.
Proof.
  unfold match_constant.
  destruct (strip_prefix (lit "null") s); [auto |].
  destruct (strip_prefix (lit "true") s); [auto |].
  destruct (strip_prefix (lit "false") s); [auto |].
  discriminate.
Qed.

(** A text that starts with one of the three names is no number. *)
Lemma match_constant_extension s p :
  match_constant false s = None -> match_constant true s = Some p ->
  match_number s = None.
Proof.
  unfold match_constant.
  destruct (strip_prefix (lit "null") s); [discriminate |].
  destruct (strip_prefix (lit "true") s); [discriminate |].
  destruct (strip_prefix (lit "false") s); [discriminate |].
  intros _.
  change (lit "NaN") with [78; 97; 78].
  change (lit "Infinity") with [73; 110; 102; 105; 110; 105; 116; 121].
  change (lit "-Infinity")
    with [45; 73; 110; 102; 105; 110; 105; 116; 121].
  destruct s as [| c s]; [discriminate |].
  cbn [strip_prefix].
  destruct (78 =? c) eqn:E1.
  { apply N.eqb_eq in E1. subst c. reflexivity. }
  destruct (73 =? c) eqn:E2.
  { apply N.eqb_eq in E2. subst c. reflexivity. }
  destruct (45 =? c) eqn:E3; [| discriminate].
  apply N.eqb_eq in E3. subst c.
  destruct s as [| c2 s]; [discriminate |].
  destruct (73 =? c2) eqn:E4; [| discriminate].
  apply N.eqb_eq in E4. subst c2. reflexivity.
Qed.

Lemma strict_default f :
  (forall s v r, read_value false f s = Ok v r -> read_value true f s = Ok v r)
  /\ (forall s acc d r, read_pairs false f s acc = Ok d r ->
                        read_pairs true f s acc = Ok d r)
  /\ (forall s acc l r, read_items false f s acc = Ok l r ->
                        read_items true f s acc = Ok l r).
Proof.
  induction f as [| f (IHv & IHp & IHi)].
  - split; [| split]; intros; discriminate.
  - split; [| split].
    + intros s v r H. rewrite !scan_once_S in H |- *; limits in H |- *.
      destruct s as [| c s']; [discriminate |].
      destruct (c =? 34); [exact H |].
      destruct (c =? 123).
      { destruct (skip_ws s') as [| c' r']; [exact H |].
        destruct (c' =? 125); [exact H |].
        destruct (read_pairs false f (c' :: r') []) as [d0 r0 | | |] eqn:E;
          try discriminate.
        rewrite (IHp _ _ _ _ E). exact H. }
      destruct (c =? 91).
      { destruct (skip_ws s') as [| c' r']; [exact H |].
        destruct (c' =? 93); [exact H |].
        destruct (read_items false f (c' :: r') []) as [l0 r0 | | |] eqn:E;
          try discriminate.
        rewrite (IHi _ _ _ _ E). exact H. }
      destruct (match_constant false (c :: s')) as [[v0 r0] |] eqn:Ec.
      { rewrite (match_constant_strict _ _ Ec). exact H. }
      destruct (match_constant true (c :: s')) as [[v1 r1] |] eqn:Et;
        [| exact H].
      rewrite (match_constant_extension _ _ Ec Et) in H. discriminate.
    + intros s acc d r H. rewrite !parse_pairs_S in H |- *; limits in H |- *.
      destruct s as [| c s']; [discriminate |].
      destruct (c =? 34); [| discriminate].
      destruct (scanstring (List.length (c :: s')) s') as [key s1 | | |];
        try discriminate.
      destruct (skip_ws s1) as [| c1 r1]; [discriminate |].
      destruct (c1 =? 58); [| discriminate].
      destruct (read_value false f (skip_ws r1)) as [v s2 | | |] eqn:E;
        try discriminate.
      rewrite (IHv _ _ _ E). cbv zeta in H |- *.
      destruct (skip_ws s2) as [| c2 r2]; [discriminate |].
      destruct (c2 =? 125); [exact H |].
      destruct (c2 =? 44); [| discriminate].
      apply IHp, H.
    + intros s acc l r H. rewrite !parse_items_S in H |- *; limits in H |- *.
      destruct (read_value false f s) as [v s1 | | |] eqn:E; try discriminate.
      rewrite (IHv _ _ _ E). cbv zeta in H |- *.
      destruct (skip_ws s1) as [| c1 r1]; [discriminate |].
      destruct (c1 =? 93); [exact H |].
      destruct (c1 =? 44); [| discriminate].
      apply IHi, H.
Qed.

Lemma loads_strict_default text v :
  loads false text = Some (Returns v) -> loads true text = Some (Returns v).
Proof.
  unfold loads, loads_with.
  destruct (starts_with_bom text); [discriminate |].
  unfold decode_with. cbv beta zeta.
  destruct (read_value false (loads_fuel text) (skip_ws text))
    as [v0 rest | | |] eqn:E; try discriminate.
  rewrite (proj1 (strict_default _) _ _ _ E). auto.
Qed.

(** *** What the strict decoder refuses

    A value that holds a float that is not finite is written with one of
    the three names, and the decoder without the names stops there. *)

Lemma scan_nonfinite f x rest :
  PyFloat.is_finite x = false ->
  exists msg n, read_value false (S f) (floatstr x ++ rest) = Err msg n.
Proof.
  destruct x as [s | [|] | | s m e]; cbn [PyFloat.is_finite];
    try discriminate; intros _; eexists; eexists; reflexivity.
Qed.

(** One pair of an object, up to its value. *)
Lemma parse_pairs_step k v X :
  exists key, forall f acc,
    read_pairs false (S f)
      (34 :: List.flat_map escape_char k ++ 34 :: 58 :: 32 :: dumps v ++ X)
      acc
    = match read_value false f (dumps v ++ X) with
      | Ok v' s2 =>
          match skip_ws s2 with
          | c2 :: r2 =>
              if c2 =? 125 then Ok (dict_store acc key v') r2
              else if c2 =? 44 then
                read_pairs false f (skip_ws r2) (dict_store acc key v')
              else Err (lit "Expecting ',' delimiter")
                       (List.length (c2 :: r2))
          | [] => Err (lit "Expecting ',' delimiter") 0
          end
      | Err msg n => Err msg n
      | NoFuel => NoFuel
      | Fail e => Fail e
      end.
Proof.
  destruct (scanstring_encode_string
              (List.length
                 (34 :: List.flat_map escape_char k
                     ++ 34 :: 58 :: 32 :: dumps v ++ X))
              k (58 :: 32 :: dumps v ++ X)) as (key & Hk).
  exists key. intros f acc.
  rewrite !parse_pairs_S; limits. change (34 =? 34) with true. cbv beta iota.
  rewrite Hk. cbv beta iota. rewrite skip_ws_head by reflexivity.
  change (58 =? 58) with true. cbv beta iota.
  rewrite skip_ws_space, skip_ws_dumps. reflexivity.
Qed.

Lemma items_rejected items :
  Forall (fun v => finite_value v = false -> rejected v) items ->
  List.forallb finite_value items = false ->
  forall rest acc,
  exists f msg n,
    read_items false f (items_text items ++ 93 :: rest) acc = Err msg n.
Proof.
  induction items as [| x items IH]; [discriminate |].
  intros HP Hfin rest acc.
  inversion HP as [| ? ? Hx Hitems]; subst.
  cbn [List.forallb] in Hfin.
  destruct (finite_value x) eqn:Ex.
  - cbn [andb] in Hfin.
    destruct items as [| y items]; [discriminate Hfin |].
    destruct (dumps_accepted x Ex
                (44 :: 32 :: (items_text (y :: items) ++ 93 :: rest)))
      as (f1 & v' & Hs); [left; reflexivity |].
    destruct (IH Hitems Hfin rest (acc ++ [v'])) as (f2 & msg & n & Hi).
    exists (S (Nat.max f1 f2)), msg, n.
    rewrite items_text_more. rewrite !parse_items_S; limits.
    rewrite (scan_once_le _ _ _ _ _ _ _ _ Hs (Nat.le_max_l f1 f2)).
    cbv beta iota zeta. rewrite skip_ws_head by reflexivity.
    change (44 =? 93) with false. change (44 =? 44) with true.
    cbv beta iota. rewrite skip_ws_space.
    destruct (items_text_head y items (93 :: rest)) as (c & r & E & Hws & _).
    rewrite E in *. rewrite (skip_ws_head c r Hws).
    exact (parse_items_le_err _ _ _ _ _ _ _ _ _ Hi (Nat.le_max_r f1 f2)).
  - destruct items as [| y items].
    + destruct (Hx eq_refl (93 :: rest)) as (f & msg & n & Hs).
      exists (S f), msg, n. rewrite items_text_one.
      rewrite !parse_items_S; limits. rewrite Hs. reflexivity.
    + destruct (Hx eq_refl
                  (44 :: 32 :: (items_text (y :: items) ++ 93 :: rest)))
        as (f & msg & n & Hs).
      exists (S f), msg, n. rewrite items_text_more.
      rewrite !parse_items_S; limits. rewrite Hs. reflexivity.
Qed.

Lemma pairs_rejected items :
  Forall (fun kv => finite_value (snd kv) = false -> rejected (snd kv))
    items ->
  List.forallb (fun kv => finite_value (snd kv)) items = false ->
  forall rest acc,
  exists f msg n,
    read_pairs false f (pairs_text items ++ 125 :: rest) acc = Err msg n.
Proof.
  induction items as [| [k v] items IH]; [discriminate |].
  intros HP Hfin rest acc.
  inversion HP as [| ? ? Hx Hitems]; subst.
  cbn [List.forallb snd] in Hfin, Hx.
  destruct (finite_value v) eqn:Ev.
  - cbn [andb] in Hfin.
    destruct items as [| kv items]; [discriminate Hfin |].
    set (X := pairs_text (kv :: items) ++ 125 :: rest).
    destruct (dumps_accepted v Ev (44 :: 32 :: X)) as (f1 & v' & Hs);
      [left; reflexivity |].
    rewrite pairs_text_more. fold X.
    destruct (parse_pairs_step k v (44 :: 32 :: X)) as (key & Hstep).
    destruct (IH Hitems Hfin rest (dict_store acc key v'))
      as (f2 & msg & n & Hp).
    fold X in Hp.
    exists (S (Nat.max f1 f2)), msg, n.
    rewrite Hstep.
    rewrite (scan_once_le _ _ _ _ _ _ _ _ Hs (Nat.le_max_l f1 f2)).
    cbv beta iota. rewrite skip_ws_head by reflexivity.
    change (44 =? 125) with false. change (44 =? 44) with true.
    cbv beta iota. rewrite skip_ws_space.
    destruct (pairs_text_head kv items (125 :: rest)) as (r & E).
    subst X. rewrite E in *. rewrite skip_ws_head by reflexivity.
    exact (parse_pairs_le_err _ _ _ _ _ _ _ _ _ Hp (Nat.le_max_r f1 f2)).
  - destruct items as [| kv items].
    + destruct (Hx eq_refl (125 :: rest)) as (f & msg & n & Hs).
      destruct (parse_pairs_step k v (125 :: rest)) as (key & Hstep).
      exists (S f), msg, n. rewrite pairs_text_one, Hstep, Hs. reflexivity.
    + set (X := pairs_text (kv :: items) ++ 125 :: rest).
      destruct (Hx eq_refl (44 :: 32 :: X)) as (f & msg & n & Hs).
      destruct (parse_pairs_step k v (44 :: 32 :: X)) as (key & Hstep).
      exists (S f), msg, n. rewrite pairs_text_more. fold X.
      rewrite Hstep, Hs. reflexivity.
Qed.

Lemma dumps_rejected v : finite_value v = false -> rejected v.
Proof.
  induction v as [| b | z | x | s | items IH | items IH]
    using pyval_nested_ind; intros Hfin rest;
    try discriminate Hfin.
  - destruct (scan_nonfinite 0 x rest Hfin) as (msg & n & H).
    exists 1%nat, msg, n. exact H.
  - cbn [finite_value] in Hfin.
    destruct items as [| x items]; [discriminate Hfin |].
    destruct (items_rejected (x :: items) IH Hfin rest [])
      as (f & msg & n & Hi).
    rewrite dumps_list_text.
    destruct (items_text_head x items (93 :: rest))
      as (c & r & E & Hws & H93).
    rewrite E in *. exists (S f), msg, n.
    rewrite !scan_once_S; limits. change (91 =? 34) with false.
    change (91 =? 123) with false. change (91 =? 91) with true.
    cbv beta iota. rewrite (skip_ws_head c r Hws).
    replace (c =? 93) with false by (symmetry; apply N.eqb_neq; exact H93).
    rewrite Hi. reflexivity.
  - cbn [finite_value] in Hfin.
    destruct items as [| kv items]; [discriminate Hfin |].
    destruct (pairs_rejected (kv :: items) IH Hfin rest [])
      as (f & msg & n & Hp).
    rewrite dumps_dict_text.
    destruct (pairs_text_head kv items (125 :: rest)) as (r & E).
    rewrite E in *. exists (S f), msg, n.
    rewrite !scan_once_S; limits. change (123 =? 34) with false.
    change (123 =? 123) with true.
    cbv beta iota. rewrite skip_ws_head by reflexivity.
    change (34 =? 125) with false. cbv beta iota.
    rewrite Hp. reflexivity.
Qed.

(** What [json.dumps] writes for an object that holds a float that is
    not finite is no valid JSON. *)
Lemma dumps_invalid d :
  finite_value (PDict d) = false -> ~ valid_json_object (dumps (PDict d)).
Proof.
  intros Hfin (d' & Hload).
  destruct (dumps_rejected (PDict d) Hfin []) as (f & msg & n & Hs).
  rewrite dumps_dict_text in Hs.
  assert (E : dumps (PDict d) = 123 :: pairs_text d ++ [125]).
  { rewrite <- (List.app_nil_r (dumps (PDict d))). apply dumps_dict_text. }
  rewrite E in Hload.
  set (doc := 123 :: pairs_text d ++ [125]) in *.
  unfold loads, loads_with in Hload.
  change (starts_with_bom doc) with false in Hload. cbv beta iota in Hload.
  unfold decode_with in Hload. cbv beta zeta in Hload.
  change (skip_ws doc) with doc in Hload.
  assert (Hf : read_value false (loads_fuel doc) doc = Err msg n).
  { rewrite <- Hs. apply with_enough_fuel_any.
    - rewrite Hs. discriminate.
    - unfold loads_fuel. lia. }
  rewrite Hf in Hload. discriminate Hload.
Qed.

(** *** Strings and integers are read back unchanged *)

Lemma hex_fixed_4_value n :
  n < 65536 ->
  exists a b c d, hex_fixed 4 n = [a; b; c; d] /\ hex4 a b c d = Some n.
Proof.
  intros Hn. cbn [hex_fixed List.app].
  do 4 eexists. split; [reflexivity |].
  unfold hex4.
  rewrite !hexdigit_value by (apply N.mod_lt; lia).
  f_equal.
  pose proof (N.div_mod n 16 ltac:(lia)).
  pose proof (N.div_mod (n / 16) 16 ltac:(lia)).
  pose proof (N.div_mod (n / 16 / 16) 16 ltac:(lia)).
  assert (n / 16 / 16 / 16 < 16).
  { apply N.Div0.div_lt_upper_bound. apply N.Div0.div_lt_upper_bound.
    apply N.Div0.div_lt_upper_bound. lia. }
  rewrite (N.mod_small (n / 16 / 16 / 16) 16) by assumption. lia.
Qed.

(** The two halves [json.dumps] writes for a character beyond the basic
    plane are a surrogate pair that joins to the character. *)
Lemma surrogate_pair c :
  65536 <= c -> c < 1114112 ->
  let hi := 55296 - 64 + N.shiftr c 10 in
  let lo := 56320 + N.land c 1023 in
  hi < 65536 /\ lo < 65536
  /\ is_high_surrogate hi = true /\ is_low_surrogate lo = true
  /\ join_surrogates hi lo = c.
Proof.
  intros H1 H2 hi lo.
  assert (Hq : N.shiftr c 10 = c / 1024) by apply N.shiftr_div_pow2.
  assert (Hr : N.land c 1023 = c mod 1024) by apply (N.land_ones c 10).
  pose proof (N.div_mod c 1024 ltac:(lia)) as Hc.
  pose proof (N.mod_lt c 1024 ltac:(lia)) as Hlt.
  assert (Hq1 : 64 <= c / 1024) by (apply N.div_le_lower_bound; lia).
  assert (Hq2 : c / 1024 < 1088) by (apply N.Div0.div_lt_upper_bound; lia).
  assert (Hhi : hi = 55232 + c / 1024) by (subst hi; rewrite Hq; reflexivity).
  assert (Hlo : lo = 56320 + c mod 1024) by (subst lo; rewrite Hr; reflexivity).
  clearbody hi lo.
  assert (Hhm : N.land hi 1023 = c / 1024 - 64).
  { replace (N.land hi 1023) with (hi mod 1024)
      by (symmetry; apply (N.land_ones hi 10)).
    symmetry. apply (N.mod_unique hi 1024 54); lia. }
  assert (Hlm : N.land lo 1023 = c mod 1024).
  { replace (N.land lo 1023) with (lo mod 1024)
      by (symmetry; apply (N.land_ones lo 10)).
    symmetry. apply (N.mod_unique lo 1024 55); lia. }
  split; [lia |]. split; [lia |].
  split; [unfold is_high_surrogate; apply andb_true_iff;
          split; apply N.leb_le; lia |].
  split; [unfold is_low_surrogate; apply andb_true_iff;
          split; apply N.leb_le; lia |].
  unfold join_surrogates. rewrite Hhm, Hlm, N.shiftl_mul_pow2.
  change (2 ^ 10) with 1024. lia.
Qed.

Lemma scanstring_bmp start h1 h2 h3 h4 u r2 :
  hex4 h1 h2 h3 h4 = Some u ->
  is_high_surrogate u = false ->
  r2 <> [] ->
  scanstring start (92 :: 117 :: h1 :: h2 :: h3 :: h4 :: r2)
  = cons_char u (scanstring start r2).
Proof.
  intros Hu Hh Hr2. cbn [scanstring].
  change (92 =? 34) with false. change (92 =? 92) with true.
  change (117 =? 117) with true. cbv iota.
  destruct r2 as [| b r2']; [congruence |].
  rewrite Hu, Hh.
  destruct r2' as [| u' [| g1 [| g2 [| g3 [| g4 [| x r3]]]]]]; reflexivity.
Qed.

Lemma scanstring_pair start h1 h2 h3 h4 g1 g2 g3 g4 hi lo r3 :
  hex4 h1 h2 h3 h4 = Some hi ->
  hex4 g1 g2 g3 g4 = Some lo ->
  is_high_surrogate hi = true ->
  is_low_surrogate lo = true ->
  r3 <> [] ->
  scanstring start
    (92 :: 117 :: h1 :: h2 :: h3 :: h4
        :: 92 :: 117 :: g1 :: g2 :: g3 :: g4 :: r3)
  = cons_char (join_surrogates hi lo) (scanstring start r3).
Proof.
  intros Hhi Hlo Hh Hl Hr3. cbn [scanstring].
  change (92 =? 34) with false. change (92 =? 92) with true.
  change (117 =? 117) with true. cbv iota.
  rewrite Hhi, Hlo, Hh, Hl.
  destruct r3 as [| x r3']; [congruence | reflexivity].
Qed.

Lemma scalar_not_high c :
  scalar c = true -> c < 65536 -> is_high_surrogate c = false.
Proof.
  unfold scalar, is_high_surrogate. intros H _.
  apply andb_true_iff in H as [H _]. apply orb_true_iff in H.
  apply andb_false_iff.
  destruct H as [H | H]; [apply N.ltb_lt in H | apply N.ltb_lt in H].
  - left. apply N.leb_gt. lia.
  - right. apply N.leb_gt. lia.
Qed.

(** One character, as [json.dumps] writes it, is read back as itself. *)
Lemma scanstring_escape_char start c T :
  scalar c = true -> T <> [] ->
  scanstring start (escape_char c ++ T) = cons_char c (scanstring start T).
Proof.
  intros Hc HT. unfold escape_char.
  destruct ((32 <=? c) && (c <=? 126) && negb (c =? 92) && negb (c =? 34))
    eqn:E.
  { apply andb_true_iff in E as [E E34]. apply andb_true_iff in E as [E E92].
    apply andb_true_iff in E as [E1 E2].
    apply N.leb_le in E1. apply negb_true_iff in E34, E92.
    apply N.eqb_neq in E34, E92.
    cbn [List.app]. apply scanstring_plain; assumption. }
  destruct (N.eqb_spec c 92) as [-> |]; [reflexivity |].
  destruct (N.eqb_spec c 34) as [-> |]; [reflexivity |].
  destruct (N.eqb_spec c 8) as [-> |]; [reflexivity |].
  destruct (N.eqb_spec c 12) as [-> |]; [reflexivity |].
  destruct (N.eqb_spec c 10) as [-> |]; [reflexivity |].
  destruct (N.eqb_spec c 13) as [-> |]; [reflexivity |].
  destruct (N.eqb_spec c 9) as [-> |]; [reflexivity |].
  destruct (N.leb_spec 65536 c) as [Hbig | Hsmall].
  - assert (Hmax : c < 1114112).
    { unfold scalar in Hc. apply andb_true_iff in Hc as [_ Hc].
      apply N.ltb_lt. exact Hc. }
    destruct (surrogate_pair c Hbig Hmax) as (Hhi & Hlo & Hh & Hl & Hj).
    cbv zeta in Hhi, Hlo, Hh, Hl, Hj.
    destruct (hex_fixed_4_value _ Hhi) as (a1 & b1 & c1 & d1 & -> & H1).
    destruct (hex_fixed_4_value _ Hlo) as (a2 & b2 & c2 & d2 & -> & H2).
    cbv zeta. cbn [List.app].
    rewrite (scanstring_pair start _ _ _ _ _ _ _ _ _ _ T H1 H2 Hh Hl HT).
    rewrite Hj. reflexivity.
  - destruct (hex_fixed_4_value c Hsmall) as (a1 & b1 & c1 & d1 & -> & H1).
    cbn [List.app].
    apply scanstring_bmp; [exact H1 | | exact HT].
    apply scalar_not_high; assumption.
Qed.

Lemma scanstring_exact start s rest :
  scalar_text s = true ->
  scanstring start (List.flat_map escape_char s ++ 34 :: rest) = Ok s rest.
Proof.
  induction s as [| c s IH]; intros H; [reflexivity |].
  unfold scalar_text in H. cbn [List.forallb] in H.
  apply andb_true_iff in H as [Hc Hs].
  cbn [List.flat_map]. rewrite <- List.app_assoc.
  rewrite scanstring_escape_char;
    [| exact Hc | destruct (List.flat_map escape_char s); discriminate].
  rewrite (IH Hs). reflexivity.
Qed.

Lemma digits_value_acc d acc :
  List.fold_left (fun a c => 10 * a + (c - 48)) (uint_chars d) (Npos acc)
  = Npos (Pos.of_uint_acc d acc).
Proof.
  revert acc.
  induction d as [| d IH | d IH | d IH | d IH | d IH | d IH | d IH | d IH
                  | d IH | d IH]; intros acc;
    cbn [uint_chars List.fold_left Pos.of_uint_acc]; [reflexivity | ..];
    rewrite <- IH; f_equal; lia.
Qed.

Lemma digits_value_uint d : digits_value (uint_chars d) = N.of_uint d.
Proof.
  unfold digits_value, N.of_uint.
  induction d as [| d IH | d IH | d IH | d IH | d IH | d IH | d IH | d IH
                  | d IH | d IH];
    cbn [uint_chars List.fold_left Pos.of_uint]; [reflexivity | exact IH | ..];
    rewrite <- digits_value_acc; f_equal.
Qed.

Lemma digits_value_dec_N n : digits_value (dec_N n) = n.
Proof.
  unfold dec_N. rewrite digits_value_uint. apply DecimalN.Unsigned.of_to.
Qed.

(** *** The round trip of a value *)

Lemma match_number_plain (neg : bool) (ip rest : pystr) :
  canonical_int ip -> delimited rest ->
  match_number ((if neg then [45] else []) ++ ip ++ rest)
  = Some (PInt (if neg then (- Z.of_N (digits_value ip))%Z
                else Z.of_N (digits_value ip)), rest).
Proof.
  intros Hip Hrest.
  pose proof (stops_delimited _ Hrest) as Hstop.
  assert (Hexp : match match_exp rest with
                 | Some (e, r) => (Some e, r)
                 | None => (@None Z, rest)
                 end = (None, rest)).
  { rewrite match_exp_none; [reflexivity |].
    destruct rest as [| c r]; [exact I |].
    cbn [delimited] in Hrest. lia. }
  assert (Hfrac : match match_frac rest with
                  | Some (f, r) => (Some f, r)
                  | None => (None, rest)
                  end = (None, rest)).
  { rewrite match_frac_none; [reflexivity |].
    destruct rest as [| c r]; [exact I |].
    cbn [delimited] in Hrest. lia. }
  assert (Hsign : match (if neg then [45] else []) ++ ip ++ rest
                   return bool * pystr with
                  | c :: r =>
                      if c =? 45 return bool * pystr
                      then @pair bool pystr true r
                      else @pair bool pystr false
                             ((if neg then [45] else []) ++ ip ++ rest)
                  | [] => @pair bool pystr false
                            ((if neg then [45] else []) ++ ip ++ rest)
                  end = (neg, ip ++ rest)).
  { destruct neg; [reflexivity |].
    destruct (canonical_head ip Hip) as (c & t & -> & Hc).
    cbn [List.app]. replace (c =? 45) with false; [reflexivity |].
    symmetry. apply N.eqb_neq. lia. }
  pose proof (match_int_part_app ip rest Hip Hstop) as Hint.
  unfold match_number.
  scrutinee Hsign. rewrite Hint. cbv beta iota.
  scrutinee Hfrac. scrutinee Hexp. reflexivity.
Qed.

Lemma match_number_int_exact z rest :
  delimited rest -> match_number (int_repr z ++ rest) = Some (PInt z, rest).
Proof.
  intros Hrest. destruct z as [| p | p].
  - pose proof (match_number_plain false (dec_N 0) rest
                  (canonical_dec_N 0) Hrest) as H.
    rewrite digits_value_dec_N in H. exact H.
  - pose proof (match_number_plain false (dec_N (Npos p)) rest
                  (canonical_dec_N _) Hrest) as H.
    rewrite digits_value_dec_N in H. exact H.
  - pose proof (match_number_plain true (dec_N (Npos p)) rest
                  (canonical_dec_N _) Hrest) as H.
    rewrite digits_value_dec_N in H. exact H.
Qed.

Lemma scan_int_exact f z rest :
  delimited rest ->
  read_value false (S f) (int_repr z ++ rest) = Ok (PInt z) rest.
Proof.
  intros Hrest.
  pose proof (match_number_int_exact z rest Hrest) as Hm.
  destruct (int_repr_head z rest) as (c & r & E & Hc).
  rewrite E in *. apply scan_number; assumption.
Qed.

Lemma scan_string_exact f s rest :
  scalar_text s = true ->
  read_value false (S f) (encode_string s ++ rest) = Ok (PStr s) rest.
Proof.
  intros Hs. unfold encode_string. cbn [List.app].
  rewrite <- List.app_assoc.
  rewrite !scan_once_S; cbn [List.app]; limits.
  change (34 =? 34) with true.
  cbv iota.
  rewrite (scanstring_exact _ s rest Hs). reflexivity.
Qed.

Lemma parse_pairs_step_exact k v X :
  scalar_text k = true ->
  forall f acc,
    read_pairs false (S f)
      (34 :: List.flat_map escape_char k ++ 34 :: 58 :: 32 :: dumps v ++ X)
      acc
    = match read_value false f (dumps v ++ X) with
      | Ok v' s2 =>
          match skip_ws s2 with
          | c2 :: r2 =>
              if c2 =? 125 then Ok (dict_store acc k v') r2
              else if c2 =? 44 then
                read_pairs false f (skip_ws r2) (dict_store acc k v')
              else Err (lit "Expecting ',' delimiter")
                       (List.length (c2 :: r2))
          | [] => Err (lit "Expecting ',' delimiter") 0
          end
      | Err msg n => Err msg n
      | NoFuel => NoFuel
      | Fail e => Fail e
      end.
Proof.
  intros Hk f acc.
  rewrite !parse_pairs_S; limits. change (34 =? 34) with true. cbv beta iota.
  rewrite (scanstring_exact _ k _ Hk).
  cbv beta iota. rewrite skip_ws_head by reflexivity.
  change (58 =? 58) with true. cbv beta iota.
  rewrite skip_ws_space, skip_ws_dumps. reflexivity.
Qed.

Lemma items_read_back items :
  Forall reads_back items -> items <> [] ->
  forall rest acc,
  exists f,
    read_items false f (items_text items ++ 93 :: rest) acc
    = Ok (acc ++ items) rest.
Proof.
  induction items as [| x items IH]; [congruence |].
  intros HP _ rest acc.
  inversion HP as [| ? ? Hx Hitems]; subst.
  destruct items as [| y items].
  - destruct (Hx (93 :: rest)) as (f & Hs); [right; left; reflexivity |].
    exists (S f).
    rewrite items_text_one. rewrite !parse_items_S; limits. rewrite Hs.
    cbv beta iota zeta. rewrite skip_ws_head by reflexivity.
    change (93 =? 93) with true. reflexivity.
  - destruct (Hx (44 :: 32 :: (items_text (y :: items) ++ 93 :: rest)))
      as (f1 & Hs); [left; reflexivity |].
    destruct (IH Hitems ltac:(discriminate) rest (acc ++ [x])) as (f2 & Hi).
    exists (S (Nat.max f1 f2)).
    rewrite items_text_more. rewrite !parse_items_S; limits.
    rewrite (scan_once_le _ _ _ _ _ _ _ _ Hs (Nat.le_max_l f1 f2)).
    cbv beta iota zeta. rewrite skip_ws_head by reflexivity.
    change (44 =? 93) with false. change (44 =? 44) with true.
    cbv beta iota. rewrite skip_ws_space.
    destruct (items_text_head y items (93 :: rest)) as (c & r & E & Hws & _).
    rewrite E in *. rewrite (skip_ws_head c r Hws).
    rewrite (parse_items_le _ _ _ _ _ _ _ _ _ Hi (Nat.le_max_r f1 f2)).
    rewrite <- List.app_assoc. reflexivity.
Qed.

Lemma pairs_read_back items :
  Forall (fun kv => scalar_text (fst kv) = true /\ reads_back (snd kv))
    items ->
  items <> [] ->
  forall rest acc,
  exists f,
    read_pairs false f (pairs_text items ++ 125 :: rest) acc
    = Ok (List.fold_left (fun d kv => dict_store d (fst kv) (snd kv))
            items acc) rest.
Proof.
  induction items as [| [k v] items IH]; [congruence |].
  intros HP _ rest acc.
  inversion HP as [| ? ? Hx Hitems]; subst. cbn [fst snd] in Hx.
  destruct Hx as [Hk Hv].
  destruct items as [| kv items].
  - destruct (Hv (125 :: rest)) as (f & Hs); [right; right; reflexivity |].
    exists (S f).
    rewrite pairs_text_one, (parse_pairs_step_exact k v _ Hk), Hs.
    rewrite skip_ws_head by reflexivity.
    change (125 =? 125) with true. reflexivity.
  - set (X := pairs_text (kv :: items) ++ 125 :: rest).
    destruct (Hv (44 :: 32 :: X)) as (f1 & Hs); [left; reflexivity |].
    destruct (IH Hitems ltac:(discriminate) rest (dict_store acc k v))
      as (f2 & Hp).
    fold X in Hp.
    exists (S (Nat.max f1 f2)).
    rewrite pairs_text_more. fold X.
    rewrite (parse_pairs_step_exact k v _ Hk).
    rewrite (scan_once_le _ _ _ _ _ _ _ _ Hs (Nat.le_max_l f1 f2)).
    rewrite skip_ws_head by reflexivity.
    change (44 =? 125) with false. change (44 =? 44) with true.
    cbv beta iota. rewrite skip_ws_space.
    destruct (pairs_text_head kv items (125 :: rest)) as (r & E).
    subst X. rewrite E in *. rewrite skip_ws_head by reflexivity.
    rewrite (parse_pairs_le _ _ _ _ _ _ _ _ _ Hp (Nat.le_max_r f1 f2)).
    reflexivity.
Qed.

(** A key that is new goes to the end of the [dict]. *)
Lemma store_fresh acc k v :
  (forall e, In e (List.map fst acc) -> pystr_eqb e k = false) ->
  dict_store acc k v = acc ++ [(k, v)].
Proof.
  induction acc as [| [k' v'] acc IH]; intros H; [reflexivity |].
  cbn [dict_store List.app].
  rewrite (H k') by (left; reflexivity).
  rewrite IH; [reflexivity |].
  intros e He. apply H. right. exact He.
Qed.

Lemma fold_store_distinct items :
  forall acc,
  (forall e x, In e (List.map fst acc) -> In x (List.map fst items) ->
               pystr_eqb e x = false) ->
  distinct (List.map fst items) = true ->
  List.fold_left (fun d kv => dict_store d (fst kv) (snd kv)) items acc
  = acc ++ items.
Proof.
  induction items as [| [k v] items IH]; intros acc Hacc Hd.
  - cbn [List.fold_left]. rewrite List.app_nil_r. reflexivity.
  - cbn [List.map fst distinct] in Hd. apply andb_true_iff in Hd as [Hk Hd].
    apply negb_true_iff in Hk.
    cbn [List.fold_left fst snd].
    rewrite store_fresh
      by (intros e He; apply Hacc; [exact He | left; reflexivity]).
    rewrite IH; [rewrite <- List.app_assoc; reflexivity | | exact Hd].
    intros e x He Hx. rewrite List.map_app in He.
    apply List.in_app_or in He. destruct He as [He | [<- | []]].
    + apply Hacc; [exact He | right; exact Hx].
    + cbn [fst]. destruct (pystr_eqb k x) eqn:E; [| reflexivity].
      assert (Hex : List.existsb (pystr_eqb k) (List.map fst items) = true)
        by (apply List.existsb_exists; exists x; split; assumption).
      congruence.
Qed.

(** The strict decoder reads back, unchanged, every value without
    floats whose strings hold scalar values and whose objects have
    distinct keys. *)
Lemma dumps_reads_back v : exact_value v = true -> reads_back v.
Proof.
  induction v as [| b | z | x | s | items IH | items IH]
    using pyval_nested_ind; intros Hex rest Hrest.
  - exists 1%nat. apply scan_null.
  - destruct b; exists 1%nat; [apply scan_true | apply scan_false].
  - exists 1%nat. apply scan_int_exact, Hrest.
  - discriminate Hex.
  - exists 1%nat. apply scan_string_exact. exact Hex.
  - cbn [exact_value] in Hex.
    assert (Hall : Forall reads_back items).
    { clear Hrest. induction IH as [| x items Hx _ IHi]; [constructor |].
      cbn [List.forallb] in Hex. apply andb_true_iff in Hex as [H1 H2].
      constructor; [apply Hx, H1 | apply IHi, H2]. }
    rewrite dumps_list_text.
    destruct items as [| x items].
    + exists 1%nat. reflexivity.
    + destruct (items_read_back (x :: items) Hall ltac:(discriminate) rest [])
        as (f & Hi).
      destruct (items_text_head x items (93 :: rest))
        as (c & r & E & Hws & H93).
      rewrite E in *. exists (S f).
      rewrite !scan_once_S; limits. change (91 =? 34) with false.
      change (91 =? 123) with false. change (91 =? 91) with true.
      cbv beta iota. rewrite (skip_ws_head c r Hws).
      replace (c =? 93) with false by (symmetry; apply N.eqb_neq; exact H93).
      rewrite Hi. reflexivity.
  - cbn [exact_value] in Hex. apply andb_true_iff in Hex as [Hd Hex].
    assert (Hall : Forall (fun kv => scalar_text (fst kv) = true
                                     /\ reads_back (snd kv)) items).
    { clear Hrest Hd. induction IH as [| x items Hx _ IHi]; [constructor |].
      cbn [List.forallb] in Hex. apply andb_true_iff in Hex as [H1 H2].
      apply andb_true_iff in H1 as [Hk Hv].
      constructor; [split; [exact Hk | apply Hx, Hv] | apply IHi, H2]. }
    rewrite dumps_dict_text.
    destruct items as [| kv items].
    + exists 1%nat. reflexivity.
    + destruct (pairs_read_back (kv :: items) Hall ltac:(discriminate) rest [])
        as (f & Hp).
      rewrite (fold_store_distinct (kv :: items) []) in Hp;
        [| intros e x [] | exact Hd].
      cbn [List.app] in Hp.
      destruct (pairs_text_head kv items (125 :: rest)) as (r & E).
      rewrite E in *. exists (S f).
      rewrite !scan_once_S; limits. change (123 =? 34) with false.
      change (123 =? 123) with true.
      cbv beta iota. rewrite skip_ws_head by reflexivity.
      change (34 =? 125) with false. cbv beta iota.
      rewrite Hp. reflexivity.
Qed.

Lemma dumps_no_bom v : starts_with_bom (dumps v) = false.
Proof.
  pose proof (printable_dumps v) as Hp.
  destruct (dumps v) as [| c r]; [reflexivity |].
  inversion Hp as [| ? ? Hc _]; subst.
  cbn [starts_with_bom]. apply N.eqb_neq. lia.
Qed.

(** [json.loads(json.dumps(v))] is [v] for such a value, with the three
    names or without them. *)
Lemma loads_dumps_exact v :
  exact_value v = true -> loads false (dumps v) = Some (Returns v).
Proof.
  intros Hex.
  destruct (dumps_reads_back v Hex [] I) as (f & Hs).
  rewrite List.app_nil_r in Hs.
  unfold loads, loads_with. rewrite dumps_no_bom.
  unfold decode_with. cbv beta zeta.
  pose proof (skip_ws_dumps v []) as Hws. rewrite List.app_nil_r in Hws.
  rewrite Hws.
  rewrite (with_enough_fuel false Unlimited f (loads_fuel (dumps v)) Unlimited
             (dumps v) v [] Hs)
    by (unfold loads_fuel; lia).
  reflexivity.
Qed.

(** *** White space after a value

    What the decoder reads in a text it reads in the text followed by a
    character of white space, which is left over. *)

Lemma ws_not_digit c : is_ws c = true -> is_digit c = false.
Proof.
  unfold is_ws. intros H.
  repeat (apply orb_true_iff in H; destruct H as [H | H]);
    apply N.eqb_eq in H; subst c; reflexivity.
Qed.

Lemma ws_cases c : is_ws c = true -> c = 32 \/ c = 9 \/ c = 10 \/ c = 13.
Proof.
  unfold is_ws. intros H.
  repeat (apply orb_true_iff in H; destruct H as [H | H]);
    apply N.eqb_eq in H; auto.
Qed.

Lemma skip_ws_ext s c :
  is_ws c = true ->
  match skip_ws s with
  | [] => skip_ws (s ++ [c]) = []
  | x :: r => skip_ws (s ++ [c]) = x :: r ++ [c]
  end.
Proof.
  intros Hc. induction s as [| x s IH]; cbn [List.app skip_ws].
  - rewrite Hc. reflexivity.
  - destruct (is_ws x); [exact IH | reflexivity].
Qed.

Lemma span_digits_ext s c ds rest :
  is_digit c = false ->
  span_digits s = (ds, rest) ->
  span_digits (s ++ [c]) = (ds, rest ++ [c]).
Proof.
  intros Hc. revert ds rest.
  induction s as [| x s IH]; intros ds rest H; cbn [List.app span_digits] in *.
  - rewrite Hc. inversion H; subst. reflexivity.
  - destruct (is_digit x).
    + destruct (span_digits s) as [ds' rest'].
      rewrite (IH _ _ eq_refl). inversion H; subst. reflexivity.
    + inversion H; subst. reflexivity.
Qed.

Lemma strip_prefix_ext word s c r :
  strip_prefix word s = Some r ->
  strip_prefix word (s ++ [c]) = Some (r ++ [c]).
Proof.
  revert s. induction word as [| w word IH]; intros s H;
    cbn [strip_prefix] in *.
  - inversion H; subst. reflexivity.
  - destruct s as [| x s]; [discriminate |]. cbn [List.app].
    destruct (w =? x); [apply IH, H | discriminate].
Qed.

Lemma strip_prefix_ext_none word s c :
  Forall (fun w => (w =? c) = false) word ->
  strip_prefix word s = None ->
  strip_prefix word (s ++ [c]) = None.
Proof.
  intros Hw. revert s. induction Hw as [| w word Hwc _ IH]; intros s H;
    cbn [strip_prefix] in *.
  - discriminate.
  - destruct s as [| x s]; cbn [List.app].
    + rewrite Hwc. reflexivity.
    + destruct (w =? x); [apply IH, H | reflexivity].
Qed.

Lemma match_constant_ext allow s c :
  is_ws c = true ->
  match_constant allow (s ++ [c])
  = match match_constant allow s with
    | Some (p, r) => Some (p, r ++ [c])
    | None => None
    end.
Proof.
  intros Hc. unfold match_constant.
  assert (Hw : forall word,
             Forall (fun w => is_ws w = false) word ->
             Forall (fun w => (w =? c) = false) word).
  { intros word. apply Forall_impl. intros w Hwf.
    destruct (N.eqb_spec w c) as [-> |]; [congruence | reflexivity]. }
  destruct (strip_prefix (lit "null") s) eqn:E1;
    [rewrite (strip_prefix_ext _ _ c _ E1); reflexivity |].
  rewrite (strip_prefix_ext_none _ s c (Hw (lit "null") ltac:(repeat constructor)) E1).
  destruct (strip_prefix (lit "true") s) eqn:E2;
    [rewrite (strip_prefix_ext _ _ c _ E2); reflexivity |].
  rewrite (strip_prefix_ext_none _ s c (Hw (lit "true") ltac:(repeat constructor)) E2).
  destruct (strip_prefix (lit "false") s) eqn:E3;
    [rewrite (strip_prefix_ext _ _ c _ E3); reflexivity |].
  rewrite (strip_prefix_ext_none _ s c (Hw (lit "false") ltac:(repeat constructor)) E3).
  destruct allow; [| reflexivity].
  destruct (strip_prefix (lit "NaN") s) eqn:E4;
    [rewrite (strip_prefix_ext _ _ c _ E4); reflexivity |].
  rewrite (strip_prefix_ext_none _ s c (Hw (lit "NaN") ltac:(repeat constructor)) E4).
  destruct (strip_prefix (lit "Infinity") s) eqn:E5;
    [rewrite (strip_prefix_ext _ _ c _ E5); reflexivity |].
  rewrite (strip_prefix_ext_none _ s c (Hw (lit "Infinity") ltac:(repeat constructor)) E5).
  destruct (strip_prefix (lit "-Infinity") s) eqn:E6;
    [rewrite (strip_prefix_ext _ _ c _ E6); reflexivity |].
  rewrite (strip_prefix_ext_none _ s c (Hw (lit "-Infinity") ltac:(repeat constructor)) E6).
  reflexivity.
Qed.

Lemma match_int_part_ext s c ip rest :
  is_digit c = false ->
  match_int_part s = Some (ip, rest) ->
  match_int_part (s ++ [c]) = Some (ip, rest ++ [c]).
Proof.
  intros Hc H. destruct s as [| x s]; [discriminate |].
  cbn [List.app match_int_part] in *.
  destruct ((49 <=? x) && (x <=? 57)).
  - destruct (span_digits s) as [ds r] eqn:E.
    rewrite (span_digits_ext s c ds r Hc E). inversion H; subst. reflexivity.
  - destruct (x =? 48); inversion H; subst; reflexivity.
Qed.

Lemma match_frac_ext s c :
  is_ws c = true ->
  match_frac (s ++ [c])
  = match match_frac s with
    | Some (fp, r) => Some (fp, r ++ [c])
    | None => None
    end.
Proof.
  intros Hc. pose proof (ws_not_digit c Hc) as Hd.
  destruct s as [| x [| d s]]; cbn [List.app match_frac].
  - reflexivity.
  - rewrite Hd, andb_false_r. reflexivity.
  - destruct ((x =? 46) && is_digit d); [| reflexivity].
    destruct (span_digits (d :: s)) as [fp r] eqn:E.
    change (d :: s ++ [c]) with ((d :: s) ++ [c]).
    rewrite (span_digits_ext (d :: s) c fp r Hd E). reflexivity.
Qed.

Lemma match_exp_ext s c :
  is_ws c = true ->
  match_exp (s ++ [c])
  = match match_exp s with
    | Some (e, r) => Some (e, r ++ [c])
    | None => None
    end.
Proof.
  intros Hc. pose proof (ws_not_digit c Hc) as Hd.
  destruct s as [| x r].
  - destruct (ws_cases c Hc) as [-> | [-> | [-> | ->]]]; reflexivity.
  - cbn [List.app match_exp].
    destruct ((x =? 101) || (x =? 69)); [| reflexivity].
    destruct r as [| sg r'].
    + destruct (ws_cases c Hc) as [-> | [-> | [-> | ->]]]; reflexivity.
    + cbn [List.app].
      destruct (sg =? 45).
      * destruct (span_digits r') as [ds rest] eqn:E.
        rewrite (span_digits_ext r' c ds rest Hd E).
        destruct ds; reflexivity.
      * destruct (sg =? 43).
        -- destruct (span_digits r') as [ds rest] eqn:E.
           rewrite (span_digits_ext r' c ds rest Hd E).
           destruct ds; reflexivity.
        -- destruct (span_digits (sg :: r')) as [ds rest] eqn:E.
           change (sg :: r' ++ [c]) with ((sg :: r') ++ [c]).
           rewrite (span_digits_ext (sg :: r') c ds rest Hd E).
           destruct ds; reflexivity.
Qed.

Lemma match_number_ext s c v rest :
  is_ws c = true ->
  match_number s = Some (v, rest) ->
  match_number (s ++ [c]) = Some (v, rest ++ [c]).
Proof.
  intros Hc H. pose proof (ws_not_digit c Hc) as Hd.
  assert (Hstep : forall neg s1,
             match match_int_part s1 with
             | None => None
             | Some (ip, s2) =>
                 let '(fp, s3) :=
                   match match_frac s2 with
                   | Some (fp, r) => (Some fp, r)
                   | None => (None, s2)
                   end in
                 let '(ex, s4) :=
                   match match_exp s3 with
                   | Some (e, r) => (Some e, r)
                   | None => (None, s3)
                   end in
                 match fp, ex with
                 | None, None =>
                     let n := Z.of_N (digits_value ip) in
                     Some (PInt (if neg then (- n)%Z else n), s4)
                 | _, _ =>
                     let fd := match fp with Some f => f | None => [] end in
                     let e := match ex with Some e => e | None => 0%Z end in
                     Some (PFloat (PyFloat.of_decimal neg
                                     (digits_value (ip ++ fd))
                                     (e - Z.of_nat (List.length fd))), s4)
                 end
             end = Some (v, rest) ->
             match match_int_part (s1 ++ [c]) with
             | None => None
             | Some (ip, s2) =>
                 let '(fp, s3) :=
                   match match_frac s2 with
                   | Some (fp, r) => (Some fp, r)
                   | None => (None, s2)
                   end in
                 let '(ex, s4) :=
                   match match_exp s3 with
                   | Some (e, r) => (Some e, r)
                   | None => (None, s3)
                   end in
                 match fp, ex with
                 | None, None =>
                     let n := Z.of_N (digits_value ip) in
                     Some (PInt (if neg then (- n)%Z else n), s4)
                 | _, _ =>
                     let fd := match fp with Some f => f | None => [] end in
                     let e := match ex with Some e => e | None => 0%Z end in
                     Some (PFloat (PyFloat.of_decimal neg
                                     (digits_value (ip ++ fd))
                                     (e - Z.of_nat (List.length fd))), s4)
                 end
             end = Some (v, rest ++ [c])).
  { intros neg s1 H1.
    destruct (match_int_part s1) as [[ip s2] |] eqn:Ei; [| discriminate].
    rewrite (match_int_part_ext s1 c ip s2 Hd Ei).
    rewrite (match_frac_ext s2 c Hc).
    destruct (match_frac s2) as [[fp r] |].
    - rewrite (match_exp_ext r c Hc).
      destruct (match_exp r) as [[e r'] |]; inversion H1; reflexivity.
    - rewrite (match_exp_ext s2 c Hc).
      destruct (match_exp s2) as [[e r'] |]; inversion H1; reflexivity. }
  unfold match_number in H |- *.
  destruct s as [| x r]; [discriminate H |].
  cbn [List.app]. cbv beta iota in H |- *.
  destruct (x =? 45).
  - exact (Hstep true r H).
  - exact (Hstep false (x :: r) H).
Qed.

Lemma cons_char_inv c r s rest :
  cons_char c r = Ok s rest -> exists s', r = Ok s' rest /\ s = c :: s'.
Proof.
  destruct r; cbn [cons_char]; intros H; try discriminate.
  inversion H; subst. eauto.
Qed.

Ltac ext_step IH start' c Hc H Hn :=
  apply cons_char_inv in H;
  let s' := fresh "s'" in
  let H' := fresh "H'" in
  destruct H as (s' & H & ->);
  match type of H with
  | scanstring ?st ?s0 = Ok _ _ =>
      pose proof (IH st start' s0 c _ _
                    ltac:(cbn [List.length] in Hn |- *; lia) Hc H) as H'
  end;
  cbn [List.app] in H'; rewrite H'; reflexivity.

Lemma scanstring_ext_aux n :
  forall start start' s c str rest,
    (List.length s <= n)%nat ->
    is_ws c = true ->
    scanstring start s = Ok str rest ->
    scanstring start' (s ++ [c]) = Ok str (rest ++ [c]).
Proof.
  induction n as [| n IH]; intros start start' s c str rest Hn Hc H.
  - destruct s; [discriminate | cbn [List.length] in Hn; lia].
  - destruct s as [| x r]; [discriminate |].
    cbn [scanstring] in H. cbn [List.app scanstring].
    destruct (x =? 34); [inversion H; subst; reflexivity |].
    destruct (x =? 92).
    2: { destruct (x <=? 31); [discriminate |].
         ext_step IH start' c Hc H Hn. }
    destruct r as [| e r1]; [discriminate |]. cbn [List.app].
    destruct (e =? 117).
    2: { destruct (unescape e); [| discriminate].
         ext_step IH start' c Hc H Hn. }
    destruct r1 as [| h1 [| h2 [| h3 [| h4 [| b r2]]]]]; try discriminate.
    cbn [List.app].
    destruct (hex4 h1 h2 h3 h4) as [u |]; [| discriminate].
    destruct r2 as [| u' [| g1 [| g2 [| g3 [| g4 [| y r3]]]]]];
      cbn [List.app].
    + ext_step IH start' c Hc H Hn.
    + ext_step IH start' c Hc H Hn.
    + ext_step IH start' c Hc H Hn.
    + ext_step IH start' c Hc H Hn.
    + ext_step IH start' c Hc H Hn.
    + destruct (is_high_surrogate u && (b =? 92) && (u' =? 117)) eqn:T.
      * apply andb_true_iff in T as [T T2]. apply andb_true_iff in T as [_ T1].
        apply N.eqb_eq in T1, T2. subst b u'.
        apply cons_char_inv in H. destruct H as (s' & H & _).
        cbv in H. discriminate H.
      * ext_step IH start' c Hc H Hn.
    + destruct (is_high_surrogate u && (b =? 92) && (u' =? 117)).
      * destruct (hex4 g1 g2 g3 g4) as [u2 |]; [| discriminate].
        destruct (is_low_surrogate u2); ext_step IH start' c Hc H Hn.
      * ext_step IH start' c Hc H Hn.
Qed.

Lemma scanstring_ext start start' s c str rest :
  is_ws c = true ->
  scanstring start s = Ok str rest ->
  scanstring start' (s ++ [c]) = Ok str (rest ++ [c]).
Proof. apply (scanstring_ext_aux (List.length s)). lia. Qed.

Lemma cons_char_fail c r e : cons_char c r = Fail e -> r = Fail e.
Proof. destruct r; cbn [cons_char]; intros H; congruence. Qed.

Lemma scanstring_no_fail_aux n :
  forall start s e, (List.length s <= n)%nat -> scanstring start s <> Fail e.
Proof.
  induction n as [| n IH]; intros start s e Hn H.
  - destruct s; [discriminate | cbn [List.length] in Hn; lia].
  - destruct s as [| c r]; [discriminate |].
    cbn [scanstring] in H. cbn [List.length] in *.
    repeat match type of H with
           | cons_char _ (scanstring _ ?s') = Fail _ =>
               apply cons_char_fail in H; apply IH in H;
               [exact H | cbn [List.length] in *; lia]
           | Ok _ _ = Fail _ => discriminate H
           | Err _ _ = Fail _ => discriminate H
           | context [match ?x with _ => _ end] =>
               destruct x; cbn [List.length] in *
           end.
Qed.

(** The scanner of strings raises no error of its own. *)
Lemma scanstring_no_fail start s e : scanstring start s <> Fail e.
Proof. apply (scanstring_no_fail_aux (List.length s)). lia. Qed.

Section Blank.

Variable allow : bool.
Variable digits : limit.

Lemma scan_once_nil f depth :
  scan_once allow digits f depth [] = NoFuel
  \/ exists msg n, scan_once allow digits f depth [] = Err msg n.
Proof. destruct f; [left | right; eexists; eexists]; reflexivity. Qed.

Lemma parse_pairs_nil f depth acc :
  parse_pairs allow digits f depth [] acc = NoFuel
  \/ exists msg n, parse_pairs allow digits f depth [] acc = Err msg n.
Proof. destruct f; [left | right; eexists; eexists]; reflexivity. Qed.

Lemma parse_items_nil f depth acc :
  parse_items allow digits f depth [] acc = NoFuel
  \/ exists msg n, parse_items allow digits f depth [] acc = Err msg n.
Proof.
  destruct f as [| f]; [left; reflexivity |]. rewrite parse_items_S.
  destruct (scan_once_nil f depth) as [E | (msg & n & E)]; rewrite E.
  - left. reflexivity.
  - right. eexists. eexists. reflexivity.
Qed.

Ltac no_value H :=
  exfalso;
  match type of H with
  | scan_once _ _ ?f ?d [] = _ =>
      destruct (scan_once_nil f d) as [?E | (? & ? & ?E)]; congruence
  | parse_pairs _ _ ?f ?d [] ?a = _ =>
      destruct (parse_pairs_nil f d a) as [?E | (? & ? & ?E)]; congruence
  | parse_items _ _ ?f ?d [] ?a = _ =>
      destruct (parse_items_nil f d a) as [?E | (? & ? & ?E)]; congruence
  end.

Variable c : N.
Hypothesis Hc : is_ws c = true.

(** A character of white space after the text stays after the value
    read. *)
Lemma scan_ext f :
  (forall depth s v rest,
      scan_once allow digits f depth s = Ok v rest ->
      scan_once allow digits f depth (s ++ [c]) = Ok v (rest ++ [c]))
  /\ (forall depth s acc d rest,
        parse_pairs allow digits f depth s acc = Ok d rest ->
        parse_pairs allow digits f depth (s ++ [c]) acc
        = Ok d (rest ++ [c]))
  /\ (forall depth s acc l rest,
        parse_items allow digits f depth s acc = Ok l rest ->
        parse_items allow digits f depth (s ++ [c]) acc
        = Ok l (rest ++ [c])).
Proof.
  induction f as [| f (IHv & IHp & IHi)].
  - split; [| split]; intros; discriminate.
  - split; [| split].
    + intros depth s v rest H. destruct s as [| x r]; [discriminate |].
      rewrite scan_once_S in H. cbn [List.app]. rewrite scan_once_S.
      cbv beta iota in H |- *.
      destruct (x =? 34).
      { destruct (scanstring (List.length (x :: r)) r) as [str r0 | | |] eqn:E;
          try discriminate.
        rewrite (scanstring_ext _ (List.length (x :: r ++ [c])) r c str r0
                   Hc E).
        inversion H; subst. reflexivity. }
      destruct (x =? 123).
      { destruct (enter depth) as [inner |]; [| discriminate].
        pose proof (skip_ws_ext r c Hc) as Hs.
        destruct (skip_ws r) as [| c' r']; [discriminate |]. rewrite Hs.
        destruct (c' =? 125); [inversion H; subst; reflexivity |].
        destruct (parse_pairs allow digits f inner (c' :: r') [])
          as [d r0 | | |] eqn:E; try discriminate.
        change (c' :: r' ++ [c]) with ((c' :: r') ++ [c]).
        rewrite (IHp _ _ _ _ _ E). inversion H; subst. reflexivity. }
      destruct (x =? 91).
      { destruct (enter depth) as [inner |]; [| discriminate].
        pose proof (skip_ws_ext r c Hc) as Hs.
        destruct (skip_ws r) as [| c' r']; [discriminate |]. rewrite Hs.
        destruct (c' =? 93); [inversion H; subst; reflexivity |].
        destruct (parse_items allow digits f inner (c' :: r') [])
          as [l r0 | | |] eqn:E; try discriminate.
        change (c' :: r' ++ [c]) with ((c' :: r') ++ [c]).
        rewrite (IHi _ _ _ _ _ E). inversion H; subst. reflexivity. }
      change (x :: r ++ [c]) with ((x :: r) ++ [c]).
      rewrite (match_constant_ext allow (x :: r) c Hc).
      destruct (match_constant allow (x :: r)) as [[p r0] |];
        [inversion H; subst; reflexivity |].
      destruct (match_number (x :: r)) as [[v0 r0] |] eqn:E;
        [| discriminate].
      rewrite (match_number_ext _ c _ _ Hc E).
      destruct (int_conversion_error digits v0); [discriminate |].
      inversion H; subst. reflexivity.
    + intros depth s acc d rest H. destruct s as [| x r]; [discriminate |].
      rewrite parse_pairs_S in H. cbn [List.app]. rewrite parse_pairs_S.
      cbv beta iota in H |- *.
      destruct (x =? 34); [| discriminate].
      destruct (scanstring (List.length (x :: r)) r) as [key s1 | | |] eqn:E;
        try discriminate.
      rewrite (scanstring_ext _ (List.length (x :: r ++ [c])) r c key s1
                 Hc E).
      pose proof (skip_ws_ext s1 c Hc) as Hs1.
      destruct (skip_ws s1) as [| c1 r1]; [discriminate |]. rewrite Hs1.
      destruct (c1 =? 58); [| discriminate].
      pose proof (skip_ws_ext r1 c Hc) as Hs2.
      destruct (scan_once allow digits f depth (skip_ws r1))
        as [v s2 | | |] eqn:Ev; try discriminate.
      destruct (skip_ws r1) as [| c2 r2]; [no_value Ev |].
      rewrite Hs2. change (c2 :: r2 ++ [c]) with ((c2 :: r2) ++ [c]).
      rewrite (IHv _ _ _ _ Ev). cbv beta iota zeta in H |- *.
      pose proof (skip_ws_ext s2 c Hc) as Hs3.
      destruct (skip_ws s2) as [| c3 r3]; [discriminate |]. rewrite Hs3.
      destruct (c3 =? 125); [inversion H; subst; reflexivity |].
      destruct (c3 =? 44); [| discriminate].
      pose proof (skip_ws_ext r3 c Hc) as Hs4.
      destruct (skip_ws r3) as [| c4 r4]; [no_value H |].
      rewrite Hs4. change (c4 :: r4 ++ [c]) with ((c4 :: r4) ++ [c]).
      apply IHp, H.
    + intros depth s acc l rest H.
      rewrite parse_items_S in H. rewrite parse_items_S.
      destruct (scan_once allow digits f depth s) as [v s1 | | |] eqn:Ev;
        try discriminate.
      rewrite (IHv _ _ _ _ Ev). cbv beta iota zeta in H |- *.
      pose proof (skip_ws_ext s1 c Hc) as Hs1.
      destruct (skip_ws s1) as [| c1 r1]; [discriminate |]. rewrite Hs1.
      destruct (c1 =? 93); [inversion H; subst; reflexivity |].
      destruct (c1 =? 44); [| discriminate].
      pose proof (skip_ws_ext r1 c Hc) as Hs2.
      destruct (skip_ws r1) as [| c2 r2]; [no_value H |].
      rewrite Hs2. change (c2 :: r2 ++ [c]) with ((c2 :: r2) ++ [c]).
      apply IHi, H.
Qed.

(** And the error of a limit is raised all the same. *)
Lemma scan_ext_fail f :
  (forall depth s e,
      scan_once allow digits f depth s = Fail e ->
      scan_once allow digits f depth (s ++ [c]) = Fail e)
  /\ (forall depth s acc e,
        parse_pairs allow digits f depth s acc = Fail e ->
        parse_pairs allow digits f depth (s ++ [c]) acc = Fail e)
  /\ (forall depth s acc e,
        parse_items allow digits f depth s acc = Fail e ->
        parse_items allow digits f depth (s ++ [c]) acc = Fail e).
Proof.
  induction f as [| f (IHv & IHp & IHi)].
  - split; [| split]; intros; discriminate.
  - destruct (scan_ext f) as (Ev & Ep & Ei).
    split; [| split].
    + intros depth s e H. destruct s as [| x r]; [discriminate |].
      rewrite scan_once_S in H. cbn [List.app]. rewrite scan_once_S.
      cbv beta iota in H |- *.
      destruct (x =? 34).
      { destruct (scanstring (List.length (x :: r)) r) as [str r0 | | |] eqn:E;
          try discriminate.
        exfalso. exact (scanstring_no_fail _ _ _ E). }
      destruct (x =? 123).
      { destruct (enter depth) as [inner |]; [| exact H].
        pose proof (skip_ws_ext r c Hc) as Hs.
        destruct (skip_ws r) as [| c' r']; [discriminate |]. rewrite Hs.
        destruct (c' =? 125); [discriminate |].
        destruct (parse_pairs allow digits f inner (c' :: r') [])
          as [d r0 | | |] eqn:E; try discriminate.
        change (c' :: r' ++ [c]) with ((c' :: r') ++ [c]).
        rewrite (IHp _ _ _ _ E). exact H. }
      destruct (x =? 91).
      { destruct (enter depth) as [inner |]; [| exact H].
        pose proof (skip_ws_ext r c Hc) as Hs.
        destruct (skip_ws r) as [| c' r']; [discriminate |]. rewrite Hs.
        destruct (c' =? 93); [discriminate |].
        destruct (parse_items allow digits f inner (c' :: r') [])
          as [l r0 | | |] eqn:E; try discriminate.
        change (c' :: r' ++ [c]) with ((c' :: r') ++ [c]).
        rewrite (IHi _ _ _ _ E). exact H. }
      change (x :: r ++ [c]) with ((x :: r) ++ [c]).
      rewrite (match_constant_ext allow (x :: r) c Hc).
      destruct (match_constant allow (x :: r)) as [[p r0] |];
        [discriminate |].
      destruct (match_number (x :: r)) as [[v0 r0] |] eqn:E;
        [| discriminate].
      rewrite (match_number_ext _ c _ _ Hc E).
      destruct (int_conversion_error digits v0); [exact H | discriminate].
    + intros depth s acc e H. destruct s as [| x r]; [discriminate |].
      rewrite parse_pairs_S in H. cbn [List.app]. rewrite parse_pairs_S.
      cbv beta iota in H |- *.
      destruct (x =? 34); [| discriminate].
      destruct (scanstring (List.length (x :: r)) r) as [key s1 | | |] eqn:E;
        try discriminate;
        [| exfalso; exact (scanstring_no_fail _ _ _ E)].
      rewrite (scanstring_ext _ (List.length (x :: r ++ [c])) r c key s1
                 Hc E).
      pose proof (skip_ws_ext s1 c Hc) as Hs1.
      destruct (skip_ws s1) as [| c1 r1]; [discriminate |]. rewrite Hs1.
      destruct (c1 =? 58); [| discriminate].
      pose proof (skip_ws_ext r1 c Hc) as Hs2.
      destruct (scan_once allow digits f depth (skip_ws r1))
        as [v s2 | | |] eqn:Es; try discriminate.
      * destruct (skip_ws r1) as [| c2 r2]; [no_value Es |].
        rewrite Hs2. change (c2 :: r2 ++ [c]) with ((c2 :: r2) ++ [c]).
        rewrite (Ev _ _ _ _ Es). cbv beta iota zeta in H |- *.
        pose proof (skip_ws_ext s2 c Hc) as Hs3.
        destruct (skip_ws s2) as [| c3 r3]; [discriminate |]. rewrite Hs3.
        destruct (c3 =? 125); [discriminate |].
        destruct (c3 =? 44); [| discriminate].
        pose proof (skip_ws_ext r3 c Hc) as Hs4.
        destruct (skip_ws r3) as [| c4 r4]; [no_value H |].
        rewrite Hs4. change (c4 :: r4 ++ [c]) with ((c4 :: r4) ++ [c]).
        apply IHp, H.
      * destruct (skip_ws r1) as [| c2 r2]; [no_value Es |].
        rewrite Hs2. change (c2 :: r2 ++ [c]) with ((c2 :: r2) ++ [c]).
        rewrite (IHv _ _ _ Es). exact H.
    + intros depth s acc e H.
      rewrite parse_items_S in H. rewrite parse_items_S.
      destruct (scan_once allow digits f depth s) as [v s1 | | |] eqn:Es;
        try discriminate.
      * rewrite (Ev _ _ _ _ Es). cbv beta iota zeta in H |- *.
        pose proof (skip_ws_ext s1 c Hc) as Hs1.
        destruct (skip_ws s1) as [| c1 r1]; [discriminate |]. rewrite Hs1.
        destruct (c1 =? 93); [discriminate |].
        destruct (c1 =? 44); [| discriminate].
        pose proof (skip_ws_ext r1 c Hc) as Hs2.
        destruct (skip_ws r1) as [| c2 r2]; [no_value H |].
        rewrite Hs2. change (c2 :: r2 ++ [c]) with ((c2 :: r2) ++ [c]).
        apply IHi, H.
      * rewrite (IHv _ _ _ Es). exact H.
Qed.

End Blank.

Lemma scan_once_blank allow digits f depth ws :
  Forall (fun c => is_ws c = true) ws ->
  forall s,
    (forall v rest,
        scan_once allow digits f depth s = Ok v rest ->
        scan_once allow digits f depth (s ++ ws) = Ok v (rest ++ ws))
    /\ (forall e,
          scan_once allow digits f depth s = Fail e ->
          scan_once allow digits f depth (s ++ ws) = Fail e).
Proof.
  induction 1 as [| c ws Hc _ IH]; intros s.
  - rewrite !List.app_nil_r. split; intros; [rewrite List.app_nil_r |];
      assumption.
  - change (c :: ws) with ([c] ++ ws). rewrite !List.app_assoc. split.
    + intros v rest H. rewrite List.app_assoc.
      apply (proj1 (IH (s ++ [c]))).
      apply (proj1 (scan_ext allow digits c Hc f)). exact H.
    + intros e H. apply (proj2 (IH (s ++ [c]))).
      apply (proj1 (scan_ext_fail allow digits c Hc f)). exact H.
Qed.

Lemma skip_ws_app s t :
  skip_ws (s ++ t)
  = match skip_ws s with
    | [] => skip_ws t
    | x :: r => x :: r ++ t
    end.
Proof.
  induction s as [| x s IH]; cbn [List.app skip_ws].
  - destruct (skip_ws t); reflexivity.
  - destruct (is_ws x); [exact IH | reflexivity].
Qed.

Lemma skip_ws_all_blank ws :
  Forall (fun c => is_ws c = true) ws -> skip_ws ws = [].
Proof.
  induction 1 as [| c ws Hc _ IH]; [reflexivity |].
  cbn [skip_ws]. rewrite Hc. exact IH.
Qed.

Lemma blank_before_no_bom ws text :
  Forall (fun c => is_ws c = true) ws ->
  starts_with_bom text = false -> starts_with_bom (ws ++ text) = false.
Proof.
  intros Hws B. destruct Hws as [| c ws Hc _]; [exact B |].
  cbn [List.app starts_with_bom].
  destruct (ws_cases c Hc) as [-> | [-> | [-> | ->]]]; reflexivity.
Qed.

(** A decoder, with limits or without, that returns a value or raises
    the error of a limit on a text does the same when white space is
    added before the text and after it. *)
Lemma loads_with_blank allow digits depth text before after :
  Forall (fun c => is_ws c = true) before ->
  Forall (fun c => is_ws c = true) after ->
  starts_with_bom text = false ->
  match scan_once allow digits (loads_fuel text) depth (skip_ws text) with
  | Ok v rest => skip_ws rest = []
  | Fail e => True
  | _ => False
  end ->
  loads_with allow digits (loads_fuel (before ++ text ++ after)) depth
    (before ++ text ++ after)
  = loads_with allow digits (loads_fuel text) depth text.
Proof.
  intros Hb Ha B H. unfold loads_with.
  rewrite B, (blank_before_no_bom before (text ++ after) Hb).
  2: { destruct text; [destruct Ha as [| c ws Hc _]; [reflexivity |] |
                       exact B].
       cbn [List.app starts_with_bom].
       destruct (ws_cases c Hc) as [-> | [-> | [-> | ->]]]; reflexivity. }
  unfold decode_with. cbv beta zeta.
  rewrite (skip_ws_app before), (skip_ws_all_blank before Hb).
  assert (Hlen : (2 * List.length (skip_ws text ++ after) + 1
                  <= loads_fuel (before ++ text ++ after))%nat).
  { unfold loads_fuel. rewrite !List.length_app.
    pose proof (skip_ws_length text). lia. }
  assert (Hskip : skip_ws text <> [] ->
                  skip_ws (text ++ after) = skip_ws text ++ after).
  { intros Hne. rewrite skip_ws_app.
    destruct (skip_ws text); [contradiction | reflexivity]. }
  destruct (scan_once allow digits (loads_fuel text) depth (skip_ws text))
    as [v rest | | | e] eqn:E; try contradiction.
  - assert (Hne : skip_ws text <> []).
    { intros Hnil. rewrite Hnil in E.
      destruct (scan_once_nil allow digits (loads_fuel text) depth)
        as [E' | (? & ? & E')]; congruence. }
    rewrite (Hskip Hne).
    pose proof (proj1 (scan_once_blank allow digits _ depth after Ha
                         (skip_ws text)) v rest E) as E'.
    rewrite (with_enough_fuel allow digits _ _ _ _ _ _ E' Hlen).
    rewrite skip_ws_app, H, (skip_ws_all_blank after Ha). reflexivity.
  - assert (Hne : skip_ws text <> []).
    { intros Hnil. rewrite Hnil in E.
      destruct (scan_once_nil allow digits (loads_fuel text) depth)
        as [E' | (? & ? & E')]; congruence. }
    rewrite (Hskip Hne).
    pose proof (proj2 (scan_once_blank allow digits _ depth after Ha
                         (skip_ws text)) e E) as E'.
    rewrite (with_enough_fuel_any allow digits _ _ _ _
               ltac:(rewrite E'; discriminate) Hlen).
    rewrite E'. reflexivity.
Qed.

(** *** The limits of the interpreter

    A decoder with limits raises the error of a limit or does what the
    decoder without limits does. *)
Lemma limits_agree allow digits f :
  (forall depth s,
      (exists e, scan_once allow digits f depth s = Fail e)
      \/ scan_once allow digits f depth s
         = read_value allow f s)
  /\ (forall depth s acc,
        (exists e, parse_pairs allow digits f depth s acc = Fail e)
        \/ parse_pairs allow digits f depth s acc
           = read_pairs allow f s acc)
  /\ (forall depth s acc,
        (exists e, parse_items allow digits f depth s acc = Fail e)
        \/ parse_items allow digits f depth s acc
           = read_items allow f s acc).
Proof.
  induction f as [| f (IHv & IHp & IHi)].
  - repeat split; intros; right; reflexivity.
  - split; [| split].
    + intros depth s. rewrite !scan_once_S.
      destruct s as [| c r]; [right; reflexivity |]. cbv beta iota.
      destruct (c =? 34); [right; reflexivity |].
      destruct (c =? 123).
      { change (enter Unlimited) with (Some Unlimited). cbv beta iota.
        destruct (enter depth) as [inner |]; [| left; eexists; reflexivity].
        destruct (skip_ws r) as [| c' r']; [right; reflexivity |].
        destruct (c' =? 125); [right; reflexivity |].
        destruct (IHp inner (c' :: r') []) as [[e He] | He]; rewrite He.
        - left. eexists. reflexivity.
        - right. reflexivity. }
      destruct (c =? 91).
      { change (enter Unlimited) with (Some Unlimited). cbv beta iota.
        destruct (enter depth) as [inner |]; [| left; eexists; reflexivity].
        destruct (skip_ws r) as [| c' r']; [right; reflexivity |].
        destruct (c' =? 93); [right; reflexivity |].
        destruct (IHi inner (c' :: r') []) as [[e He] | He]; rewrite He.
        - left. eexists. reflexivity.
        - right. reflexivity. }
      destruct (match_constant allow (c :: r)) as [[v rest] |];
        [right; reflexivity |].
      destruct (match_number (c :: r)) as [[v rest] |];
        [| right; reflexivity].
      change (int_conversion_error Unlimited v) with (@None pyexc).
      cbv beta iota.
      destruct (int_conversion_error digits v);
        [left; eexists; reflexivity | right; reflexivity].
    + intros depth s acc. rewrite !parse_pairs_S.
      destruct s as [| c r]; [right; reflexivity |]. cbv beta iota.
      destruct (c =? 34); [| right; reflexivity].
      destruct (scanstring (List.length (c :: r)) r) as [key s1 | | |];
        try (right; reflexivity).
      destruct (skip_ws s1) as [| c1 r1]; [right; reflexivity |].
      destruct (c1 =? 58); [| right; reflexivity].
      destruct (IHv depth (skip_ws r1)) as [[e He] | He]; rewrite He;
        [left; eexists; reflexivity |].
      destruct (read_value allow f (skip_ws r1))
        as [v s2 | | |]; try (right; reflexivity).
      cbv beta iota zeta.
      destruct (skip_ws s2) as [| c2 r2]; [right; reflexivity |].
      destruct (c2 =? 125); [right; reflexivity |].
      destruct (c2 =? 44); [| right; reflexivity].
      apply IHp.
    + intros depth s acc. rewrite !parse_items_S.
      destruct (IHv depth s) as [[e He] | He]; rewrite He;
        [left; eexists; reflexivity |].
      destruct (read_value allow f s)
        as [v s1 | | |]; try (right; reflexivity).
      cbv beta iota zeta.
      destruct (skip_ws s1) as [| c1 r1]; [right; reflexivity |].
      destruct (c1 =? 93); [right; reflexivity |].
      destruct (c1 =? 44); [| right; reflexivity].
      apply IHi.
Qed.

(** What [json.load] returns is what the grammar reads. *)
Lemma load_loads depth text v :
  load depth text = Some (Returns v) -> loads true text = Some (Returns v).
Proof.
  unfold load, loads, loads_with.
  destruct (starts_with_bom text); [discriminate |].
  unfold decode_with. cbv beta zeta.
  destruct (proj1 (limits_agree true (AtMost max_str_digits)
                     (loads_fuel text))
              (AtMost depth) (skip_ws text)) as [[e He] | He]; rewrite He.
  - discriminate.
  - auto.
Qed.

(** A text that the grammar reads as a value: [json.load] returns that
    value or raises the error of a limit, and does the same with white
    space around the text. *)
Lemma load_blank depth text before after v :
  Forall (fun c => is_ws c = true) before ->
  Forall (fun c => is_ws c = true) after ->
  loads true text = Some (Returns v) ->
  load depth (before ++ text ++ after) = load depth text.
Proof.
  intros Hb Ha. unfold loads, loads_with.
  destruct (starts_with_bom text) eqn:B; [discriminate |].
  unfold decode_with. cbv beta zeta.
  destruct (read_value true (loads_fuel text)
              (skip_ws text)) as [v0 rest | | |] eqn:E; try discriminate.
  destruct (skip_ws rest) as [| y extra] eqn:R; [| discriminate].
  intros _. apply loads_with_blank; try assumption.
  destruct (proj1 (limits_agree true (AtMost max_str_digits)
                     (loads_fuel text))
              (AtMost depth) (skip_ws text)) as [[e He] | He]; rewrite He.
  - exact I.
  - rewrite E. exact R.
Qed.

(** *** Inputs beyond the limits *)

Lemma match_constant_int allow z rest :
  match_constant allow (int_repr z ++ rest) = None.
Proof.
  assert (Hd : forall n T c r,
             dec_N n ++ T = c :: r -> 48 <= c <= 57).
  { intros n T c r E.
    destruct (canonical_head (dec_N n) (canonical_dec_N n))
      as (c0 & t & E0 & Hc).
    rewrite E0 in E. cbn [List.app] in E. inversion E; subst. exact Hc. }
  assert (Hplain : forall c r,
             48 <= c <= 57 -> match_constant allow (c :: r) = None).
  { intros c r Hc. unfold match_constant.
    change (lit "null") with [110; 117; 108; 108].
    change (lit "true") with [116; 114; 117; 101].
    change (lit "false") with [102; 97; 108; 115; 101].
    change (lit "NaN") with [78; 97; 78].
    change (lit "Infinity") with [73; 110; 102; 105; 110; 105; 116; 121].
    change (lit "-Infinity")
      with [45; 73; 110; 102; 105; 110; 105; 116; 121].
    cbn [strip_prefix].
    replace (110 =? c) with false by (symmetry; apply N.eqb_neq; lia).
    replace (116 =? c) with false by (symmetry; apply N.eqb_neq; lia).
    replace (102 =? c) with false by (symmetry; apply N.eqb_neq; lia).
    replace (78 =? c) with false by (symmetry; apply N.eqb_neq; lia).
    replace (73 =? c) with false by (symmetry; apply N.eqb_neq; lia).
    replace (45 =? c) with false by (symmetry; apply N.eqb_neq; lia).
    destruct allow; reflexivity. }
  destruct z as [| p | p]; cbn [int_repr].
  - destruct (dec_N (Z.to_N 0) ++ rest) as [| c r] eqn:E.
    + exfalso. apply (dec_N_nonempty (Z.to_N 0)).
      destruct (dec_N (Z.to_N 0)); [reflexivity | discriminate E].
    + apply Hplain, (Hd _ _ _ _ E).
  - destruct (dec_N (Z.to_N (Zpos p)) ++ rest) as [| c r] eqn:E.
    + exfalso. apply (dec_N_nonempty (Z.to_N (Zpos p))).
      destruct (dec_N (Z.to_N (Zpos p))); [reflexivity | discriminate E].
    + apply Hplain, (Hd _ _ _ _ E).
  - cbn [List.app].
    destruct (dec_N (Npos p) ++ rest) as [| c r] eqn:E.
    + exfalso. apply (dec_N_nonempty (Npos p)).
      destruct (dec_N (Npos p)); [reflexivity | discriminate E].
    + pose proof (Hd _ _ _ _ E) as Hc. unfold match_constant.
      change (lit "null") with [110; 117; 108; 108].
      change (lit "true") with [116; 114; 117; 101].
      change (lit "false") with [102; 97; 108; 115; 101].
      change (lit "NaN") with [78; 97; 78].
      change (lit "Infinity") with [73; 110; 102; 105; 110; 105; 116; 121].
      change (lit "-Infinity")
        with [45; 73; 110; 102; 105; 110; 105; 116; 121].
      cbn [strip_prefix].
      change (110 =? 45) with false. change (116 =? 45) with false.
      change (102 =? 45) with false. change (78 =? 45) with false.
      change (73 =? 45) with false. change (45 =? 45) with true.
      cbv beta iota.
      replace (73 =? c) with false by (symmetry; apply N.eqb_neq; lia).
      destruct allow; reflexivity.
Qed.

(** The scanner raises the [ValueError] of [int] on the literal of an
    integer of more digits than the limit. *)
Lemma scan_long_integer allow m f depth z rest :
  delimited rest ->
  (m < int_digits z)%nat ->
  exists msg,
    int_conversion_error (AtMost m) (PInt z) = Some (ValueError msg)
    /\ scan_once allow (AtMost m) (S f) depth (int_repr z ++ rest)
       = Fail (ValueError msg).
Proof.
  intros Hrest Hm.
  assert (Hi : exists msg,
             int_conversion_error (AtMost m) (PInt z)
             = Some (ValueError msg)).
  { cbn [int_conversion_error].
    replace (m <? int_digits z)%nat with true
      by (symmetry; apply Nat.ltb_lt; exact Hm).
    eexists. reflexivity. }
  destruct Hi as (msg & Hi). exists msg. split; [exact Hi |].
  pose proof (match_constant_int allow z rest) as Hc.
  pose proof (match_number_int_exact z rest Hrest) as Hn.
  destruct (int_repr_head z rest) as (c & r & E & Hh).
  rewrite E in *. rewrite scan_once_S. cbv beta iota.
  replace (c =? 34) with false by (symmetry; apply N.eqb_neq; lia).
  replace (c =? 123) with false by (symmetry; apply N.eqb_neq; lia).
  replace (c =? 91) with false by (symmetry; apply N.eqb_neq; lia).
  rewrite Hc, Hn, Hi. reflexivity.
Qed.

(** [json.load] on an object whose only member is such an integer. *)
Lemma load_long_integer depth k z :
  scalar_text k = true ->
  (max_str_digits < int_digits z)%nat ->
  exists msg,
    int_conversion_error (AtMost max_str_digits) (PInt z)
    = Some (ValueError msg)
    /\ load (S depth) (dumps (PDict [(k, PInt z)]))
       = Some (Raises (ValueError msg)).
Proof.
  intros Hk Hz.
  set (doc := dumps (PDict [(k, PInt z)])).
  assert (Hdoc : doc
                 = 123 :: 34 :: List.flat_map escape_char k
                     ++ 34 :: 58 :: 32 :: int_repr z ++ [125]).
  { subst doc. cbn [dumps List.map join fst snd]. unfold encode_string.
    change (lit "{") with [123]. change (lit "}") with [125].
    change (lit ": ") with [58; 32].
    cbn [List.app]. rewrite <- !List.app_assoc. reflexivity. }
  assert (Hlen : exists n, List.length doc = S n)
    by (rewrite Hdoc; eexists; reflexivity).
  destruct Hlen as (n & Hlen).
  destruct (scan_long_integer true max_str_digits
              (S (2 * n)) (AtMost depth) z [125]
              ltac:(right; right; reflexivity) Hz) as (msg & Hi & Hs).
  exists msg. split; [exact Hi |].
  unfold load, loads_with, decode_with. cbv beta zeta.
  assert (Hfuel : loads_fuel doc = S (S (S (S (2 * n)))))
    by (unfold loads_fuel; lia).
  assert (Hbom : starts_with_bom doc = false)
    by (rewrite Hdoc; reflexivity).
  assert (Hskip : skip_ws doc
                  = 123 :: 34 :: List.flat_map escape_char k
                      ++ 34 :: 58 :: 32 :: int_repr z ++ [125])
    by (rewrite Hdoc; reflexivity).
  rewrite Hfuel, Hbom, Hskip.
  rewrite scan_once_S. cbv beta iota.
  change (123 =? 34) with false. change (123 =? 123) with true.
  cbn [enter]. cbv beta iota.
  rewrite skip_ws_head by reflexivity.
  change (34 =? 125) with false. cbv beta iota.
  rewrite parse_pairs_S. cbv beta iota.
  change (34 =? 34) with true. cbv beta iota.
  rewrite (scanstring_exact _ k _ Hk). cbv beta iota.
  rewrite skip_ws_head by reflexivity.
  change (58 =? 58) with true. cbv beta iota.
  rewrite skip_ws_space.
  destruct (int_repr_head z [125]) as (c & r & E & Hh).
  assert (Hws : is_ws c = false).
  { unfold is_ws.
    replace (c =? 32) with false by (symmetry; apply N.eqb_neq; lia).
    replace (c =? 9) with false by (symmetry; apply N.eqb_neq; lia).
    replace (c =? 10) with false by (symmetry; apply N.eqb_neq; lia).
    replace (c =? 13) with false by (symmetry; apply N.eqb_neq; lia).
    reflexivity. }
  rewrite E in Hs |- *. rewrite (skip_ws_head c r Hws).
  rewrite Hs. reflexivity.
Qed.

(** One container more than may be entered, whatever follows. *)
Lemma scan_too_deep allow digits d :
  forall f rest,
    (2 * d < f)%nat ->
    scan_once allow digits f (AtMost d) (List.repeat 91 (S d) ++ rest)
    = Fail (too_deep "array").
Proof.
  induction d as [| d IH]; intros f rest Hf.
  - destruct f as [| f]; [lia |].
    rewrite scan_once_S. cbn [List.repeat List.app]. cbv beta iota.
    change (91 =? 34) with false. change (91 =? 123) with false.
    change (91 =? 91) with true. reflexivity.
  - destruct f as [| [| f]]; try lia.
    rewrite scan_once_S.
    change (List.repeat 91 (S (S d)) ++ rest)
      with (91 :: (List.repeat 91 (S d) ++ rest)).
    cbv beta iota.
    change (91 =? 34) with false. change (91 =? 123) with false.
    change (91 =? 91) with true. cbn [enter]. cbv beta iota.
    change (List.repeat 91 (S d) ++ rest)
      with (91 :: (List.repeat 91 d ++ rest)).
    rewrite skip_ws_head by reflexivity.
    change (91 =? 93) with false. cbv beta iota.
    rewrite parse_items_S.
    change (91 :: (List.repeat 91 d ++ rest))
      with (List.repeat 91 (S d) ++ rest).
    rewrite (IH f rest) by lia. reflexivity.
Qed.

Lemma load_too_deep depth rest :
  load depth (List.repeat 91 (S depth) ++ rest)
  = Some (Raises (too_deep "array")).
Proof.
  unfold load, loads_with, decode_with. cbv beta zeta.
  change (List.repeat 91 (S depth) ++ rest)
    with (91 :: (List.repeat 91 depth ++ rest)).
  cbn [starts_with_bom]. change (91 =? 65279) with false. cbv beta iota.
  rewrite skip_ws_head by reflexivity.
  change (91 :: (List.repeat 91 depth ++ rest))
    with (List.repeat 91 (S depth) ++ rest).
  rewrite scan_too_deep; [reflexivity |].
  unfold loads_fuel. rewrite List.length_app, List.repeat_length. lia.
Qed.

(** *** The objects the decoder builds have distinct keys *)

Lemma store_keys_exists (P : pystr -> bool) d k v :
  List.existsb P (List.map fst (dict_store d k v)) = true ->
  List.existsb P (List.map fst d) = true \/ P k = true.
Proof.
  induction d as [| [k' v'] d IH]; cbn [dict_store List.map fst List.existsb].
  - rewrite orb_false_r. auto.
  - destruct (pystr_eqb k' k); cbn [List.map fst List.existsb].
    + auto.
    + intros H. apply orb_true_iff in H. destruct H as [H | H].
      * left. rewrite H. reflexivity.
      * destruct (IH H) as [H' | H']; [left | right; exact H'].
        rewrite H'. apply orb_true_r.
Qed.

Lemma dict_store_distinct d k v :
  distinct (List.map fst d) = true ->
  distinct (List.map fst (dict_store d k v)) = true.
Proof.
  induction d as [| [k' v'] d IH]; cbn [dict_store List.map fst distinct].
  - reflexivity.
  - intros H. apply andb_true_iff in H as [H1 H2].
    destruct (pystr_eqb k' k) eqn:E; cbn [List.map fst distinct].
    + rewrite H1, H2. reflexivity.
    + rewrite (IH H2), andb_true_r. apply negb_true_iff.
      destruct (List.existsb (pystr_eqb k')
                  (List.map fst (dict_store d k v))) eqn:Ex; [| reflexivity].
      apply store_keys_exists in Ex. apply negb_true_iff in H1.
      destruct Ex; congruence.
Qed.

Lemma dict_store_values (P : pyval -> bool) d k v :
  List.forallb (fun kv => P (snd kv)) d = true -> P v = true ->
  List.forallb (fun kv => P (snd kv)) (dict_store d k v) = true.
Proof.
  intros Hd Hv.
  induction d as [| [k' v'] d IH]; cbn [dict_store List.forallb snd] in *.
  - rewrite Hv. reflexivity.
  - apply andb_true_iff in Hd as [H1 H2].
    destruct (pystr_eqb k' k); cbn [List.forallb snd].
    + rewrite Hv, H2. reflexivity.
    + rewrite H1, (IH H2). reflexivity.
Qed.

Lemma dict_store_keys_distinct d k v :
  keys_distinct (PDict d) = true -> keys_distinct v = true ->
  keys_distinct (PDict (dict_store d k v)) = true.
Proof.
  cbn [keys_distinct]. intros Hd Hv. apply andb_true_iff in Hd as [H1 H2].
  rewrite (dict_store_distinct d k v H1).
  exact (dict_store_values keys_distinct d k v H2 Hv).
Qed.

Lemma match_constant_keys allow s v r :
  match_constant allow s = Some (v, r) -> keys_distinct v = true.
Proof.
  unfold match_constant.
  repeat match goal with
         | |- context [strip_prefix ?w s] => destruct (strip_prefix w s)
         | |- context [if allow then _ else _] => destruct allow
         end;
    intros H; inversion H; reflexivity.
Qed.

Lemma match_number_keys s v r :
  match_number s = Some (v, r) -> keys_distinct v = true.
Proof.
  unfold match_number.
  destruct (match s with
            | [] => (false, s)
            | c :: r0 => if c =? 45 then (true, r0) else (false, s)
            end) as [neg s1].
  destruct (match_int_part s1) as [[ip s2] |]; [| discriminate].
  destruct (match match_frac s2 with
            | Some (fp, r0) => (Some fp, r0)
            | None => (None, s2)
            end) as [fp s3].
  destruct (match match_exp s3 with
            | Some (e, r0) => (Some e, r0)
            | None => (None, s3)
            end) as [ex s4].
  destruct fp, ex; intros H; inversion H; reflexivity.
Qed.

Lemma parsed_keys_distinct allow f :
  (forall s v rest, read_value allow f s = Ok v rest ->
                    keys_distinct v = true)
  /\ (forall s acc d rest, read_pairs allow f s acc = Ok d rest ->
                           keys_distinct (PDict acc) = true ->
                           keys_distinct (PDict d) = true)
  /\ (forall s acc l rest, read_items allow f s acc = Ok l rest ->
                           List.forallb keys_distinct acc = true ->
                           List.forallb keys_distinct l = true).
Proof.
  induction f as [| f (IHv & IHp & IHi)].
  - split; [| split]; intros; discriminate.
  - split; [| split].
    + intros s v rest H. destruct s as [| x r]; [discriminate |].
      rewrite !scan_once_S in H; limits in H.
      destruct (x =? 34).
      { destruct (scanstring (List.length (x :: r)) r); try discriminate.
        inversion H; reflexivity. }
      destruct (x =? 123).
      { destruct (skip_ws r) as [| c' r']; [discriminate |].
        destruct (c' =? 125); [inversion H; reflexivity |].
        destruct (read_pairs allow f (c' :: r') []) as [d r0 | | |] eqn:E;
          try discriminate.
        inversion H; subst. exact (IHp _ _ _ _ E eq_refl). }
      destruct (x =? 91).
      { destruct (skip_ws r) as [| c' r']; [discriminate |].
        destruct (c' =? 93); [inversion H; reflexivity |].
        destruct (read_items allow f (c' :: r') []) as [l r0 | | |] eqn:E;
          try discriminate.
        inversion H; subst. exact (IHi _ _ _ _ E eq_refl). }
      destruct (match_constant allow (x :: r)) as [[p r0] |] eqn:Ec.
      { inversion H; subst. exact (match_constant_keys _ _ _ _ Ec). }
      destruct (match_number (x :: r)) as [[v0 r0] |] eqn:En;
        [| discriminate].
      inversion H; subst. exact (match_number_keys _ _ _ En).
    + intros s acc d rest H Hacc. destruct s as [| x r]; [discriminate |].
      rewrite !parse_pairs_S in H; limits in H.
      destruct (x =? 34); [| discriminate].
      destruct (scanstring (List.length (x :: r)) r) as [key s1 | | |];
        try discriminate.
      destruct (skip_ws s1) as [| c1 r1]; [discriminate |].
      destruct (c1 =? 58); [| discriminate].
      destruct (read_value allow f (skip_ws r1)) as [v s2 | | |] eqn:Ev;
        try discriminate.
      cbv beta iota zeta in H.
      pose proof (dict_store_keys_distinct acc key v Hacc (IHv _ _ _ Ev))
        as Hacc'.
      destruct (skip_ws s2) as [| c2 r2]; [discriminate |].
      destruct (c2 =? 125); [inversion H; subst; exact Hacc' |].
      destruct (c2 =? 44); [| discriminate].
      exact (IHp _ _ _ _ H Hacc').
    + intros s acc l rest H Hacc.
      rewrite !parse_items_S in H; limits in H.
      destruct (read_value allow f s) as [v s1 | | |] eqn:Ev; try discriminate.
      cbv beta iota zeta in H.
      assert (Hacc' : List.forallb keys_distinct (acc ++ [v]) = true).
      { rewrite List.forallb_app, Hacc. cbn [List.forallb].
        rewrite (IHv _ _ _ Ev). reflexivity. }
      destruct (skip_ws s1) as [| c1 r1]; [discriminate |].
      destruct (c1 =? 93); [inversion H; subst; exact Hacc' |].
      destruct (c1 =? 44); [| discriminate].
      exact (IHi _ _ _ _ H Hacc').
Qed.

(** Whatever [json.loads] returns has distinct keys in every object. *)
Lemma loads_keys_distinct allow text v :
  loads allow text = Some (Returns v) -> keys_distinct v = true.
Proof.
  unfold loads, loads_with.
  destruct (starts_with_bom text); [discriminate |].
  unfold decode_with. cbv beta zeta.
  destruct (read_value allow (loads_fuel text) (skip_ws text))
    as [v0 rest | | |] eqn:E; try discriminate.
  destruct (skip_ws rest); [| discriminate].
  intros H. inversion H; subst.
  exact (proj1 (parsed_keys_distinct allow _) _ _ _ E).
Qed.

Lemma lookup_keys_distinct d k v :
  keys_distinct (PDict d) = true -> dict_lookup d k = Some v ->
  keys_distinct v = true.
Proof.
  cbn [keys_distinct]. intros H. apply andb_true_iff in H as [_ H].
  induction d as [| [k' v'] d IH]; cbn [dict_lookup]; [discriminate |].
  cbn [List.forallb snd] in H. apply andb_true_iff in H as [H1 H2].
  destruct (pystr_eqb k' k); [congruence | exact (IH H2)].
Qed.

Lemma get_keys_distinct d k default :
  keys_distinct (PDict d) = true -> keys_distinct default = true ->
  keys_distinct (dict_get d k default) = true.
Proof.
  intros Hd Hdef. unfold dict_get.
  destruct (dict_lookup d k) as [v |] eqn:E;
    [exact (lookup_keys_distinct d k v Hd E) | exact Hdef].
Qed.

End JsonValid.

(** ** Further properties of the worker *)

Lemma skip_ws_blank ws :
  Forall (fun c => Json.is_ws c = true) ws -> Json.skip_ws ws = [].
Proof.
  induction 1 as [| c ws Hc _ IH]; [reflexivity |].
  cbn [Json.skip_ws]. rewrite Hc. exact IH.
Qed.

Lemma blank_no_bom ws :
  Forall (fun c => Json.is_ws c = true) ws -> Json.starts_with_bom ws = false.
Proof.
  destruct 1 as [| c ws Hc _]; [reflexivity |].
  cbn [Json.starts_with_bom].
  destruct (c =? 65279) eqn:E; [| reflexivity].
  apply N.eqb_eq in E. subst c. discriminate Hc.
Qed.

Lemma load_of_blank depth ws :
  Forall (fun c => Json.is_ws c = true) ws ->
  Json.load depth ws
  = Some (Raises (JSONDecodeError (lit "Expecting value") ws (List.length ws))).
Proof.
  intros H. unfold Json.load, Json.loads_with.
  rewrite (blank_no_bom ws H). unfold Json.decode_with.
  rewrite (skip_ws_blank ws H). unfold Json.loads_fuel.
  replace (2 * S (List.length ws))%nat with (S (S (2 * List.length ws)))
    by lia.
  rewrite JsonFacts.scan_once_S. cbv beta iota zeta.
  rewrite Nat.sub_0_r. reflexivity.
Qed.

Lemma finite_greeting_result isprintable task input_data :
  finite_value (greeting_result isprintable task input_data)
  = finite_value (dict_get task (lit "taskId") unknown)
    && finite_value (dict_get task (lit "workflowInstanceId") unknown).
Proof.
  unfold greeting_result, completed. cbv zeta.
  cbn [finite_value List.forallb List.map snd].
  rewrite !andb_true_r. reflexivity.
Qed.

Lemma finite_failure_result e : finite_value (failure_result e) = true.
Proof. reflexivity. Qed.


(** ** A valid object in, one line out *)

Section Validity.

Variable isprintable : N -> bool.
Variable encode_error : pystr -> option pystr.
Variable decode_depth : nat.
Hypothesis ascii_encodable : writes_ascii encode_error.

Local Abbreviation run' := (run isprintable encode_error decode_depth).

(** C6, amended. For every standard input that is a syntactically valid
    JSON object the worker writes one line, the text of one result with
    status ["COMPLETED"] or ["FAILED"], and nothing else.  That line is
    a syntactically valid JSON object if and only if the run failed or
    the values of [taskId] and [workflowInstanceId] hold finite numbers
    only: a number too large for a float is read as an infinity and
    written back as [Infinity], which is no JSON. *)
Theorem one_line_valid_unless_infinite text task :
  Json.loads false text = Some (Returns (PDict task)) ->
  exists r,
    run' (Decoded text)
    = Some {| stdout := [Json.dumps r ++ [10]]; exit_status := 0 |}
    /\ ~ In 10 (Json.dumps r)
    /\ (field "status" r = Some (PStr (lit "COMPLETED"))
        \/ field "status" r = Some (PStr (lit "FAILED")))
    /\ (valid_json_object (Json.dumps r)
        <-> field "status" r = Some (PStr (lit "FAILED"))
            \/ (finite_value (dict_get task (lit "taskId") unknown) = true
                /\ finite_value
                     (dict_get task (lit "workflowInstanceId") unknown)
                   = true)).
Proof.
  intros Hstrict.
  pose proof (JsonValid.loads_strict_default _ _ Hstrict) as Hload.
  assert (Hline : forall r, ~ In 10 (Json.dumps r)).
  { intros r Hin. pose proof (printable_dumps r) as Hp.
    unfold printable in Hp. rewrite Forall_forall in Hp.
    specialize (Hp 10 Hin). lia. }
  destruct (run_cases isprintable encode_error decode_depth ascii_encodable
              (Decoded text))
    as [(task' & inp & Hl & _ & Hrun) | (e & Hrun & _)].
  - cbn [load_outcome] in Hl. apply JsonValid.load_loads in Hl.
    assert (task' = task) by congruence. subst task'.
    exists (greeting_result isprintable task inp).
    split; [exact Hrun |]. split; [apply Hline |].
    split; [left; reflexivity |].
    pose proof (finite_greeting_result isprintable task inp) as Hf.
    assert (Hd : exists d, greeting_result isprintable task inp = PDict d)
      by (eexists; reflexivity).
    destruct Hd as (d & Hd).
    assert (Hst : field "status" (greeting_result isprintable task inp)
                  = Some (PStr (lit "COMPLETED"))) by reflexivity.
    rewrite Hd in *. split.
    + intros Hv. right. apply andb_true_iff. rewrite <- Hf.
      destruct (finite_value (PDict d)) eqn:E; [reflexivity |].
      exfalso. exact (JsonValid.dumps_invalid d E Hv).
    + intros [Hfail | Hfin].
      * exfalso. apply status_differs. rewrite <- Hst. exact Hfail.
      * apply JsonValid.dumps_valid. rewrite Hf.
        apply andb_true_iff. exact Hfin.
  - exists (failure_result e).
    split; [exact Hrun |]. split; [apply Hline |].
    split; [right; reflexivity |]. split.
    + intros _. left. reflexivity.
    + intros _.
      apply (JsonValid.dumps_valid
               [ (lit "status", PStr (lit "FAILED"));
                 (lit "reason", PStr (exc_str e));
                 (lit "logs",
                  PList (List.map PStr
                           [lit "Error processing task: " ++ exc_str e])) ]).
      reflexivity.
Qed.

End Validity.

Section Extras.

Variable isprintable : N -> bool.
Variable encode_error : pystr -> option pystr.
Variable decode_depth : nat.
Hypothesis ascii_encodable : writes_ascii encode_error.

Local Abbreviation run' := (run isprintable encode_error decode_depth).
Local Abbreviation load_outcome' := (load_outcome decode_depth).
Local Abbreviation greeting := (greeting_result isprintable).

(** X1. Whatever standard input holds, the line the worker writes is
    printable ASCII: every character of the text of the result lies
    between the space and the tilde, as [json.dumps] escapes all others. *)
Theorem output_is_printable_ascii stdin :
  exists r,
    run' stdin = Some (emitted r) /\ printable (Json.dumps r).
Proof.
  destruct (run_cases isprintable encode_error decode_depth ascii_encodable
              stdin)
    as [(task & inp & _ & _ & Hrun) | (e & Hrun & _)];
    eexists; (split; [exact Hrun | apply printable_dumps]).
Qed.

(** X2. When standard input is a syntactically valid JSON object in
    which the values of [taskId] and [workflowInstanceId] hold finite
    numbers only, the worker writes one line, and that line is a
    syntactically valid JSON object. *)
Theorem valid_object_in_valid_object_out text task :
  Json.loads false text = Some (Returns (PDict task)) ->
  finite_value (dict_get task (lit "taskId") unknown) = true ->
  finite_value (dict_get task (lit "workflowInstanceId") unknown) = true ->
  exists line,
    wrote_line (run' (Decoded text)) line
    /\ valid_json_object line
    /\ (forall line', wrote_line (run' (Decoded text)) line' -> line' = line).
Proof.
  intros Hstrict Htid Hwid.
  pose proof (JsonValid.loads_strict_default _ _ Hstrict) as Hload.
  assert (Hr : exists d,
             run' (Decoded text) = Some (emitted (PDict d))
             /\ finite_value (PDict d) = true).
  { destruct (run_cases isprintable encode_error decode_depth ascii_encodable
                (Decoded text))
      as [(task' & inp & Hl & _ & Hrun) | (e & Hrun & _)].
    - cbn [load_outcome] in Hl. apply JsonValid.load_loads in Hl.
      assert (task' = task) by congruence. subst task'.
      eexists. split; [exact Hrun |].
      change (finite_value (greeting task inp) = true).
      rewrite finite_greeting_result, Htid, Hwid. reflexivity.
    - eexists. split; [exact Hrun | reflexivity]. }
  destruct Hr as (d & Hrun & Hfin).
  exists (Json.dumps (PDict d)). split; [| split].
  - rewrite Hrun. reflexivity.
  - apply JsonValid.dumps_valid, Hfin.
  - intros line' H. rewrite Hrun in H.
    apply wrote_line_emitted in H. exact H.
Qed.


(** X4. Standard input that is empty or holds white space only gives a
    result with status ["FAILED"]: the decoder expects a value at the end
    of the text; for the empty input the reason is
    ["Expecting value: line 1 column 1 (char 0)"]. *)
Theorem blank_input_fails ws :
  Forall (fun c => Json.is_ws c = true) ws ->
  let e := JSONDecodeError (lit "Expecting value") ws (List.length ws) in
  run' (Decoded ws) = Some (emitted (failure_result e))
  /\ field "status" (failure_result e) = Some (PStr (lit "FAILED"))
  /\ (ws = [] ->
      field "reason" (failure_result e)
      = Some (PStr (lit "Expecting value: line 1 column 1 (char 0)"))).
Proof.
  intros H e. split; [| split].
  - apply (run_failure isprintable encode_error decode_depth ascii_encodable).
    left. cbn [load_outcome]. apply load_of_blank, H.
  - reflexivity.
  - intros ->. reflexivity.
Qed.

(** X5. Standard input that starts with a byte order mark gives a result
    with status ["FAILED"] and the reason
    ["Unexpected UTF-8 BOM (decode using utf-8-sig): line 1 column 1
    (char 0)"], whatever follows the mark. *)
Theorem byte_order_mark_fails t :
  let e := JSONDecodeError
             (lit "Unexpected UTF-8 BOM (decode using utf-8-sig)")
             (65279 :: t) 0 in
  run' (Decoded (65279 :: t)) = Some (emitted (failure_result e))
  /\ field "status" (failure_result e) = Some (PStr (lit "FAILED"))
  /\ field "reason" (failure_result e)
     = Some (PStr (lit "Unexpected UTF-8 BOM (decode using utf-8-sig): line 1 column 1 (char 0)")).
Proof.
  intros e. split; [| split; reflexivity].
  apply (run_failure isprintable encode_error decode_depth ascii_encodable).
  left. reflexivity.
Qed.





(** X10. Every run writes the text of one result, and a result without
    floats, whose strings hold scalar values and whose objects have
    distinct keys, is read back from that text unchanged, by a decoder
    of strict JSON as by [json.loads]. *)
Theorem output_reads_back stdin :
  exists r,
    run' stdin = Some (emitted r)
    /\ (exact_value r = true ->
        Json.loads false (Json.dumps r) = Some (Returns r)
        /\ Json.loads true (Json.dumps r) = Some (Returns r)).
Proof.
  assert (Hr : exists r, run' stdin = Some (emitted r)).
  { destruct (run_cases isprintable encode_error decode_depth ascii_encodable
                stdin)
      as [(task & inp & _ & _ & Hrun) | (e & Hrun & _)];
      eexists; exact Hrun. }
  destruct Hr as (r & Hrun).
  exists r. split; [exact Hrun |].
  intros Hex.
  pose proof (JsonValid.loads_dumps_exact r Hex) as H.
  split; [exact H | apply JsonValid.loads_strict_default, H].
Qed.



(** X13. White space around the document does not matter: when a text
    is a value in the grammar of [json.load], the worker writes the same
    standard output for that text with spaces, tabs and line ends before
    it and after it, a final newline for one. *)
Theorem surrounding_white_space_is_ignored text before after v :
  Forall (fun c => Json.is_ws c = true) before ->
  Forall (fun c => Json.is_ws c = true) after ->
  Json.loads true text = Some (Returns v) ->
  run' (Decoded (before ++ text ++ after)) = run' (Decoded text).
Proof.
  intros Hb Ha H.
  rewrite !(run_paths _ _ _ ascii_encodable). cbn [load_outcome].
  rewrite (JsonValid.load_blank decode_depth text before after v Hb Ha H).
  reflexivity.
Qed.


(** X15. No object of the result written, at any depth, has two equal
    keys, even when the input repeats a key: [json.load] keeps one
    entry for a key, and the keys the worker adds are distinct. *)
Theorem result_keys_are_distinct stdin :
  exists r,
    run' stdin = Some (emitted r) /\ keys_distinct r = true.
Proof.
  destruct (run_cases isprintable encode_error decode_depth ascii_encodable
              stdin)
    as [(task & inp & Hl & _ & Hrun) | (e & Hrun & _)].
  - exists (greeting task inp). split; [exact Hrun |].
    assert (Ht : keys_distinct (PDict task) = true).
    { destruct stdin as [text | msg]; [| discriminate Hl].
      exact (JsonValid.loads_keys_distinct true text _
               (JsonValid.load_loads _ _ _ Hl)). }
    unfold greeting_result, completed. cbv zeta.
    cbn [keys_distinct List.map fst snd List.forallb].
    rewrite (JsonValid.get_keys_distinct task (lit "taskId") unknown Ht eq_refl).
    rewrite (JsonValid.get_keys_distinct task (lit "workflowInstanceId")
               unknown Ht eq_refl).
    reflexivity.
  - exists (failure_result e). split; [exact Hrun | reflexivity].
Qed.

(** X16. An integer of more than 4300 digits makes [json.load] raise
    the [ValueError] of [int]: the input [{"taskId": n}] for such an
    [n], although a syntactically valid JSON object, gives a result with
    status ["FAILED"] whose reason is ["Exceeds the limit (4300 digits)
    for integer string conversion: value has N digits; use
    sys.set_int_max_str_digits() to increase the limit"], [N] being the
    number of digits of [n]. *)
Theorem long_integer_fails z :
  (Json.max_str_digits < Json.int_digits z)%nat ->
  (1 <= decode_depth)%nat ->
  let text := Json.dumps (PDict [(lit "taskId", PInt z)]) in
  let reason :=
    lit "Exceeds the limit (4300 digits) for integer string conversion: value has "
    ++ dec_N (N.of_nat (Json.int_digits z))
    ++ lit " digits; use sys.set_int_max_str_digits() to increase the limit" in
  let r := failed reason [lit "Error processing task: " ++ reason] in
  valid_json_object text
  /\ run' (Decoded text) = Some (emitted r)
  /\ field "status" r = Some (PStr (lit "FAILED"))
  /\ field "reason" r = Some (PStr reason).
Proof.
  intros Hz Hdepth text reason r.
  split; [apply JsonValid.dumps_valid; reflexivity |].
  split; [| split; reflexivity].
  destruct decode_depth as [| depth]; [lia |].
  destruct (JsonValid.load_long_integer depth (lit "taskId") z eq_refl Hz)
    as (msg & Hi & Hload).
  rewrite (run_failure isprintable encode_error (S depth) ascii_encodable
             (Decoded text) (ValueError msg) (or_introl Hload)).
  cbn [Json.int_conversion_error] in Hi.
  replace (Json.max_str_digits <? Json.int_digits z)%nat with true in Hi
    by (symmetry; apply Nat.ltb_lt; exact Hz).
  injection Hi as <-. reflexivity.
Qed.

(** X17. Arrays nested deeper than the recursion limit lets the scanner
    go make [json.load] raise a [RecursionError], whatever follows the
    last bracket that is opened: the result has status ["FAILED"] and
    the reason ["maximum recursion depth exceeded while decoding a JSON
    array from a unicode string"]. *)
Theorem deep_nesting_fails rest :
  let text := List.repeat 91 (S decode_depth) ++ rest in
  let reason :=
    lit "maximum recursion depth exceeded while decoding a JSON array from a unicode string" in
  let r := failed reason [lit "Error processing task: " ++ reason] in
  run' (Decoded text) = Some (emitted r)
  /\ field "status" r = Some (PStr (lit "FAILED"))
  /\ field "reason" r = Some (PStr reason).
Proof.
  intros text reason r. split; [| split; reflexivity].
  apply (run_failure isprintable encode_error decode_depth ascii_encodable
           (Decoded text) (Json.too_deep "array")).
  left. apply JsonValid.load_too_deep.
Qed.

End Extras.

(** ** Further scenarios *)

Lemma output_is_printable_ascii_witness :
  writes_ascii utf8_encode_error
  /\ exists r,
      run latin1_isprintable utf8_encode_error default_depth
        (Decoded accent_text)
      = Some (emitted r)
      /\ printable (Json.dumps r).
Proof.
  split; [exact utf8_writes_ascii |].
  exact (output_is_printable_ascii latin1_isprintable utf8_encode_error
           default_depth
           utf8_writes_ascii (Decoded accent_text)).
Defined.

Lemma valid_object_in_valid_object_out_witness :
  Json.loads false mixed_text = Some (Returns (PDict mixed_task))
  /\ exists line,
      wrote_line
        (run latin1_isprintable utf8_encode_error default_depth
           (Decoded mixed_text)) line
      /\ valid_json_object line.
Proof.
  assert (H1 : Json.loads false mixed_text = Some (Returns (PDict mixed_task)))
    by (vm_compute; reflexivity).
  split; [exact H1 |].
  destruct (valid_object_in_valid_object_out latin1_isprintable
              utf8_encode_error default_depth utf8_writes_ascii mixed_text
                mixed_task
              H1 eq_refl eq_refl) as (line & Hw & Hv & _).
  exists line. split; [exact Hw | exact Hv].
Defined.


Lemma blank_input_fails_witness :
  Forall (fun c => Json.is_ws c = true) [32; 10]
  /\ run latin1_isprintable utf8_encode_error default_depth (Decoded [32; 10])
     = Some (emitted
               (failure_result
                  (JSONDecodeError (lit "Expecting value") [32; 10] 2))).
Proof.
  assert (H1 : Forall (fun c => Json.is_ws c = true) [32; 10])
    by (repeat constructor).
  split; [exact H1 |].
  exact (proj1 (blank_input_fails latin1_isprintable utf8_encode_error
                  default_depth
                  utf8_writes_ascii [32; 10] H1)).
Defined.

Lemma byte_order_mark_fails_witness :
  writes_ascii utf8_encode_error
  /\ run latin1_isprintable utf8_encode_error default_depth
       (Decoded (65279 :: lit "{}"))
     = Some (emitted
               (failure_result
                  (JSONDecodeError
                     (lit "Unexpected UTF-8 BOM (decode using utf-8-sig)")
                     (65279 :: lit "{}") 0))).
Proof.
  split; [exact utf8_writes_ascii |].
  exact (proj1 (byte_order_mark_fails latin1_isprintable utf8_encode_error
                  default_depth
                  utf8_writes_ascii (lit "{}"))).
Defined.





Lemma output_reads_back_witness :
  writes_ascii utf8_encode_error
  /\ exists r,
      run latin1_isprintable utf8_encode_error default_depth
        (Decoded accent_text)
      = Some (emitted r)
      /\ (exact_value r = true ->
          Json.loads false (Json.dumps r) = Some (Returns r)).
Proof.
  split; [exact utf8_writes_ascii |].
  destruct (output_reads_back latin1_isprintable utf8_encode_error default_depth
              utf8_writes_ascii (Decoded accent_text)) as (r & Hrun & H).
  exists r. split; [exact Hrun |]. intros Hex. exact (proj1 (H Hex)).
Defined.



Lemma surrounding_white_space_is_ignored_witness :
  Json.loads true alice_text = Some (Returns (PDict alice_task))
  /\ run latin1_isprintable utf8_encode_error default_depth
       (Decoded ([32; 9] ++ alice_text ++ [13; 10]))
     = run latin1_isprintable utf8_encode_error default_depth
         (Decoded alice_text).
Proof.
  assert (H1 : Json.loads true alice_text = Some (Returns (PDict alice_task)))
    by (vm_compute; reflexivity).
  split; [exact H1 |].
  apply (surrounding_white_space_is_ignored latin1_isprintable
           utf8_encode_error default_depth utf8_writes_ascii alice_text [32; 9]
             [13; 10]
           (PDict alice_task)); [repeat constructor | repeat constructor |].
  exact H1.
Defined.


Lemma result_keys_are_distinct_witness :
  writes_ascii utf8_encode_error
  /\ exists r,
      run latin1_isprintable utf8_encode_error default_depth
        (Decoded repeated_text)
      = Some (emitted r)
      /\ keys_distinct r = true.
Proof.
  split; [exact utf8_writes_ascii |].
  exact (result_keys_are_distinct latin1_isprintable utf8_encode_error
           default_depth
           utf8_writes_ascii (Decoded repeated_text)).
Defined.

Lemma one_line_valid_unless_infinite_witness :
  Json.loads false bob_text = Some (Returns (PDict bob_task))
  /\ exists r,
      run latin1_isprintable utf8_encode_error default_depth
        (Decoded bob_text)
      = Some {| stdout := [Json.dumps r ++ [10]]; exit_status := 0 |}
      /\ valid_json_object (Json.dumps r).
Proof.
  assert (H1 : Json.loads false bob_text = Some (Returns (PDict bob_task)))
    by (vm_compute; reflexivity).
  split; [exact H1 |].
  destruct (one_line_valid_unless_infinite latin1_isprintable
              utf8_encode_error default_depth utf8_writes_ascii
              bob_text bob_task H1) as (r & Hrun & _ & _ & Hiff).
  exists r. split; [exact Hrun |].
  apply Hiff. right. split; reflexivity.
Defined.

Lemma long_integer_fails_witness :
  (Json.max_str_digits < Json.int_digits (10 ^ 4300))%nat
  /\ valid_json_object (Json.dumps (PDict [(lit "taskId", PInt (10 ^ 4300))]))
  /\ run latin1_isprintable utf8_encode_error default_depth
       (Decoded (Json.dumps (PDict [(lit "taskId", PInt (10 ^ 4300))])))
     = Some (emitted
               (failed
                  (lit "Exceeds the limit (4300 digits) for integer string conversion: value has 4301 digits; use sys.set_int_max_str_digits() to increase the limit")
                  [lit "Error processing task: Exceeds the limit (4300 digits) for integer string conversion: value has 4301 digits; use sys.set_int_max_str_digits() to increase the limit"])).
Proof.
  assert (H1 : (Json.max_str_digits < Json.int_digits (10 ^ 4300))%nat)
    by (apply Nat.ltb_lt; vm_compute; reflexivity).
  assert (H2 : (1 <= default_depth)%nat) by (unfold default_depth; lia).
  destruct (long_integer_fails latin1_isprintable utf8_encode_error
              default_depth utf8_writes_ascii (10 ^ 4300)%Z H1 H2)
    as (Hvalid & Hrun & _).
  split; [exact H1 |]. split; [exact Hvalid |].
  assert (Hn : dec_N (N.of_nat (Json.int_digits (10 ^ 4300))) = lit "4301")
    by (vm_compute; reflexivity).
  rewrite Hn in Hrun. exact Hrun.
Defined.

Lemma deep_nesting_fails_witness :
  run latin1_isprintable utf8_encode_error default_depth
    (Decoded (List.repeat 91 (S default_depth) ++ lit "]"))
  = Some (emitted
            (failed
               (lit "maximum recursion depth exceeded while decoding a JSON array from a unicode string")
               [lit "Error processing task: maximum recursion depth exceeded while decoding a JSON array from a unicode string"])).
Proof.
  exact (proj1 (deep_nesting_fails latin1_isprintable utf8_encode_error
                  default_depth utf8_writes_ascii (lit "]"))).
Defined.
